(** * Quota-aware, rate-limited, caching YouTube API client

    A shallow embedding of
      - [app/utils/rate_limiter.py]   (class [RateLimiter]),
      - [app/utils/cache_manager.py]  (class [CacheManager], in-memory tier),
      - [app/services/youtube_api.py] (class [YouTubeAPIWrapper]),
    together with the properties of the design document that concern them.

    Conventions of the embedding.
    - Wall-clock readings ([time.time()], [datetime.now()]) are integers
      counting microseconds; a duration of [60.0] seconds is [60 * usec].
      All readings taken inside one straight-line run of a method see the
      same instant; time passes while a coroutine sleeps and while the
      upstream call is in flight.
    - Python's [int(x)] on a quotient truncates toward zero: [Z.quot].
    - Token counts are Python [int]s ([Z]): the configuration holds ints and
      [tokens_to_add] is the result of [int(...)].
    - A Python [dict] whose iteration order is observed ([memory_cache], which
      is sorted with a stable sort) is an association list in insertion
      order.
    - A Python [str] is the string of the bytes of its UTF-8 form, a
      [bytes] object the string of its bytes; decoding succeeds on the
      well-formed byte strings and changes nothing.
    - The source computes with floating-point seconds; the integer
      microseconds follow it except for rounding in the last place. Where
      that could decide an outcome (a sleep that ends on the very boundary of
      a window), the statement asks the sleep to overrun by a margin. *)

From stdpp Require Import base decidable option list numbers strings gmap pretty sorting.
From Stdlib Require Import ZArith Lia Ascii.

Local Open Scope Z_scope.
Set Warnings "-register-all".

(** ** Time *)

Definition usec : Z := 1000000.

(** ** [rate_limiter.py] *)

Module RateLimiter.

Record RateLimitConfig := mkConfig {
  calls_per_minute : Z;
  calls_per_hour : Z;
  burst_limit : Z
}.

(** The dataclass defaults. *)
Definition default_config : RateLimitConfig := mkConfig 100 1000 10.

Record t := mk {
  config : RateLimitConfig;
  minute_tokens : Z;
  minute_last_refill : Z;
  hour_tokens : Z;
  hour_last_refill : Z;
  burst_tokens : Z;
  burst_last_refill : Z;
  request_timestamps : list Z
}.

(** [__init__]; [now] is the instant of construction. *)
Definition init (cfg : RateLimitConfig) (now : Z) : t :=
  mk cfg (calls_per_minute cfg) now (calls_per_hour cfg) now (burst_limit cfg) now [].

(** One window of [_refill_tokens]: the minute and the hour bucket follow
    the same text with their own period and capacity. Returns the new
    token count and the new [last_refill]. *)
Definition refill_window (period cap tokens last current_time : Z) : Z * Z :=
  let elapsed := current_time - last in
  if bool_decide (period ≤ elapsed) then (cap, current_time)
  else
    let tokens_to_add := Z.quot (elapsed * cap) period in
    (Z.min cap (tokens + tokens_to_add),
     if bool_decide (0 < tokens_to_add) then current_time else last).

Definition _refill_tokens (current_time : Z) (rl : t) : t :=
  let cfg := config rl in
  let '(mt, ml) := refill_window (60 * usec) (calls_per_minute cfg)
                     (minute_tokens rl) (minute_last_refill rl) current_time in
  let '(ht, hl) := refill_window (3600 * usec) (calls_per_hour cfg)
                     (hour_tokens rl) (hour_last_refill rl) current_time in
  let burst_elapsed := current_time - burst_last_refill rl in
  let '(bt, bl) := if bool_decide (1 * usec ≤ burst_elapsed)
                   then (burst_limit cfg, current_time)
                   else (burst_tokens rl, burst_last_refill rl) in
  mk cfg mt ml ht hl bt bl (request_timestamps rl).

(** The admission test shared by [acquire] and [try_acquire]. *)
Definition enough (tokens : Z) (rl : t) : bool :=
  bool_decide (tokens ≤ minute_tokens rl) &&
  bool_decide (tokens ≤ hour_tokens rl) &&
  bool_decide (tokens ≤ burst_tokens rl).

Definition consume (tokens : Z) (stamps : list Z) (rl : t) : t :=
  mk (config rl)
     (minute_tokens rl - tokens) (minute_last_refill rl)
     (hour_tokens rl - tokens) (hour_last_refill rl)
     (burst_tokens rl - tokens) (burst_last_refill rl)
     stamps.

(** [try_acquire]: refill, then deduct from all three buckets or from none. *)
Definition try_acquire (tokens now : Z) (rl : t) : bool * t :=
  let rl1 := _refill_tokens now rl in
  if enough tokens rl1
  then (true, consume tokens (request_timestamps rl1 ++ [now]) rl1)
  else (false, rl1).

(** [float('inf')] is [None]. *)
Definition min_inf (a b : option Z) : option Z :=
  match a, b with
  | Some x, Some y => Some (Z.min x y)
  | Some x, None => Some x
  | None, b => b
  end.

Definition wait_time (tokens now : Z) (rl : t) : Z :=
  let w :=
    min_inf
      (min_inf
         (if bool_decide (minute_tokens rl < tokens)
          then Some (60 * usec - (now - minute_last_refill rl)) else None)
         (if bool_decide (hour_tokens rl < tokens)
          then Some (3600 * usec - (now - hour_last_refill rl)) else None))
      (if bool_decide (burst_tokens rl < tokens)
       then Some (1 * usec - (now - burst_last_refill rl)) else None) in
  let w := default (usec / 10) w in
  Z.max (usec / 10) w.

Inductive status := Acquired | StillWaiting.

Global Instance status_eq_dec : EqDecision status.
Proof. solve_decision. Defined.

(** [acquire]: the [while True] loop. Each element of [oversleep] is the
    time by which one [asyncio.sleep] overran the requested duration; the
    loop is unrolled once per element, and [StillWaiting] is the state of a
    caller that is still inside the loop after those sleeps. The result
    carries the instant at which the loop was left (or last observed) and
    the part of [oversleep] that was not used. *)
Fixpoint acquire (oversleep : list Z) (tokens now : Z) (rl : t)
  : status * Z * t * list Z :=
  let rl1 := _refill_tokens now rl in
  if enough tokens rl1 then
    let stamps := request_timestamps rl1 ++ [now] in
    let cutoff_time := now - 3600 * usec in
    (Acquired, now,
     consume tokens (filter (λ ts, cutoff_time < ts) stamps) rl1, oversleep)
  else
    match oversleep with
    | [] => (StillWaiting, now, rl1, [])
    | d :: rest => acquire rest tokens (now + wait_time tokens now rl1 + d) rl1
    end.

(** [reset] *)
Definition reset (now : Z) (rl : t) : t := init (config rl) now.

(** A trace of calls made on one limiter by its owner. *)
Inductive call :=
| CallAcquire (tokens : Z) (oversleep : list Z)
| CallTryAcquire (tokens : Z)
| Elapse (d : Z).

Definition step (c : call) (s : Z * t) : Z * t :=
  let '(now, rl) := s in
  match c with
  | CallAcquire tokens oversleep =>
      let '(_, now', rl', _) := acquire oversleep tokens now rl in (now', rl')
  | CallTryAcquire tokens => (now, (try_acquire tokens now rl).2)
  | Elapse d => (now + d, rl)
  end.

Definition run (cs : list call) (s : Z * t) : Z * t :=
  foldl (λ s c, step c s) s cs.

(** Well-formedness of a trace: token counts are non-negative and the
    clock does not run backwards. *)
Definition call_ok (c : call) : Prop :=
  match c with
  | CallAcquire tokens oversleep => 0 ≤ tokens ∧ Forall (λ d, 0 ≤ d) oversleep
  | CallTryAcquire tokens => 0 ≤ tokens
  | Elapse d => 0 ≤ d
  end.

(** The same without the condition on the clock: between two calls the
    reading of [time.time()] may move by any amount, also backwards. *)
Definition tokens_ok (c : call) : Prop :=
  match c with
  | CallAcquire tokens oversleep => 0 ≤ tokens ∧ Forall (λ d, 0 ≤ d) oversleep
  | CallTryAcquire tokens => 0 ≤ tokens
  | Elapse d => True
  end.

Definition config_ok (cfg : RateLimitConfig) : Prop :=
  0 ≤ calls_per_minute cfg ∧ 0 ≤ calls_per_hour cfg ∧ 0 ≤ burst_limit cfg.

(** Every bucket between zero and its capacity. *)
Definition in_range (rl : t) : Prop :=
  0 ≤ minute_tokens rl ≤ calls_per_minute (config rl) ∧
  0 ≤ hour_tokens rl ≤ calls_per_hour (config rl) ∧
  0 ≤ burst_tokens rl ≤ burst_limit (config rl).

Definition below_capacity (rl : t) : Prop :=
  minute_tokens rl ≤ calls_per_minute (config rl) ∧
  hour_tokens rl ≤ calls_per_hour (config rl) ∧
  burst_tokens rl ≤ burst_limit (config rl).

Definition buckets (rl : t) : Z * Z * Z :=
  (minute_tokens rl, hour_tokens rl, burst_tokens rl).

(** No [last_refill] stamp lies in the future of [now]. *)
Definition timely (now : Z) (rl : t) : Prop :=
  minute_last_refill rl ≤ now ∧ hour_last_refill rl ≤ now ∧ burst_last_refill rl ≤ now.

(** [rl'] comes from [rl] by refills alone: nothing was deducted. *)
Inductive refills_only (rl : t) : t → Prop :=
| refills_nil : refills_only rl rl
| refills_snoc now rl' : refills_only rl rl' → refills_only rl (_refill_tokens now rl').

(** The state in which a limiter is between calls. *)
Definition good (s : Z * t) : Prop :=
  config_ok (config s.2) ∧ in_range s.2 ∧ timely s.1 s.2.

(** What one admission leaves behind: [rl'] is [rl0] with [tokens] taken
    from each of the three buckets. *)
Definition deducted (tokens : Z) (rl0 rl' : t) : Prop :=
  minute_tokens rl' = minute_tokens rl0 - tokens ∧
  hour_tokens rl' = hour_tokens rl0 - tokens ∧
  burst_tokens rl' = burst_tokens rl0 - tokens.

(** Some bucket is configured with a capacity below [tokens]. *)
Definition over_capacity (tokens : Z) (cfg : RateLimitConfig) : Prop :=
  calls_per_minute cfg < tokens ∨ calls_per_hour cfg < tokens ∨ burst_limit cfg < tokens.

End RateLimiter.

(** ** Python values and strings *)

(** The JSON-like values that travel through the cache and the pipeline. *)
Inductive PyVal :=
| VNone
| VBool (b : bool)
| VInt (z : Z)
| VStr (s : string)
| VList (l : list PyVal)
| VDict (d : list (string * PyVal)).

(** Python truthiness ([if x:]). *)
Definition truthy (v : PyVal) : bool :=
  match v with
  | VNone => false
  | VBool b => b
  | VInt z => negb (bool_decide (z = 0))
  | VStr s => negb (bool_decide (s = ""))
  | VList l => negb (bool_decide (l = []))
  | VDict d => negb (bool_decide (length d = 0%nat))
  end.

Definition str_truthy (s : string) : bool := negb (bool_decide (s = "")).

(** *** UTF-8 *)

Definition byte (c : ascii) : Z := Z.of_nat (nat_of_ascii c).

(** A continuation byte, [10xxxxxx]. *)
Definition continuation (c : ascii) : bool := bool_decide (128 ≤ byte c ≤ 191).

(** Whether [c] lies between the bytes [lo] and [hi]. *)
Definition between (lo hi : Z) (c : ascii) : bool := bool_decide (lo ≤ byte c ≤ hi).

(** The number of bytes of the well-formed sequence that [s] begins with;
    0 when it begins with none. This is the table of well-formed byte
    sequences of the Unicode standard, which the [utf-8] codec enforces: no
    overlong forms, no surrogates, nothing beyond U+10FFFF. *)
Definition utf8_width (s : string) : nat :=
  match s with
  | EmptyString => 0
  | String c0 r0 =>
      if between 0 127 c0 then 1
      else
        match r0 with
        | EmptyString => 0
        | String c1 r1 =>
            if between 194 223 c0 then (if continuation c1 then 2 else 0)
            else
              match r1 with
              | EmptyString => 0
              | String c2 r2 =>
                  if between 224 239 c0 then
                    if (if between 224 224 c0 then between 160 191 c1
                        else if between 237 237 c0 then between 128 159 c1
                        else continuation c1) && continuation c2
                    then 3 else 0
                  else
                    match r2 with
                    | EmptyString => 0
                    | String c3 _ =>
                        if between 240 244 c0 &&
                           (if between 240 240 c0 then between 144 191 c1
                            else if between 244 244 c0 then between 128 143 c1
                            else continuation c1) &&
                           continuation c2 && continuation c3
                        then 4 else 0
                    end
              end
        end
  end.

Fixpoint take_bytes (n : nat) (s : string) : string :=
  match n, s with
  | S n, String c r => String c (take_bytes n r)
  | _, _ => EmptyString
  end.

Fixpoint drop_bytes (n : nat) (s : string) : string :=
  match n, s with
  | S n, String _ r => drop_bytes n r
  | _, _ => s
  end.

Fixpoint utf8_valid_fuel (fuel : nat) (s : string) : bool :=
  match s, fuel with
  | EmptyString, _ => true
  | _, O => false
  | _, S fuel =>
      match utf8_width s with
      | O => false
      | n => utf8_valid_fuel fuel (drop_bytes n s)
      end
  end.

(** [b.decode('utf-8')] succeeds. *)
Definition utf8_valid (b : string) : bool := utf8_valid_fuel (String.length b) b.

(** The characters of a text, each as the bytes of its UTF-8 form. (A byte
    that begins no well-formed sequence, which a [str] does not hold, counts
    as a character of its own.) *)
Fixpoint utf8_chars_fuel (fuel : nat) (s : string) : list string :=
  match s, fuel with
  | EmptyString, _ => []
  | _, O => []
  | _, S fuel =>
      let n := (utf8_width s `max` 1)%nat in
      take_bytes n s :: utf8_chars_fuel fuel (drop_bytes n s)
  end.

Definition utf8_chars (s : string) : list string := utf8_chars_fuel (String.length s) s.

(** [ord(c)] of a character given by its bytes. *)
Definition code_point (c : string) : Z :=
  match byte <$> String.list_ascii_of_string c with
  | [b0] => if bool_decide (b0 ≤ 127) then b0 else -1
  | [b0; b1] => (b0 - 192) * 64 + (b1 - 128)
  | [b0; b1; b2] => (b0 - 224) * 4096 + (b1 - 128) * 64 + (b2 - 128)
  | [b0; b1; b2; b3] => (b0 - 240) * 262144 + (b1 - 128) * 4096 + (b2 - 128) * 64 + (b3 - 128)
  | _ => -1
  end.

(** [len(s)]: the number of characters of the text, which is the number of
    its bytes that are no continuation bytes. *)
Fixpoint len (s : string) : Z :=
  match s with
  | EmptyString => 0
  | String c r => (if continuation c then 0 else 1) + len r
  end.

(** [str.lower()], as far as the ASCII letters go. (The tests made on
    lowered text look for ASCII words; the other characters cannot add or
    take away an occurrence of one.) *)
Definition lower_ascii (c : ascii) : ascii :=
  let n := nat_of_ascii c in
  if (65 <=? n)%nat && (n <=? 90)%nat then ascii_of_nat (n + 32) else c.

Fixpoint lower (s : string) : string :=
  match s with
  | EmptyString => EmptyString
  | String c r => String (lower_ascii c) (lower r)
  end.

(** [sub in s] *)
Fixpoint contains (sub s : string) : bool :=
  String.prefix sub s ||
  match s with
  | EmptyString => false
  | String _ r => contains sub r
  end.

(** [sep.join(l)] *)
Fixpoint join (sep : string) (l : list string) : string :=
  match l with
  | [] => ""
  | [x] => x
  | x :: r => x +:+ sep +:+ join sep r
  end.

(** [str(x)] for an [int]. *)
Definition str_int (z : Z) : string := pretty z.

(** [str(x)] for an optional string argument inside an f-string. *)
Definition str_opt (o : option string) : string := default "None" o.

(** ** Dictionaries in insertion order *)

Section dict.
Context {V : Type}.

Fixpoint dict_get (k : string) (d : list (string * V)) : option V :=
  match d with
  | [] => None
  | (k', v) :: r => if decide (k = k') then Some v else dict_get k r
  end.

(** [d[k] = v]: an existing key keeps its place, a new one goes last. *)
Fixpoint dict_set (k : string) (v : V) (d : list (string * V)) : list (string * V) :=
  match d with
  | [] => [(k, v)]
  | (k', v') :: r => if decide (k = k') then (k, v) :: r else (k', v') :: dict_set k v r
  end.

(** [del d[k]] *)
Fixpoint dict_del (k : string) (d : list (string * V)) : list (string * V) :=
  match d with
  | [] => []
  | (k', v') :: r => if decide (k = k') then r else (k', v') :: dict_del k r
  end.

Definition dict_del_all (ks : list string) (d : list (string * V)) : list (string * V) :=
  foldl (λ d k, dict_del k d) d ks.
End dict.

(** ** [config.py] : the settings the client reads *)

Record Settings := mkSettings {
  youtube_api_quota_limit : Z;
  cache_ttl_seconds : Z;
  cache_max_size : Z;
  enable_caching : bool
}.

Definition default_settings : Settings := mkSettings 10000 3600 1000 true.

(** ** Exceptions *)

Inductive PyExc :=
| YouTubeAPIError (msg : string)
| QuotaExceededException (msg : string)   (* subclass of YouTubeAPIError *)
| IndexError (msg : string)
| OverflowError (msg : string)
| UnicodeDecodeError (msg : string).

(** [str(e)] *)
Definition exc_str (e : PyExc) : string :=
  match e with
  | YouTubeAPIError m | QuotaExceededException m | IndexError m
  | OverflowError m | UnicodeDecodeError m => m
  end.

(** [isinstance(e, YouTubeAPIError)] *)
Definition is_YouTubeAPIError (e : PyExc) : bool :=
  match e with
  | YouTubeAPIError _ | QuotaExceededException _ => true
  | IndexError _ | OverflowError _ | UnicodeDecodeError _ => false
  end.

(** What [b.decode('utf-8')] raises on bytes that are not well formed. *)
Definition decode_error : PyExc :=
  UnicodeDecodeError "'utf-8' codec can't decode bytes".

(** ** [cache_manager.py] *)

Module CacheManager.

Record CacheEntry := mkEntry {
  value : PyVal;
  expires_at : Z
}.

(** [redis_client] is [None] and [connected] is [False] throughout the
    source ("Disabled for now"), so only the memory tier carries state. *)
Record t := mk {
  memory_cache : list (string * CacheEntry);
  memory_cache_max_size : Z;
  default_ttl : Z
}.

Definition init (settings : Settings) : t :=
  mk [] (cache_max_size settings) (cache_ttl_seconds settings).

Definition with_cache (c : list (string * CacheEntry)) (cm : t) : t :=
  mk c (memory_cache_max_size cm) (default_ttl cm).

(** [datetime.min] and [datetime.max], counted like the clock from the
    beginning of 1970: the years 1 to 9999. *)
Definition datetime_min : Z := -62135596800 * usec.
Definition datetime_max : Z := 253402300800 * usec - 1.

(** The instants a [datetime] can hold, and the seconds a [timedelta] can
    (at most 999999999 days either way). *)
Definition datetime_ok (t : Z) : Prop := datetime_min ≤ t ≤ datetime_max.
Definition timedelta_ok (seconds : Z) : Prop :=
  -999999999 ≤ seconds `div` 86400 ≤ 999999999.

(** [datetime.now() + timedelta(seconds=ttl)]; [None] where either the
    [timedelta] or the sum raises [OverflowError]. *)
Definition expiry (now ttl : Z) : option Z :=
  if bool_decide (timedelta_ok ttl ∧ datetime_ok (now + ttl * usec))
  then Some (now + ttl * usec) else None.

Section with_md5.
(** [hashlib.md5(key.encode()).hexdigest()] *)
Variable md5_hexdigest : string → string.
Variable settings : Settings.

Definition _generate_cache_key (key : string) : string :=
  let key := if bool_decide (200 < len key) then md5_hexdigest key else key in
  "ytce" +:+ ":" +:+ key.

(** [get(key)] with [default=None], read at instant [now]. *)
Definition get (key : string) (now : Z) (cm : t) : PyVal * t :=
  if negb (enable_caching settings) then (VNone, cm)
  else
    let cache_key := _generate_cache_key key in
    match dict_get cache_key (memory_cache cm) with
    | Some entry =>
        if bool_decide (now < expires_at entry) then (value entry, cm)
        else (VNone, with_cache (dict_del cache_key (memory_cache cm)) cm)
    | None => (VNone, cm)
    end.

(** [sorted(items, key=lambda x: x[1]['expires_at'])]: a stable sort. *)
Fixpoint insert_by_expiry (x : string * CacheEntry) (l : list (string * CacheEntry))
  : list (string * CacheEntry) :=
  match l with
  | [] => [x]
  | y :: r => if bool_decide (expires_at x.2 ≤ expires_at y.2)
              then x :: y :: r else y :: insert_by_expiry x r
  end.

Definition sorted_by_expiry (l : list (string * CacheEntry)) : list (string * CacheEntry) :=
  foldr insert_by_expiry [] l.

Definition expired_keys (now : Z) (c : list (string * CacheEntry)) : list string :=
  (filter (λ kv, expires_at kv.2 ≤ now) c).*1.

(** [_cleanup_memory_cache]. The loop over [range(items_to_remove)]
    indexes [sorted_items]; when [items_to_remove] exceeds its length the
    deletions up to the end are done and the next index raises. *)
Definition _cleanup_memory_cache (now : Z) (cm : t) : option PyExc * t :=
  let c1 := dict_del_all (expired_keys now (memory_cache cm)) (memory_cache cm) in
  if bool_decide (memory_cache_max_size cm ≤ Z.of_nat (length c1)) then
    let sorted_items := sorted_by_expiry c1 in
    let items_to_remove := Z.of_nat (length sorted_items) - memory_cache_max_size cm + 1 in
    let victims := take (Z.to_nat items_to_remove) sorted_items in
    let c2 := dict_del_all victims.*1 c1 in
    if bool_decide (Z.of_nat (length sorted_items) < items_to_remove)
    then (Some (IndexError "list index out of range"), with_cache c2 cm)
    else (None, with_cache c2 cm)
  else (None, with_cache c1 cm).

(** [ttl or self.default_ttl] *)
Definition ttl_or_default (ttl : option Z) (cm : t) : Z :=
  match ttl with
  | Some n => if bool_decide (n = 0) then default_ttl cm else n
  | None => default_ttl cm
  end.

(** [set(key, value, ttl)] at instant [now]: the returned boolean, or
    the exception that escaped. The entry is built after the cleanup; when
    its expiry cannot be computed nothing is stored. *)
Definition set (key : string) (v : PyVal) (ttl : option Z) (now : Z) (cm : t)
  : (PyExc + bool) * t :=
  if negb (enable_caching settings) then (inr false, cm)
  else
    let cache_key := _generate_cache_key key in
    let ttl := ttl_or_default ttl cm in
    match _cleanup_memory_cache now cm with
    | (Some e, cm1) => (inl e, cm1)
    | (None, cm1) =>
        match expiry now ttl with
        | None => (inl (OverflowError "date value out of range"), cm1)
        | Some expires_at =>
            (inr true,
             with_cache (dict_set cache_key (mkEntry v expires_at) (memory_cache cm1)) cm1)
        end
    end.

(** A sequence of [set] calls, each at its own instant. *)
Definition set_many_at (ops : list (string * PyVal * option Z * Z)) (cm : t) : t :=
  foldl (λ cm op, let '(k, v, ttl, now) := op in (set k v ttl now cm).2) cm ops.
End with_md5.

Definition size (cm : t) : Z := Z.of_nat (length (memory_cache cm)).

(** Order of eviction: by expiry instant. *)
Definition expiry_le (x y : string * CacheEntry) : Prop :=
  expires_at x.2 ≤ expires_at y.2.

(** The entries not yet expired at [now]. *)
Definition live (now : Z) (c : list (string * CacheEntry)) : list (string * CacheEntry) :=
  filter (λ kv, now < expires_at kv.2) c.

(** A dictionary holds each key once. *)
Definition keys_ok (cm : t) : Prop := NoDup (memory_cache cm).*1.

End CacheManager.

(** ** [youtube_api.py] *)

Module YouTubeAPI.

(** A prepared request object ([self.youtube.videos().list(...)]): the
    resource method and its keyword arguments. *)
Definition Request : Type := string * list (string * PyVal).

(** What [request_func.execute()] does: return the decoded payload, raise
    [HttpError] with a status and a body ([e.content], bytes), or raise
    anything else. *)
Inductive Upstream :=
| UpOk (result : PyVal)
| UpHttpError (status : Z) (content : string)
| UpException (msg : string).

(** Exceptions that can be in flight inside [_make_request]. *)
Inductive Exc :=
| Py (e : PyExc)
| HttpError (status : Z) (content : string)
| OtherException (msg : string).

Definition Exc_str (e : Exc) : string :=
  match e with
  | Py e => exc_str e
  | HttpError _ content => content
  | OtherException m => m
  end.

Record Wrapper := mkWrapper {
  quota_limit : Z;
  rate_limiter : RateLimiter.t;
  cache_manager : CacheManager.t;
  quota_used : Z;
  quota_reset_time : Z;
  operation_costs : gmap string Z
}.

(** The process around one client instance: the wall clock, the overruns
    of the sleeps still to come, the client object, the requests executed
    upstream so far (oldest first) and the [_make_request] invocations so
    far (the three arguments of each, oldest first). The last two are
    observations only; no code reads them except the upstream itself, whose
    answer may depend on what it was asked before. *)
Record World := mkWorld {
  clock : Z;
  oversleeps : list Z;
  self : Wrapper;
  issued : list Request;
  pipeline_log : list (Request * string * option string)
}.

Definition with_self (s : Wrapper) (w : World) : World :=
  mkWorld (clock w) (oversleeps w) s (issued w) (pipeline_log w).
Definition with_quota (used reset : Z) (s : Wrapper) : Wrapper :=
  mkWrapper (quota_limit s) (rate_limiter s) (cache_manager s) used reset (operation_costs s).
Definition with_cache_manager (cm : CacheManager.t) (s : Wrapper) : Wrapper :=
  mkWrapper (quota_limit s) (rate_limiter s) cm (quota_used s) (quota_reset_time s)
    (operation_costs s).
Definition with_rate_limiter (rl : RateLimiter.t) (s : Wrapper) : Wrapper :=
  mkWrapper (quota_limit s) rl (cache_manager s) (quota_used s) (quota_reset_time s)
    (operation_costs s).

(** *** The monad of coroutines: state, exceptions, and a caller that is
    still suspended when the observation ends. *)

Inductive Outcome (A : Type) :=
| Return (a : A)
| Raise (e : Exc)
| Pending.
Arguments Return {A} a.
Arguments Raise {A} e.
Arguments Pending {A}.

Definition M (A : Type) : Type := World → Outcome A * World.

Global Instance M_ret : MRet M := λ A a w, (Return a, w).

Global Instance M_bind : MBind M := λ A B f m w,
  match m w with
  | (Return a, w') => f a w'
  | (Raise e, w') => (Raise e, w')
  | (Pending, w') => (Pending, w')
  end.

Definition raise {A} (e : Exc) : M A := λ w, (Raise e, w).

(** [try: body except ... as e: handler e] *)
Definition try_except {A} (body : M A) (handler : Exc → M A) : M A := λ w,
  match body w with
  | (Raise e, w') => handler e w'
  | r => r
  end.

Definition gets {A} (f : World → A) : M A := λ w, (Return (f w), w).
Definition modify (f : World → World) : M unit := λ w, (Return tt, f w).

(** [await asyncio.sleep(d)] *)
Definition sleep (d : Z) : M unit := λ w,
  match oversleeps w with
  | [] => (Pending, w)
  | x :: rest => (Return tt, mkWorld (clock w + d + x) rest (self w) (issued w) (pipeline_log w))
  end.

Definition day : Z := 86400 * usec.

Definition default_operation_costs : gmap string Z :=
  {[ "search" := 100; "videos" := 1; "channels" := 1; "comments" := 1; "captions" := 200 ]}.

(** [range(start, stop, step)] for a positive step, as the loop runs it. *)
Fixpoint range_from (fuel start stop step : nat) : list nat :=
  match fuel with
  | O => []
  | S fuel => if bool_decide (start < stop)%nat
              then start :: range_from fuel (start + step) stop step else []
  end.
Definition py_range (start stop step : nat) : list nat := range_from stop start stop step.

(** [result.get('items', [])] on a response object. *)
Definition items_of (result : PyVal) : list PyVal :=
  match result with
  | VDict d => match dict_get "items" d with Some (VList l) => l | _ => [] end
  | _ => []
  end.

Definition empty_items : PyVal := VDict [("items", VList [])].

(** What [_check_quota] raises. *)
Definition quota_error : Exc := Py (QuotaExceededException "Daily quota limit exceeded").

(** Consecutive chunks of at most [n] elements. *)
Fixpoint chunks_fuel {A} (fuel n : nat) (l : list A) : list (list A) :=
  match fuel with
  | O => []
  | S fuel => match l with
              | [] => []
              | _ => take n l :: chunks_fuel fuel n (drop n l)
              end
  end.
Definition chunks {A} (n : nat) (l : list A) : list (list A) := chunks_fuel (length l) n l.

(** The sizes of those chunks, from the length alone. *)
Fixpoint chunk_sizes (fuel n len : nat) : list nat :=
  match fuel with
  | O => []
  | S fuel => match len with
              | O => []
              | _ => (n `min` len)%nat :: chunk_sizes fuel n (len - n)
              end
  end.

Section client.
(** [hashlib.md5(...).hexdigest()], the interpreter's [hash()] on
    strings (keyed by the secret of the running process), [str()] of a
    [datetime], and the upstream service: its answer and the time it took,
    given the requests executed before and the request itself. *)
Variable md5_hexdigest : string → string.
Variable py_hash : string → Z.
Variable str_datetime : Z → string.
Variable settings : Settings.
Variable execute : list Request → Request → Upstream * Z.

(** [__init__], run at instant [now]. *)
Definition init (now : Z) : Wrapper :=
  mkWrapper (youtube_api_quota_limit settings)
    (RateLimiter.init RateLimiter.default_config now)
    (CacheManager.init settings)
    0 (now + day) default_operation_costs.

Definition cost_of (operation : string) (s : Wrapper) : Z :=
  default 1 (operation_costs s !! operation).

Definition _check_quota (operation : string) : M bool :=
  now ← gets clock;
  s ← gets self;
  let cost := cost_of operation s in
  _ ← (if bool_decide (quota_reset_time s < now)
       then modify (with_self (with_quota 0 (now + day) s))
       else mret tt);
  s ← gets self;
  if bool_decide (quota_limit s < quota_used s + cost)
  then raise quota_error
  else mret true.

Definition _update_quota (operation : string) : M unit :=
  s ← gets self;
  let cost := cost_of operation s in
  modify (with_self (with_quota (quota_used s + cost) (quota_reset_time s) s)).

Definition cache_get (key : string) : M PyVal := λ w,
  let '(v, cm) := CacheManager.get md5_hexdigest settings key (clock w)
                    (cache_manager (self w)) in
  (Return v, with_self (with_cache_manager cm (self w)) w).

Definition cache_set (key : string) (v : PyVal) (ttl : option Z) : M bool := λ w,
  let '(r, cm) := CacheManager.set md5_hexdigest settings key v ttl (clock w)
                    (cache_manager (self w)) in
  let w' := with_self (with_cache_manager cm (self w)) w in
  match r with
  | inl e => (Raise (Py e), w')
  | inr b => (Return b, w')
  end.

(** [await self.rate_limiter.acquire()] *)
Definition rate_limiter_acquire (tokens : Z) : M bool := λ w,
  let '(st, now, rl, rest) :=
    RateLimiter.acquire (oversleeps w) tokens (clock w) (rate_limiter (self w)) in
  let w' := mkWorld now rest (with_rate_limiter rl (self w)) (issued w) (pipeline_log w) in
  match st with
  | RateLimiter.Acquired => (Return true, w')
  | RateLimiter.StillWaiting => (Pending, w')
  end.

(** [request_func.execute()] *)
Definition execute_request (request_func : Request) : M PyVal := λ w,
  let '(answer, latency) := execute (issued w) request_func in
  let w' := mkWorld (clock w + latency) (oversleeps w) (self w)
              (issued w ++ [request_func]) (pipeline_log w) in
  match answer with
  | UpOk result => (Return result, w')
  | UpHttpError status content => (Raise (HttpError status content), w')
  | UpException msg => (Raise (OtherException msg), w')
  end.

(** The exception that the [except] clauses of [_make_request] raise in
    place of [e], given the decoded body of an [HttpError]. *)
Definition classify (e : Exc) : Exc :=
  match e with
  | HttpError status content =>
      let error_content := if str_truthy content then content else "No error content" in
      if bool_decide (status = 403) then
        if contains "quota" (lower error_content)
        then Py (QuotaExceededException "API quota exceeded")
        else Py (YouTubeAPIError ("API access forbidden: " +:+ error_content))
      else if bool_decide (status = 400) then
        Py (YouTubeAPIError ("Bad request: " +:+ error_content))
      else if bool_decide (status = 404) then
        Py (YouTubeAPIError ("Resource not found: " +:+ error_content))
      else
        Py (YouTubeAPIError ("API error " +:+ str_int status +:+ ": " +:+ error_content))
  | e => Py (YouTubeAPIError ("Unexpected error: " +:+ Exc_str e))
  end.

(** What the two [except] clauses do with an exception of the [try]
    block. The first one decodes the body of the [HttpError] before it looks
    at the status: on a body that is there and is not well-formed UTF-8 the
    decoding raises, inside the clause, and that exception is what leaves
    [_make_request]. *)
Definition handle (e : Exc) : Exc :=
  match e with
  | HttpError status content =>
      if str_truthy content && negb (utf8_valid content) then Py decode_error
      else classify e
  | _ => classify e
  end.

(** An answer of the upstream that is an [HttpError] with a body that the
    [except] clause cannot decode. *)
Definition undecodable (answer : Upstream) : Prop :=
  ∃ status content, answer = UpHttpError status content ∧
    str_truthy content = true ∧ utf8_valid content = false.

(** [if cache_key and settings.enable_caching] *)
Definition caching (cache_key : option string) : option string :=
  match cache_key with
  | Some k => if str_truthy k && enable_caching settings then Some k else None
  | None => None
  end.

(** [_make_request] from the quota check on: what runs when the cache
    gave no hit. *)
Definition after_cache (request_func : Request) (operation : string)
    (cache_key : option string) : M PyVal :=
  _ ← _check_quota operation;
  _ ← rate_limiter_acquire 1;
  try_except
    (result ← execute_request request_func;
     _ ← _update_quota operation;
     _ ← match caching cache_key with
         | Some k => cache_set k result (Some (cache_ttl_seconds settings))
         | None => mret false
         end;
     mret result)
    (λ e, raise (handle e)).

Definition _make_request (request_func : Request) (operation : string)
    (cache_key : option string) : M PyVal :=
  _ ← modify (λ w, mkWorld (clock w) (oversleeps w) (self w) (issued w)
                     (pipeline_log w ++ [(request_func, operation, cache_key)]));
  match caching cache_key with
  | Some k =>
      cached_result ← cache_get k;
      if truthy cached_result then mret cached_result
      else after_cache request_func operation cache_key
  | None => after_cache request_func operation cache_key
  end.

(** *** Cache keys *)

Record SearchArgs := mkSearchArgs {
  query : string;
  max_results : Z;
  order : string;
  published_after : option Z;
  published_before : option Z;
  region_code : option string;
  language : option string;
  content_type : option string
}.

Definition search_key_text (a : SearchArgs) : string :=
  query a +:+ ":" +:+ str_int (max_results a) +:+ ":" +:+ order a +:+ ":" +:+
  str_opt (str_datetime <$> published_after a) +:+ ":" +:+
  str_opt (str_datetime <$> published_before a) +:+ ":" +:+
  str_opt (region_code a) +:+ ":" +:+ str_opt (language a) +:+ ":" +:+
  str_opt (content_type a).

(** The key built on the first lines of [search_videos]. *)
Definition search_videos_cache_key (a : SearchArgs) : string :=
  "search:" +:+ str_int (py_hash (search_key_text a)).

Definition video_details_cache_key (video_ids : list string) : string :=
  "video_details:" +:+ str_int (py_hash (join "," (take 50 video_ids))).

Definition comments_cache_key (video_id : string) (max_results : Z) (order : string) : string :=
  "comments:" +:+ video_id +:+ ":" +:+ str_int max_results +:+ ":" +:+ order.

Definition captions_cache_key (video_id : string) : string :=
  "captions:" +:+ video_id.

(** *** Operations *)

Definition videos_list_request (video_ids_str : string) : Request :=
  ("videos.list",
   [("part", VStr "id,snippet,statistics,contentDetails,status");
    ("id", VStr video_ids_str)]).

Definition get_video_details (video_ids : list string) : M PyVal :=
  if bool_decide (video_ids = []) then mret empty_items
  else
    let video_ids_str := join "," (take 50 video_ids) in
    _make_request (videos_list_request video_ids_str) "videos"
      (Some (video_details_cache_key video_ids)).

Definition comment_threads_request (video_id : string) (max_results : Z) (order : string)
  : Request :=
  ("commentThreads.list",
   [("part", VStr "id,snippet,replies"); ("videoId", VStr video_id);
    ("maxResults", VInt (Z.min max_results 100)); ("order", VStr order);
    ("textFormat", VStr "plainText")]).

Definition get_video_comments (video_id : string) (max_results : Z) (order : string)
  : M PyVal :=
  try_except
    (_make_request (comment_threads_request video_id max_results order) "comments"
       (Some (comments_cache_key video_id max_results order)))
    (λ e,
       match e with
       | Py pe =>
           if is_YouTubeAPIError pe then
             if contains "disabled" (lower (exc_str pe)) ||
                contains "not found" (lower (exc_str pe))
             then mret empty_items
             else raise e
           else raise e
       | _ => raise e
       end).

Definition captions_request (video_id : string) : Request :=
  ("captions.list", [("part", VStr "id,snippet"); ("videoId", VStr video_id)]).

Definition get_video_captions (video_id : string) : M PyVal :=
  try_except
    (_make_request (captions_request video_id) "captions"
       (Some (captions_cache_key video_id)))
    (λ e,
       match e with
       | Py pe => if is_YouTubeAPIError pe then mret empty_items else raise e
       | _ => raise e
       end).

(** The body of the [for] loop of [batch_get_video_details], once per
    index of [range(0, len(video_ids), batch_size)]. *)
Fixpoint batch_loop (indices : list nat) (video_ids : list string)
    (all_videos : list PyVal) : M (list PyVal) :=
  match indices with
  | [] => mret all_videos
  | i :: rest =>
      let batch_ids := take 50 (drop i video_ids) in
      result ← get_video_details batch_ids;
      let all_videos := all_videos ++ items_of result in
      _ ← (if bool_decide (i + 50 < length video_ids)%nat
           then sleep (usec / 10) else mret tt);
      batch_loop rest video_ids all_videos
  end.

Definition batch_get_video_details (video_ids : list string) : M (list PyVal) :=
  batch_loop (py_range 0 (length video_ids) 50) video_ids [].

(** *** Vocabulary of the properties *)

(** [quota_used] as the quota check sees it at instant [now]: zero when
    the window has run out. *)
Definition effective_used (now : Z) (s : Wrapper) : Z :=
  if bool_decide (quota_reset_time s < now) then 0 else quota_used s.

(** The world after [_make_request] has been entered. *)
Definition entered (request_func : Request) (operation : string)
    (cache_key : option string) (w : World) : World :=
  mkWorld (clock w) (oversleeps w) (self w) (issued w)
    (pipeline_log w ++ [(request_func, operation, cache_key)]).

(** Whether the cache lookup of [_make_request] gives a hit in [w]. *)
Definition cache_hit (cache_key : option string) (w : World) : bool :=
  match caching cache_key with
  | Some k =>
      truthy (CacheManager.get md5_hexdigest settings k (clock w)
                (cache_manager (self w))).1
  | None => false
  end.

(** The request of the sub-call for one chunk of identifiers: a
    [videos().list] for the identifiers of the chunk, joined by commas. *)
Definition chunk_request (c : list string) : Request :=
  ("videos.list",
   [("part", VStr "id,snippet,statistics,contentDetails,status");
    ("id", VStr (join "," c))]).

(** The sub-call for one chunk: its request, the operation it is counted
    as, and its cache key. *)
Definition sub_call_of (c : list string) : Request * string * option string :=
  (chunk_request c, "videos", Some (video_details_cache_key c)).

(** Batching as the design document words it: one orchestrated call per
    chunk, in order, results concatenated, a short pause between
    chunks. *)
Fixpoint fetch_chunks (cs : list (list string)) (acc : list PyVal) : M (list PyVal) :=
  match cs with
  | [] => mret acc
  | c :: rest =>
      let '(request, operation, cache_key) := sub_call_of c in
      result ← _make_request request operation cache_key;
      _ ← (if bool_decide (rest = []) then mret tt else sleep (usec / 10));
      fetch_chunks rest (acc ++ items_of result)
  end.

(** The items of the answers that the upstream gives to [requests], asked
    one after the other, after [history]. *)
Fixpoint upstream_items (history requests : list Request) : list PyVal :=
  match requests with
  | [] => []
  | r :: rest =>
      match (execute history r).1 with
      | UpOk result => items_of result
      | _ => []
      end ++ upstream_items (history ++ [r]) rest
  end.

End client.

End YouTubeAPI.

(** ** Sample inputs *)

Module Samples.
Import YouTubeAPI.

(** Stand-ins for the library functions; the sample keys are short, so the
    digest is never asked for. *)
Definition digest (s : string) : string := "d41d8cd98f00b204e9800998ecf8427e".

(** An upstream that answers every request with one item after 0.2 s. *)
Definition upstream_ok (history : list Request) (r : Request) : Upstream * Z :=
  (UpOk (VDict [("items", VList [VStr "item"])]), 200000).

(** An upstream that refuses every request: 403 with a body. *)
Definition upstream_forbidden (history : list Request) (r : Request) : Upstream * Z :=
  (UpHttpError 403 "The request cannot be completed because of insufficient permissions", 200000).

(** An upstream that reports the API as not enabled for the credential. *)
Definition upstream_not_enabled (history : list Request) (r : Request) : Upstream * Z :=
  (UpHttpError 403
     "YouTube Data API v3 has not been used in project 1 before or it is disabled.",
   200000).

(** An upstream that fails with a body that is no UTF-8: the single byte
    255. *)
Definition upstream_garbled (history : list Request) (r : Request) : Upstream * Z :=
  (UpHttpError 500 (String "255"%char EmptyString), 200000).

(** A client built at instant 0 with the default settings, seen at [now]
    with [used] units of quota spent and the cache holding [cache]. *)
Definition client (used : Z) (cache : list (string * CacheManager.CacheEntry)) : Wrapper :=
  with_cache_manager (CacheManager.with_cache cache (CacheManager.init default_settings))
    (with_quota used day (init default_settings 0)).

Definition world (now used : Z) (cache : list (string * CacheManager.CacheEntry))
    (oversleeps : list Z) : World :=
  mkWorld now oversleeps (client used cache) [] [].

Definition some_request : Request := ("search.list", [("q", VStr "cats")]).

(** A string hash keyed by a per-process secret, in the manner of the
    interpreter's: the secret is drawn when the process starts. *)
Definition seeded_hash (secret : Z) (s : string) : Z :=
  foldl (λ x c, Z.lxor (1000003 * x) (Z.of_nat (nat_of_ascii c)) `mod` 2 ^ 64)
    secret (String.list_ascii_of_string s).

Definition cats : SearchArgs := mkSearchArgs "cats" 50 "relevance" None None None None None.

(** [str(datetime)] is not needed by the samples. *)
Definition no_datetime (t : Z) : string := "".

Definition ids (n : nat) : list string := (λ k, "video" +:+ pretty k) <$> seq 0 n.

End Samples.

(** ** [rate_limiter.py], the rest of the module *)

Module RateLimiterExt.
Import RateLimiter.

(** The dictionary returned by [get_status]. *)
Record Status := mkStatus {
minute_tokens_available : Z;
hour_tokens_available : Z;
burst_tokens_available : Z;
requests_last_minute : nat;
requests_last_hour : nat;
minute_limit : Z;
hour_limit : Z;
status_burst_limit : Z
}.

Definition get_status (current_time : Z) (rl : t) : Status :=
  let minute_ago := current_time - 60 * usec in
  let hour_ago := current_time - 3600 * usec in
  mkStatus (minute_tokens rl) (hour_tokens rl) (burst_tokens rl)
    (length (filter (λ ts, minute_ago < ts) (request_timestamps rl)))
    (length (filter (λ ts, hour_ago < ts) (request_timestamps rl)))
    (calls_per_minute (config rl)) (calls_per_hour (config rl)) (burst_limit (config rl)).

(** Several [try_acquire] calls in a row at one instant: the tokens granted
    in total, and the limiter they leave. *)
Fixpoint try_acquire_all (requests : list Z) (now : Z) (rl : t) : Z * t :=
  match requests with
  | [] => (0, rl)
  | tokens :: rest =>
      let '(ok, rl1) := try_acquire tokens now rl in
      let '(granted, rl2) := try_acquire_all rest now rl1 in
      ((if ok then tokens else 0) + granted, rl2)
  end.

(** How many of the three buckets hold less than [tokens]. *)
Definition shorts (tokens : Z) (rl : t) : nat :=
  (if bool_decide (minute_tokens rl < tokens) then 1 else 0) +
  (if bool_decide (hour_tokens rl < tokens) then 1 else 0) +
  (if bool_decide (burst_tokens rl < tokens) then 1 else 0).

(** Readings of [time.time()] in the years that a [datetime] can hold,
    none of them before 1970: seconds that a float tells apart to well
    below a millisecond. *)
Definition dated (now : Z) (rl : t) : Prop :=
  0 ≤ minute_last_refill rl ∧ 0 ≤ hour_last_refill rl ∧ 0 ≤ burst_last_refill rl ∧
  now ≤ CacheManager.datetime_max.

(** The margin by which a sleep has to overrun for a window to be seen as
    over whatever the rounding: a millisecond. *)
Definition margin : Z := usec / 1000.

(** A request that no bucket is too small for. *)
Definition fits (tokens : Z) (cfg : RateLimitConfig) : Prop :=
  tokens ≤ calls_per_minute cfg ∧ tokens ≤ calls_per_hour cfg ∧ tokens ≤ burst_limit cfg.

(** At instant [now] a further refill changes nothing: the minute and hour
    windows have nothing to add and the burst window is not over. *)
Definition settled (now : Z) (rl : t) : Prop :=
  below_capacity rl ∧
  (0 ≤ now - minute_last_refill rl < 60 * usec ∧
   Z.quot ((now - minute_last_refill rl) * calls_per_minute (config rl)) (60 * usec) ≤ 0) ∧
  (0 ≤ now - hour_last_refill rl < 3600 * usec ∧
   Z.quot ((now - hour_last_refill rl) * calls_per_hour (config rl)) (3600 * usec) ≤ 0) ∧
  now - burst_last_refill rl < 1 * usec.

End RateLimiterExt.

(** *** [AdaptiveRateLimiter] *)

Module AdaptiveRateLimiter.

(** [adaptive_delay] and [last_error_time] are in microseconds, like every
    duration and instant here. *)
Record t := mk {
base : RateLimiter.t;
error_count : Z;
success_count : Z;
adaptive_delay : Z;
last_error_time : Z
}.

Definition init (cfg : RateLimiter.RateLimitConfig) (now : Z) : t :=
  mk (RateLimiter.init cfg now) 0 0 0 0.

Definition record_success (a : t) : t :=
  mk (base a) (error_count a) (success_count a + 1)
    (if bool_decide (0 < adaptive_delay a)
     then Z.max 0 (adaptive_delay a - usec / 10) else adaptive_delay a)
    (last_error_time a).

Definition record_error (error_type : string) (now : Z) (a : t) : t :=
  mk (base a) (error_count a + 1) (success_count a)
    (if contains "quota" (lower error_type)
     then Z.min (60 * usec) (adaptive_delay a + 10 * usec)
     else if contains "rate" (lower error_type)
     then Z.min (30 * usec) (adaptive_delay a + 5 * usec)
     else Z.min (10 * usec) (adaptive_delay a + 1 * usec))
    now.

(** [acquire]: the adaptive delay is slept first (one element of
    [oversleep] is the overrun of that sleep), then the base class
    takes over. *)
Definition acquire (oversleep : list Z) (tokens now : Z) (a : t)
  : RateLimiter.status * Z * t * list Z :=
  let with_base rl := mk rl (error_count a) (success_count a) (adaptive_delay a)
                        (last_error_time a) in
  if bool_decide (0 < adaptive_delay a) then
    match oversleep with
    | [] => (RateLimiter.StillWaiting, now, a, [])
    | d :: rest =>
        let '(st, now', rl, rest') :=
          RateLimiter.acquire rest tokens (now + adaptive_delay a + d) (base a) in
        (st, now', with_base rl, rest')
    end
  else
    let '(st, now', rl, rest') := RateLimiter.acquire oversleep tokens now (base a) in
    (st, now', with_base rl, rest').

(** What the owner of the limiter reports to it. *)
Inductive feedback :=
| Success
| Error (error_type : string) (now : Z).

Definition record (f : feedback) (a : t) : t :=
  match f with
  | Success => record_success a
  | Error error_type now => record_error error_type now a
  end.

(** The ceiling that [record_error] applies for an error type. *)
Definition ceiling (error_type : string) : Z :=
  if contains "quota" (lower error_type) then 60 * usec
  else if contains "rate" (lower error_type) then 30 * usec
  else 10 * usec.

End AdaptiveRateLimiter.

(** ** [cache_manager.py], the rest of the class *)

Module CacheOps.
Import CacheManager.

(** [s.replace('*', '')] *)
Fixpoint remove_stars (s : string) : string :=
  match s with
  | EmptyString => EmptyString
  | String c r => if bool_decide (c = "*"%char) then remove_stars r
                  else String c (remove_stars r)
  end.

(** [value is None] *)
Definition is_None (v : PyVal) : bool :=
  match v with VNone => true | _ => false end.

Section ops.
Variable md5_hexdigest : string → string.
Variable settings : Settings.

(** [delete(key)] *)
Definition delete (key : string) (cm : t) : bool * t :=
  let cache_key := _generate_cache_key md5_hexdigest key in
  match dict_get cache_key (memory_cache cm) with
  | Some _ => (true, with_cache (dict_del cache_key (memory_cache cm)) cm)
  | None => (false, cm)
  end.

(** [exists(key)] at instant [now] *)
Definition exists_ (key : string) (now : Z) (cm : t) : bool * t :=
  let cache_key := _generate_cache_key md5_hexdigest key in
  match dict_get cache_key (memory_cache cm) with
  | Some entry =>
      if bool_decide (now < expires_at entry) then (true, cm)
      else (false, with_cache (dict_del cache_key (memory_cache cm)) cm)
  | None => (false, cm)
  end.

(** [get_many(keys)]: [result] is the dictionary built so far. *)
Fixpoint get_many_from (keys : list string) (now : Z) (cm : t)
    (result : list (string * PyVal)) : list (string * PyVal) * t :=
  match keys with
  | [] => (result, cm)
  | key :: rest =>
      let '(v, cm1) := get md5_hexdigest settings key now cm in
      get_many_from rest now cm1 (if is_None v then result else dict_set key v result)
  end.

Definition get_many (keys : list string) (now : Z) (cm : t) : list (string * PyVal) * t :=
  get_many_from keys now cm [].

(** [set_many(items, ttl)]: [successful] counts the sets that returned
    [True]; an exception of [set] ends the loop and escapes. *)
Fixpoint set_many_from (items : list (string * PyVal)) (ttl : option Z) (now : Z) (cm : t)
    (successful : Z) : (PyExc + Z) * t :=
  match items with
  | [] => (inr successful, cm)
  | (key, v) :: rest =>
      match set md5_hexdigest settings key v ttl now cm with
      | (inl e, cm1) => (inl e, cm1)
      | (inr ok, cm1) =>
          set_many_from rest ttl now cm1 (if ok then successful + 1 else successful)
      end
  end.

Definition set_many (items : list (string * PyVal)) (ttl : option Z) (now : Z) (cm : t)
  : (PyExc + Z) * t :=
  set_many_from items ttl now cm 0.

(** [clear_pattern(pattern)] on the memory tier. *)
Definition clear_pattern (pattern : string) (cm : t) : Z * t :=
  let cache_pattern := _generate_cache_key md5_hexdigest pattern in
  let keys_to_delete :=
    filter (λ key, String.prefix (remove_stars cache_pattern) key = true)
      (memory_cache cm).*1 in
  (Z.of_nat (length keys_to_delete),
   with_cache (dict_del_all keys_to_delete (memory_cache cm)) cm).

(** [close()]: there is no Redis client to close. *)
Definition close (cm : t) : t := with_cache [] cm.

End ops.

(** [cm'] is [cm] with some of its expired entries gone. *)
Definition reaped (now : Z) (cm cm' : t) : Prop :=
  keys_ok cm' ∧
  ∀ ck, dict_get ck (memory_cache cm') = dict_get ck (memory_cache cm) ∨
        (dict_get ck (memory_cache cm') = None ∧
         ∃ e, dict_get ck (memory_cache cm) = Some e ∧ expires_at e ≤ now).

(** Every key of the memory tier carries the namespace prefix. *)
Definition prefixed (cm : t) : Prop :=
  Forall (λ k, String.prefix "ytce:" k = true) (memory_cache cm).*1.

End CacheOps.

(** ** [youtube_api.py], more of the client *)

Module YouTubeAPIExt.
Import YouTubeAPI.

(** What [request.execute()] gives for a caption download: bytes (with
    their UTF-8 decoding, if they have one), some other value, or an
    exception. *)
Inductive CaptionData :=
| CaptionBytes (decoded : option string)
| CaptionOther (v : PyVal).

Inductive Download :=
| DlOk (data : CaptionData)
| DlRaise (msg : string).

(** [caption.get('snippet', {}).get('language', '')], read as the string
    that [startswith] is then called on; [None] when one of the three steps
    raises (a caption or snippet that is no dictionary, a language that is
    no string). *)
Definition caption_language (caption : PyVal) : option string :=
  match caption with
  | VDict d =>
      match default (VDict []) (dict_get "snippet" d) with
      | VDict sd =>
          match default (VStr "") (dict_get "language" sd) with
          | VStr language => Some language
          | _ => None
          end
      | _ => None
      end
  | _ => None
  end.

(** [not best_caption] *)
Definition not_best (best_caption : option PyVal) : bool :=
  match best_caption with
  | None => true
  | Some b => negb (truthy b)
  end.

(** The [for caption in captions] loop of [get_video_transcript]: the
    value of [best_caption] when the loop is left, or [None] when the loop
    raises. *)
Fixpoint find_best_caption (captions : list PyVal) (best_caption : option PyVal)
  : option (option PyVal) :=
  match captions with
  | [] => Some best_caption
  | caption :: rest =>
      match caption_language caption with
      | None => None
      | Some language =>
          if String.prefix "en" language then Some (Some caption)
          else find_best_caption rest (if not_best best_caption then Some caption
                                        else best_caption)
      end
  end.

Definition caption_download_request (caption_id : PyVal) : Request :=
  ("captions.download", [("id", caption_id); ("tfmt", VStr "srt")]).

Section client.
Variable md5_hexdigest : string → string.
Variable py_hash : string → Z.
Variable settings : Settings.
Variable execute : list Request → Request → Upstream * Z.
(** The download endpoint, [str()] of a value that is no string, and
    [_clean_transcript], whose regular expressions are outside this
    development. *)
Variable download : list Request → Request → Download * Z.
Variable py_str : PyVal → string.
Variable _clean_transcript : string → string.

Definition channel_details_cache_key (channel_ids : list string) : string :=
  "channel_details:" +:+ str_int (py_hash (join "," (take 50 channel_ids))).

Definition channels_list_request (channel_ids_str : string) : Request :=
  ("channels.list",
   [("part", VStr "id,snippet,statistics,contentDetails,brandingSettings,status");
    ("id", VStr channel_ids_str)]).

Definition get_channel_details (channel_ids : list string) : M PyVal :=
  if bool_decide (channel_ids = []) then mret empty_items
  else
    let channel_ids_str := join "," (take 50 channel_ids) in
    _make_request md5_hexdigest settings execute (channels_list_request channel_ids_str)
      "channels" (Some (channel_details_cache_key channel_ids)).

(** [download_caption]: the request is executed directly, and whatever
    goes wrong gives the empty string. *)
Definition download_caption (caption_id : PyVal) : M string := λ w,
  let request := caption_download_request caption_id in
  let '(answer, latency) := download (issued w) request in
  let w' := mkWorld (clock w + latency) (oversleeps w) (self w)
              (issued w ++ [request]) (pipeline_log w) in
  match answer with
  | DlOk (CaptionBytes (Some text)) => (Return text, w')
  | DlOk (CaptionBytes None) => (Return "", w')
  | DlOk (CaptionOther (VStr text)) => (Return text, w')
  | DlOk (CaptionOther v) => (Return (py_str v), w')
  | DlRaise _ => (Return "", w')
  end.

(** [get_video_transcript]; the result is an [Optional[str]]. Every
    exception inside ends in [return None]. *)
Definition get_video_transcript (video_id : string) : M (option string) :=
  try_except
  (captions_response ← get_video_captions md5_hexdigest settings execute video_id;
  match captions_response with
  | VDict d =>
      let captions := default (VList []) (dict_get "items" d) in
      if negb (truthy captions) then mret None
      else
        match captions with
        | VList l =>
            match find_best_caption l None with
            | None => mret None
            | Some best_caption =>
                match best_caption with
                | Some (VDict b) =>
                    if truthy (VDict b) then
                      match dict_get "id" b with
                      | Some caption_id =>
                          transcript_text ← download_caption caption_id;
                          mret (Some (_clean_transcript transcript_text))
                      | None => mret None
                      end
                    else mret None
                | _ => mret None
                end
            end
        | _ => mret None
        end
  | _ => mret None
  end)
  (λ e, mret None).

(** Several [_make_request] calls one after the other, whatever the
    outcome of each, with the clock moving on in between. *)
Fixpoint make_requests (calls : list (Request * string * option string * Z)) (w : World)
  : World :=
  match calls with
  | [] => w
  | (request_func, operation, cache_key, pause) :: rest =>
      let w1 := (_make_request md5_hexdigest settings execute request_func operation
                   cache_key w).2 in
      make_requests rest
        (mkWorld (clock w1 + pause) (oversleeps w1) (self w1) (issued w1) (pipeline_log w1))
  end.

End client.

End YouTubeAPIExt.

Module TranscriptSamples.
Import YouTubeAPI YouTubeAPIExt.

(** An upstream that lists a German and an English caption track. *)
Definition upstream_captions (history : list Request) (r : Request) : Upstream * Z :=
  (UpOk (VDict [("items",
                 VList [VDict [("id", VStr "cap1");
                               ("snippet", VDict [("language", VStr "de")])];
                        VDict [("id", VStr "cap2");
                               ("snippet", VDict [("language", VStr "en")])]])]),
   200000).

(** A download that fails, and one that gives UTF-8 bytes. *)
Definition download_fails (history : list Request) (r : Request) : Download * Z :=
  (DlRaise "HttpError 403", 100000).

Definition download_srt (history : list Request) (r : Request) : Download * Z :=
  (DlOk (CaptionBytes (Some "hello")), 100000).

(** Stand-ins for [str()] and [_clean_transcript]. *)
Definition no_str (v : PyVal) : string := "".

Definition as_is (text : string) : string := text.

End TranscriptSamples.

(** ** [api_key_validator.py] *)

Module APIKeyValidator.
Import YouTubeAPI.

(** The dictionary returned by [validate_api_key]. *)
Record Validation := mkValidation {
valid : bool;
error : option string;
error_code : option string;
quota_used : option Z
}.

(** [chr(cp).isspace()]: the white space of Unicode, which is what
    [str.strip()] removes. *)
Definition isspace (cp : Z) : bool :=
  bool_decide (9 ≤ cp ≤ 13) || bool_decide (28 ≤ cp ≤ 32) ||
  bool_decide (cp = 133) || bool_decide (cp = 160) || bool_decide (cp = 5760) ||
  bool_decide (8192 ≤ cp ≤ 8202) || bool_decide (cp = 8232) || bool_decide (cp = 8233) ||
  bool_decide (cp = 8239) || bool_decide (cp = 8287) || bool_decide (cp = 12288).

Definition is_space (c : string) : bool := isspace (code_point c).

(** The characters left once the leading white space is gone. *)
Fixpoint lstrip (chars : list string) : list string :=
  match chars with
  | [] => []
  | c :: r => if is_space c then lstrip r else chars
  end.

(** [s.strip()]: white space is taken off both ends. *)
Definition strip (s : string) : string :=
  join "" (reverse (lstrip (reverse (lstrip (utf8_chars s))))).

(** All of [s] is white space (or [s] is empty). *)
Definition blank (s : string) : bool := forallb is_space (utf8_chars s).

(** The test request, made with the service built for the stripped key. *)
Definition test_request (api_key : string) : Request :=
  ("search.list",
   [("developerKey", VStr (strip api_key)); ("part", VStr "id"); ("q", VStr "test");
    ("type", VStr "video"); ("maxResults", VInt 1)]).

Definition invalid (error : string) (error_code : string) : Validation :=
  mkValidation false (Some error) (Some error_code) None.

(** The verdict on an [HttpError] whose body has been decoded. *)
Definition http_verdict (status : Z) (error_content : string) : Validation :=
  if bool_decide (status = 400) then
    if contains "API_KEY_INVALID" error_content
    then invalid "Invalid API key format" "INVALID_FORMAT"
    else invalid ("Bad request: " +:+ error_content) "BAD_REQUEST"
  else if bool_decide (status = 403) then
    if contains "quotaExceeded" error_content
    then mkValidation true (Some "API key is valid but quota exceeded")
           (Some "QUOTA_EXCEEDED") None
    else if contains "keyInvalid" error_content
    then invalid "Invalid API key" "KEY_INVALID"
    else if contains "accessNotConfigured" error_content
    then invalid "YouTube API is not enabled for this key" "API_NOT_ENABLED"
    else invalid ("Access forbidden: " +:+ error_content) "ACCESS_FORBIDDEN"
  else invalid ("API error " +:+ str_int status +:+ ": " +:+ error_content)
         ("HTTP_" +:+ str_int status).

(** The two [except] clauses: the verdict for an exception of the [try]
    block, or the exception that leaves the function. The body of an
    [HttpError] is decoded inside the first clause, where nothing catches a
    failure to decode. *)
Definition on_exception (e : Exc) : PyExc + Validation :=
  match e with
  | HttpError status content =>
      if str_truthy content && negb (utf8_valid content) then inl decode_error
      else inr (http_verdict status
                  (if str_truthy content then content else "No error content"))
  | e => inr (invalid ("Validation failed: " +:+ Exc_str e) "VALIDATION_ERROR")
  end.

(** [validate_api_key]: the verdict, or the exception that escaped, and
    the requests executed upstream. [build_service key] is what
    [build("youtube", "v3", developerKey=key)] does: [None] when it returns
    the service, or the exception it raises; [execute] is what the upstream
    would answer. *)
Definition validate_api_key (build_service : string → option Exc)
    (execute : list Request → Request → Upstream * Z)
    (api_key : string) : (PyExc + Validation) * list Request :=
  if negb (str_truthy api_key) || negb (str_truthy (strip api_key))
  then (inr (invalid "API key is empty" "EMPTY_KEY"), [])
  else
    match build_service (strip api_key) with
    | Some e => (on_exception e, [])
    | None =>
        let request := test_request api_key in
        (match (execute [] request).1 with
         | UpOk _ => inr (mkValidation true None None (Some 100))
         | UpHttpError status content => on_exception (HttpError status content)
         | UpException msg => on_exception (OtherException msg)
         end,
         [request])
    end.

End APIKeyValidator.

Module ValidatorSamples.

(** A [build] that returns the service, and one that fails. *)
Definition builds (key : string) : option YouTubeAPI.Exc := None.

Definition build_fails (key : string) : option YouTubeAPI.Exc :=
  Some (YouTubeAPI.OtherException "name: youtube  version: v3").

(** A no-break space (U+00A0) followed by an em space (U+2003). *)
Definition nbsp_emspace : string :=
  String "194" (String "160" (String "226" (String "128" (String "131" EmptyString)))).

End ValidatorSamples.

(** ** [search_videos] *)

Module Search.
Import YouTubeAPI.

(** Exceptions raised by the code of [search_videos] itself go to the
    caller as they are; [OtherException] carries the name of their class. *)
Definition KeyError : Exc := OtherException "KeyError".
Definition TypeError : Exc := OtherException "TypeError".
Definition AttributeError : Exc := OtherException "AttributeError".

(** ['key' in v]; [None] when the value is not a container. *)
Definition py_in (key : string) (v : PyVal) : option bool :=
  match v with
  | VDict d => Some (bool_decide (key ∈ d.*1))
  | VList l => Some (existsb (λ x, match x with
                                   | VStr s => bool_decide (s = key)
                                   | _ => false
                                   end) l)
  | VStr s => Some (contains key s)
  | _ => None
  end.

(** [v['key']] *)
Definition py_getitem (key : string) (v : PyVal) : Exc + PyVal :=
  match v with
  | VDict d => match dict_get key d with
               | Some x => inr x
               | None => inl KeyError
               end
  | _ => inl TypeError
  end.

(** The elements that [list.extend(v)] appends. *)
Definition py_iter (v : PyVal) : option (list PyVal) :=
  match v with
  | VList l => Some l
  | VDict d => Some (VStr <$> d.*1)
  | VStr s => Some (VStr <$> utf8_chars s)
  | _ => None
  end.

Definition lift {A} (r : Exc + A) : M A :=
  match r with
  | inl e => raise e
  | inr a => mret a
  end.

Section client.
Variable md5_hexdigest : string → string.
Variable py_hash : string → Z.
Variable str_datetime : Z → string.
(** [datetime.isoformat()] *)
Variable isoformat : Z → string.
Variable settings : Settings.
Variable execute : list Request → Request → Upstream * Z.
(** The check that the client library makes when a request object is
    built ([self.youtube.search().list] with [search_params]): it holds the
    arguments against the description of the API and raises [TypeError] for
    an argument the method does not have, or a value that an argument may
    not take ([order] has six allowed values). *)
Variable accepts : Request → bool.

Definition build (request : Request) : M Request :=
  if accepts request then mret request else raise TypeError.

(** The [search_params] dictionary as it is when the first request is
    built. *)
Definition search_params (a : SearchArgs) : list (string * PyVal) :=
  let p := [("part", VStr "id,snippet"); ("q", VStr (query a)); ("type", VStr "video");
            ("maxResults", VInt (Z.min (max_results a) 50)); ("order", VStr (order a));
            ("safeSearch", VStr "moderate")] in
  let p := match published_after a with
           | Some t => dict_set "publishedAfter" (VStr (isoformat t +:+ "Z")) p
           | None => p
           end in
  let p := match published_before a with
           | Some t => dict_set "publishedBefore" (VStr (isoformat t +:+ "Z")) p
           | None => p
           end in
  let p := match region_code a with
           | Some r => if str_truthy r then dict_set "regionCode" (VStr r) p else p
           | None => p
           end in
  let p := match language a with
           | Some l => if str_truthy l then dict_set "relevanceLanguage" (VStr l) p else p
           | None => p
           end in
  match content_type a with
  | Some c => if bool_decide (c = "live") then dict_set "eventType" (VStr "live") p
              else if bool_decide (c = "upcoming")
              then dict_set "eventType" (VStr "upcoming") p
              else p
  | None => p
  end.

Definition search_request (params : list (string * PyVal)) : Request :=
  ("search.list", params).

(** The object that [_make_request] returned for the first page is the
    object held by the cache entry of the search key, so what is appended to
    its item list shows in the cache: the entry, if there is one, gets the
    new value. *)
Definition alias_write (cache_key : string) (v : PyVal) : M unit :=
  match caching settings (Some cache_key) with
  | Some k =>
      modify (λ w,
        let cm := cache_manager (self w) in
        let ck := CacheManager._generate_cache_key md5_hexdigest k in
        match dict_get ck (CacheManager.memory_cache cm) with
        | Some entry =>
            with_self
              (with_cache_manager
                 (CacheManager.with_cache
                    (dict_set ck (CacheManager.mkEntry v (CacheManager.expires_at entry))
                       (CacheManager.memory_cache cm)) cm)
                 (self w)) w
        | None => w
        end)
  | None => mret tt
  end.

(** The [while next_page_token and remaining_results > 0] loop, at most
    [fuel] turns of it. [result] is the first page with the items gathered so
    far. *)
Fixpoint search_pages (fuel : nat) (cache_key : string) (params : list (string * PyVal))
    (result : list (string * PyVal)) (all_items : list PyVal)
    (next_page_token : PyVal) (remaining_results : Z) : M PyVal :=
  if truthy next_page_token && bool_decide (0 < remaining_results) then
    match fuel with
    | O => λ w, (Pending, w)
    | S fuel =>
        let params := dict_set "pageToken" next_page_token params in
        let params := dict_set "maxResults" (VInt (Z.min remaining_results 50)) params in
        request ← build (search_request params);
        page_result ← _make_request md5_hexdigest settings execute request "search" None;
        page_items ← lift (py_getitem "items" page_result);
        match py_iter page_items with
        | None => raise TypeError
        | Some more =>
            let all_items := all_items ++ more in
            _ ← alias_write cache_key (VDict (dict_set "items" (VList all_items) result));
            let next_page_token :=
              match page_result with
              | VDict d => default VNone (dict_get "nextPageToken" d)
              | _ => VNone
              end in
            search_pages fuel cache_key params result all_items next_page_token
              (remaining_results - Z.of_nat (length more))
        end
    end
  else mret (VDict (dict_set "items" (VList all_items) result)).

Definition search_videos (fuel : nat) (a : SearchArgs) : M PyVal :=
  let cache_key := search_videos_cache_key py_hash str_datetime a in
  let params := search_params a in
  request ← build (search_request params);
  result ← _make_request md5_hexdigest settings execute request "search" (Some cache_key);
  if bool_decide (50 < max_results a) then
    match py_in "nextPageToken" result with
    | None => raise TypeError
    | Some false => mret result
    | Some true =>
        all_items ← lift (py_getitem "items" result);
        next_page_token ← lift (py_getitem "nextPageToken" result);
        match result, all_items with
        | VDict d, VList l =>
            search_pages fuel cache_key params d l next_page_token (max_results a - 50)
        | VDict d, _ =>
            (* the item list is no list: once the loop is entered and the
               page is fetched, [all_items.extend] is not there *)
            if truthy next_page_token then
              request ← build (search_request
                                 (dict_set "maxResults" (VInt (Z.min (max_results a - 50) 50))
                                    (dict_set "pageToken" next_page_token params)));
              _ ← _make_request md5_hexdigest settings execute request "search" None;
              raise AttributeError
            else mret result
        | _, _ => raise TypeError
        end
    end
  else mret result.

(** A request for a further page: accepted by the library, a
    [search().list] that names the page and asks for at most fifty
    results. *)
Definition page_ok (request : Request) : Prop :=
  accepts request = true ∧ request.1 = "search.list" ∧
  (∃ token, dict_get "pageToken" request.2 = Some token ∧ truthy token = true) ∧
  ∃ m, dict_get "maxResults" request.2 = Some (VInt m) ∧ m ≤ 50.

(** The memory cache holds [v] under the key of a search. *)
Definition cached_as (cache_key : string) (v : PyVal) (w : World) : Prop :=
  ∃ e, dict_get (CacheManager._generate_cache_key md5_hexdigest cache_key)
         (CacheManager.memory_cache (cache_manager (self w))) = Some e ∧
       CacheManager.value e = v.

End client.

End Search.

Module SearchSamples.
Import YouTubeAPI.

(** An upstream whose every page holds one item and names a next page. *)
Definition upstream_paged (history : list Request) (r : Request) : Upstream * Z :=
  (UpOk (VDict [("items", VList [VStr "item"]); ("nextPageToken", VStr "next")]), 200000).

Definition wide_search : SearchArgs :=
  mkSearchArgs "cats" 52 "relevance" None None None None None.

(** A search in an order that the API does not have. *)
Definition newest : SearchArgs :=
  mkSearchArgs "cats" 50 "newest" None None None None None.

(** A library check that knows the six values of [order]. *)
Definition checks_order (request : Request) : bool :=
  match dict_get "order" request.2 with
  | Some (VStr o) =>
      bool_decide (o ∈ ["date"; "rating"; "relevance"; "title"; "videoCount"; "viewCount"])
  | Some _ => false
  | None => true
  end.

Definition item_count (o : Outcome PyVal) : nat :=
  match o with
  | Return v => length (items_of v)
  | _ => 0
  end.

End SearchSamples.

(** * Properties *)

(** ** The rate limiter *)

Module RateLimiterFacts.
Import RateLimiter.

#[local] Arguments _refill_tokens : simpl never.
#[local] Arguments wait_time : simpl never.

Lemma usec_pos : 0 < usec.
Proof. reflexivity. Qed.

Lemma refill_window_below period cap tokens last now :
  tokens ≤ cap → (refill_window period cap tokens last now).1 ≤ cap.
Proof.
  intros Hle. unfold refill_window.
  case_bool_decide; simpl; lia.
Qed.

Lemma refill_window_range period cap tokens last now :
  0 < period → 0 ≤ cap → last ≤ now → 0 ≤ tokens ≤ cap →
  0 ≤ (refill_window period cap tokens last now).1 ≤ cap ∧
  (refill_window period cap tokens last now).2 ≤ now.
Proof.
  intros Hp Hc Hl Ht. unfold refill_window.
  case_bool_decide; simpl; [lia|].
  assert (0 ≤ ((now - last) * cap) ÷ period) by (apply Z.quot_pos; nia).
  case_bool_decide; lia.
Qed.

Lemma refill_config now rl : config (_refill_tokens now rl) = config rl.
Proof.
  unfold _refill_tokens.
  repeat (destruct (refill_window _ _ _ _ _)). by case_bool_decide.
Qed.

Lemma refill_buckets now rl :
  minute_tokens (_refill_tokens now rl) =
    (refill_window (60 * usec) (calls_per_minute (config rl))
       (minute_tokens rl) (minute_last_refill rl) now).1 ∧
  minute_last_refill (_refill_tokens now rl) =
    (refill_window (60 * usec) (calls_per_minute (config rl))
       (minute_tokens rl) (minute_last_refill rl) now).2 ∧
  hour_tokens (_refill_tokens now rl) =
    (refill_window (3600 * usec) (calls_per_hour (config rl))
       (hour_tokens rl) (hour_last_refill rl) now).1 ∧
  hour_last_refill (_refill_tokens now rl) =
    (refill_window (3600 * usec) (calls_per_hour (config rl))
       (hour_tokens rl) (hour_last_refill rl) now).2 ∧
  (burst_tokens (_refill_tokens now rl), burst_last_refill (_refill_tokens now rl)) =
    (if bool_decide (1 * usec ≤ now - burst_last_refill rl)
     then (burst_limit (config rl), now)
     else (burst_tokens rl, burst_last_refill rl)).
Proof.
  unfold _refill_tokens.
  repeat (destruct (refill_window _ _ _ _ _)). by case_bool_decide.
Qed.

(** Refilling never lifts a bucket above its capacity. *)
Lemma refill_below_capacity now rl :
  below_capacity rl → below_capacity (_refill_tokens now rl).
Proof.
  intros (Hm & Hh & Hb). unfold below_capacity.
  rewrite refill_config.
  destruct (refill_buckets now rl) as (-> & _ & -> & _ & Hbb).
  split_and!; try by apply refill_window_below.
  replace (burst_tokens (_refill_tokens now rl))
    with ((burst_tokens (_refill_tokens now rl), burst_last_refill (_refill_tokens now rl)).1)
    by done.
  rewrite Hbb. case_bool_decide; simpl; lia.
Qed.

Lemma refill_in_range now now' rl :
  config_ok (config rl) → now ≤ now' → timely now rl → in_range rl →
  in_range (_refill_tokens now' rl) ∧ timely now' (_refill_tokens now' rl).
Proof.
  intros (Cm & Ch & Cb) Hnow (Lm & Lh & Lb) (Rm & Rh & Rb).
  unfold in_range, timely. rewrite refill_config.
  destruct (refill_buckets now' rl) as (-> & -> & -> & -> & Hbb).
  pose proof usec_pos.
  destruct (refill_window_range (60 * usec) (calls_per_minute (config rl))
              (minute_tokens rl) (minute_last_refill rl) now') as [? ?]; [lia..|].
  destruct (refill_window_range (3600 * usec) (calls_per_hour (config rl))
              (hour_tokens rl) (hour_last_refill rl) now') as [? ?]; [lia..|].
  assert (0 ≤ burst_tokens (_refill_tokens now' rl) ≤ burst_limit (config rl) ∧
          burst_last_refill (_refill_tokens now' rl) ≤ now') as [? ?].
  { revert Hbb. case_bool_decide; intros [= -> ->]; lia. }
  done.
Qed.

Lemma enough_spec tokens rl :
  enough tokens rl = true ↔
  tokens ≤ minute_tokens rl ∧ tokens ≤ hour_tokens rl ∧ tokens ≤ burst_tokens rl.
Proof.
  unfold enough. rewrite !andb_true_iff, !bool_decide_eq_true. tauto.
Qed.

Lemma enough_over_capacity tokens rl :
  below_capacity rl → over_capacity tokens (config rl) → enough tokens rl = false.
Proof.
  intros (Hm & Hh & Hb) Hover.
  apply not_true_is_false. rewrite enough_spec. unfold over_capacity in Hover. lia.
Qed.

Lemma consume_in_range tokens stamps rl :
  0 ≤ tokens → enough tokens rl = true → in_range rl →
  in_range (consume tokens stamps rl).
Proof.
  intros Ht He (Rm & Rh & Rb). apply enough_spec in He.
  unfold in_range; simpl. lia.
Qed.

Lemma wait_time_pos tokens now rl : 0 < wait_time tokens now rl.
Proof.
  unfold wait_time. pose proof usec_pos.
  assert (0 < usec / 10) by (by vm_compute). lia.
Qed.

Lemma acquire_good oversleep tokens now rl :
  0 ≤ tokens → Forall (λ d, 0 ≤ d) oversleep → good (now, rl) →
  good ((acquire oversleep tokens now rl).1.1.2, (acquire oversleep tokens now rl).1.2) ∧
  config (acquire oversleep tokens now rl).1.2 = config rl.
Proof.
  intros Ht Hds. revert now rl.
  induction Hds as [|d rest Hd Hds IH]; intros now rl (Hc & Hr & Hl); simpl;
    destruct (refill_in_range now now rl) as [Hr1 Hl1]; try done;
    pose proof (refill_config now rl) as Hcfg;
    destruct (enough tokens (_refill_tokens now rl)) eqn:He; simpl.
  - split; [|done]. unfold good; simpl; split_and!; [by rewrite Hcfg|by apply consume_in_range|done].
  - split; [|done]. unfold good; simpl; split_and!; [by rewrite Hcfg|done..].
  - split; [|done]. unfold good; simpl; split_and!; [by rewrite Hcfg|by apply consume_in_range|done].
  - pose proof (wait_time_pos tokens now (_refill_tokens now rl)).
    destruct (IH (now + wait_time tokens now (_refill_tokens now rl) + d)
                 (_refill_tokens now rl)) as [Hg Hc'].
    { unfold good; simpl; split_and!; [by rewrite Hcfg|done|].
      destruct Hl1 as (? & ? & ?). unfold timely. lia. }
    split; [done|]. by rewrite Hc', Hcfg.
Qed.

Lemma step_good c s :
  call_ok c → good s → good (step c s) ∧ config (step c s).2 = config s.2.
Proof.
  destruct s as [now rl]. destruct c as [tokens oversleep|tokens|d]; simpl.
  - intros [Ht Hds] Hg.
    pose proof (acquire_good oversleep tokens now rl Ht Hds Hg) as H.
    by destruct (acquire oversleep tokens now rl) as [[[st now'] rl'] rest].
  - intros Ht (Hc & Hr & Hl). simpl in *.
    destruct (refill_in_range now now rl) as [Hr1 Hl1]; try done.
    pose proof (refill_config now rl) as Hcfg.
    unfold try_acquire.
    destruct (enough tokens (_refill_tokens now rl)) eqn:He; simpl.
    + split; [|done]. unfold good; simpl; split_and!; [by rewrite Hcfg|by apply consume_in_range|done].
    + split; [|done]. unfold good; simpl; split_and!; [by rewrite Hcfg|done..].
  - intros Hd (Hc & Hr & (? & ? & ?)). simpl in *. split; [|done].
    unfold good; simpl; split_and!; [done..|]. unfold timely; simpl. lia.
Qed.

Lemma run_good cs s :
  Forall call_ok cs → good s → good (run cs s) ∧ config (run cs s).2 = config s.2.
Proof.
  intros Hcs. revert s. induction Hcs as [|c cs Hc Hcs IH]; intros s Hg; [done|].
  simpl. destruct (step_good c s Hc Hg) as [Hg' Hc'].
  destruct (IH _ Hg') as [? ?]. split; [done|congruence].
Qed.

Lemma init_good cfg t0 : config_ok cfg → good (t0, init cfg t0).
Proof.
  intros (? & ? & ?). unfold good; simpl; split_and!; unfold in_range, timely; simpl; try done; lia.
Qed.

Lemma refills_only_trans a b c :
  refills_only a b → refills_only b c → refills_only a c.
Proof. intros Hab Hbc. induction Hbc; [done|by constructor]. Qed.

Lemma refills_only_below rl rl' :
  refills_only rl rl' → below_capacity rl → below_capacity rl'.
Proof. induction 1; [done|]. intros. by apply refill_below_capacity, IHrefills_only. Qed.

Lemma refills_only_config rl rl' : refills_only rl rl' → config rl' = config rl.
Proof. induction 1; [done|]. by rewrite refill_config. Qed.

(** [try_acquire] deducts from all three buckets or from none. *)
Lemma try_acquire_all_or_nothing tokens now rl :
  let rl1 := _refill_tokens now rl in
  let r := try_acquire tokens now rl in
  (r.1 = true ∧ enough tokens rl1 = true ∧ deducted tokens rl1 r.2) ∨
  (r.1 = false ∧ enough tokens rl1 = false ∧ r.2 = rl1).
Proof.
  simpl. unfold try_acquire.
  destruct (enough tokens (_refill_tokens now rl)) eqn:He; [left|right]; done.
Qed.

(** [acquire] leaves the loop only through an admission that found all
    three buckets sufficient; as long as it waits, nothing is deducted. *)
Lemma acquire_all_or_nothing oversleep tokens now rl :
  let r := acquire oversleep tokens now rl in
  match r.1.1.1 with
  | Acquired =>
      ∃ rl0, refills_only rl rl0 ∧ enough tokens rl0 = true ∧ deducted tokens rl0 r.1.2
  | StillWaiting => refills_only rl r.1.2 ∧ enough tokens r.1.2 = false ∧ r.2 = []
  end.
Proof.
  simpl. revert now rl.
  induction oversleep as [|d rest IH]; intros now rl; simpl;
    destruct (enough tokens (_refill_tokens now rl)) eqn:He; simpl.
  - exists (_refill_tokens now rl). split_and!; [repeat constructor|done..].
  - split_and!; [repeat constructor|done..].
  - exists (_refill_tokens now rl). split_and!; [repeat constructor|done..].
  - specialize (IH (now + wait_time tokens now (_refill_tokens now rl) + d)
                   (_refill_tokens now rl)).
    destruct (acquire rest tokens _ (_refill_tokens now rl)) as [[[st now'] rl'] rest'].
    simpl in *. destruct st.
    + destruct IH as (rl0 & Hro & Hen & Hded). exists rl0.
      split; [|done]. eapply refills_only_trans; [|done]. repeat constructor.
    + destruct IH as (Hro & Hen & Hrest). split; [|done].
      eapply refills_only_trans; [|done]. repeat constructor.
Qed.




Lemma over_capacity_still_waiting oversleep tokens now rl :
  below_capacity rl → over_capacity tokens (config rl) →
  let r := acquire oversleep tokens now rl in
  r.1.1.1 = StillWaiting ∧ refills_only rl r.1.2 ∧
  try_acquire tokens now rl = (false, _refill_tokens now rl).
Proof.
  intros Hb Hover. simpl.
  pose proof (acquire_all_or_nothing oversleep tokens now rl) as H. simpl in H.
  split_and!.
  - destruct (acquire oversleep tokens now rl) as [[[st now'] rl'] rest]; simpl in *.
    destruct st; [|done]. destruct H as (rl0 & Hro & Hen & _).
    rewrite enough_over_capacity in Hen; [done| |].
    + by eapply refills_only_below.
    + by rewrite (refills_only_config rl rl0).
  - destruct (acquire oversleep tokens now rl) as [[[st now'] rl'] rest]; simpl in *.
    destruct st; [|by destruct H]. destruct H as (rl0 & Hro & Hen & _).
    rewrite enough_over_capacity in Hen; [done| |].
    + by eapply refills_only_below.
    + by rewrite (refills_only_config rl rl0).
  - unfold try_acquire. rewrite enough_over_capacity; [done| |].
    + by apply refill_below_capacity.
    + by rewrite refill_config.
Qed.

(** C5, as the code has it. A request for more tokens than some bucket's
    capacity never succeeds and never deducts anything, but it is not
    turned down either: however long it is observed, [acquire] is still
    waiting inside its loop; only [try_acquire] answers, with [False]. *)
Theorem acquire_over_capacity_waits_forever oversleep tokens now rl :
  below_capacity rl → over_capacity tokens (config rl) →
  let r := acquire oversleep tokens now rl in
  r.1.1.1 = StillWaiting ∧ refills_only rl r.1.2 ∧
  try_acquire tokens now rl = (false, _refill_tokens now rl).
Proof. apply over_capacity_still_waiting. Qed.

Lemma init_below_capacity cfg t0 : below_capacity (init cfg t0).
Proof. unfold below_capacity; simpl. lia. Qed.

Lemma acquire_over_capacity_waits_forever_witness :
  (acquire [0; 0; 0] 11 0 (init default_config 0)).1.1.1 = StillWaiting.
Proof.
  apply (acquire_over_capacity_waits_forever [0; 0; 0] 11 0 (init default_config 0)).
  - apply init_below_capacity.
  - unfold over_capacity; simpl. lia.
Defined.

(** C5, as stated, fails: on a fresh limiter with the default
    configuration (burst capacity 10) a request for 11 tokens is never
    answered, whatever the sleeps. *)
Lemma acquire_over_capacity_not_rejected :
  ¬ ∃ oversleep,
      (acquire oversleep 11 0 (init default_config 0)).1.1.1 ≠ StillWaiting.
Proof.
  intros [oversleep Hne]. apply Hne.
  apply (over_capacity_still_waiting oversleep 11 0 (init default_config 0)).
  - apply init_below_capacity.
  - unfold over_capacity; simpl. lia.
Qed.

End RateLimiterFacts.

(** ** Dictionaries *)

Module DictFacts.
Section facts.
Context {V : Type}.
Implicit Types (d : list (string * V)) (k : string) (v : V).

Lemma keys_filter_NoDup (P : string * V → Prop) `{!∀ x, Decision (P x)} d :
  NoDup d.*1 → NoDup (filter P d).*1.
Proof.
  intros Hd. eapply sublist_NoDup; [exact Hd|].
  apply fmap_sublist, sublist_filter.
Qed.

Lemma keys_unique d x y : NoDup d.*1 → x ∈ d → y ∈ d → x.1 = y.1 → x = y.
Proof.
  induction d as [|[k v] d IH]; intros Hd Hx Hy Hk; [by apply elem_of_nil in Hx|].
  apply NoDup_cons in Hd as [Hk' Hd]. csimpl in *.
  apply elem_of_cons in Hx as [->|Hx]; apply elem_of_cons in Hy as [->|Hy]; try done.
  - destruct Hk'. simpl in Hk. rewrite Hk. by apply list_elem_of_fmap_2.
  - destruct Hk'. simpl in Hk. rewrite <-Hk. by apply list_elem_of_fmap_2.
  - by apply IH.
Qed.

Lemma dict_del_filter k d :
  NoDup d.*1 → dict_del k d = filter (λ kv, kv.1 ≠ k) d.
Proof.
  induction d as [|[k' v'] d IH]; intros Hd; [done|].
  apply NoDup_cons in Hd as [Hk' Hd]. simpl. destruct (decide (k = k')) as [->|Hne].
  - rewrite filter_cons_False by (simpl; tauto).
    symmetry. clear IH. induction d as [|[k v] d IH]; [done|].
    csimpl in *. apply not_elem_of_cons in Hk' as [? ?].
    apply NoDup_cons in Hd as [? ?].
    rewrite filter_cons_True by (simpl; congruence). f_equal. by apply IH.
  - rewrite filter_cons_True by (simpl; congruence). f_equal. by apply IH.
Qed.

Lemma dict_del_all_filter ks d :
  NoDup d.*1 → dict_del_all ks d = filter (λ kv, kv.1 ∉ ks) d.
Proof.
  revert d. induction ks as [|k ks IH]; intros d Hd; unfold dict_del_all in *; simpl.
  - symmetry. clear Hd. induction d as [|x d IHd]; [done|].
    rewrite filter_cons_True by apply not_elem_of_nil. by f_equal.
  - rewrite dict_del_filter by done.
    rewrite IH by by apply keys_filter_NoDup.
    rewrite list_filter_filter. apply list_filter_iff.
    intros x. rewrite not_elem_of_cons. tauto.
Qed.

Lemma dict_set_length k v d : (length (dict_set k v d) ≤ S (length d))%nat.
Proof.
  induction d as [|[k' v'] d IH]; simpl; [lia|].
  destruct (decide (k = k')); simpl; lia.
Qed.

Lemma dict_set_keys k v d :
  (dict_set k v d).*1 = if decide (k ∈ d.*1) then d.*1 else d.*1 ++ [k].
Proof.
  induction d as [|[k' v'] d IH].
  - destruct (decide (k ∈ ([] : list (string * V)).*1)) as [H|H]; [|done].
    by apply elem_of_nil in H.
  - simpl. destruct (decide (k = k')) as [->|Hne].
    + rewrite decide_True; [done|]. csimpl. left.
    + change (((k', v') :: dict_set k v d).*1) with (k' :: (dict_set k v d).*1).
      rewrite IH. change (((k', v') :: d).*1) with (k' :: d.*1).
      destruct (decide (k ∈ d.*1)).
      * by rewrite decide_True by by right.
      * rewrite decide_False; [done|]. rewrite not_elem_of_cons. tauto.
Qed.

Lemma dict_set_NoDup k v d : NoDup d.*1 → NoDup (dict_set k v d).*1.
Proof.
  intros Hd. rewrite dict_set_keys. destruct (decide (k ∈ d.*1)); [done|].
  apply NoDup_app. split_and!; [done| |apply NoDup_singleton].
  intros x Hx ->%list_elem_of_singleton. done.
Qed.

Lemma dict_get_set k v d : dict_get k (dict_set k v d) = Some v.
Proof.
  induction d as [|[k' v'] d IH]; simpl.
  - by rewrite decide_True.
  - destruct (decide (k = k')) as [->|Hne]; simpl.
    + by rewrite decide_True.
    + by rewrite decide_False.
Qed.

Lemma dict_get_elem_of k v d : dict_get k d = Some v → (k, v) ∈ d.
Proof.
  induction d as [|[k' v'] d IH]; simpl; [done|].
  destruct (decide (k = k')) as [->|Hne].
  - intros [= ->]. left.
  - intros. right. by apply IH.
Qed.
End facts.
End DictFacts.

(** ** The in-memory cache tier *)

Module CacheFacts.
Import CacheManager DictFacts.

Lemma filter_ext_in {A} (P Q : A → Prop) `{!∀ x, Decision (P x), !∀ x, Decision (Q x)}
    (l : list A) :
  (∀ x, x ∈ l → P x ↔ Q x) → filter P l = filter Q l.
Proof.
  induction l as [|a l IH]; intros Hext; [done|].
  rewrite !filter_cons.
  assert (P a ↔ Q a) by (apply Hext; left).
  rewrite IH by (intros; apply Hext; by right).
  destruct (decide (P a)), (decide (Q a)); tauto.
Qed.

Lemma filter_all {A} (P : A → Prop) `{!∀ x, Decision (P x)} (l : list A) :
  (∀ x, x ∈ l → P x) → filter P l = l.
Proof.
  induction l as [|a l IH]; intros Hall; [done|].
  rewrite filter_cons_True by (apply Hall; left).
  f_equal. apply IH. intros; apply Hall; by right.
Qed.

Lemma filter_none {A} (P : A → Prop) `{!∀ x, Decision (P x)} (l : list A) :
  (∀ x, x ∈ l → ¬ P x) → filter P l = [].
Proof.
  induction l as [|a l IH]; intros Hall; [done|].
  rewrite filter_cons_False by (apply Hall; left).
  apply IH. intros; apply Hall; by right.
Qed.

Lemma insert_by_expiry_perm x l : insert_by_expiry x l ≡ₚ x :: l.
Proof.
  induction l as [|y l IH]; simpl; [done|].
  case_bool_decide; [done|]. rewrite IH. apply Permutation_swap.
Qed.

Lemma sorted_by_expiry_perm l : sorted_by_expiry l ≡ₚ l.
Proof.
  induction l as [|x l IH]; simpl; [done|].
  fold (sorted_by_expiry l). by rewrite insert_by_expiry_perm, IH.
Qed.

Lemma insert_by_expiry_sorted x l :
  StronglySorted expiry_le l → StronglySorted expiry_le (insert_by_expiry x l).
Proof.
  induction 1 as [|y l Hs IH Hall]; simpl; [repeat constructor|].
  case_bool_decide as Hle.
  - constructor; [by constructor|]. constructor; [done|].
    eapply Forall_impl; [exact Hall|]. unfold expiry_le in *. intros; simpl in *; lia.
  - constructor; [done|].
    rewrite insert_by_expiry_perm. constructor; [|done].
    unfold expiry_le. lia.
Qed.

Lemma sorted_by_expiry_sorted l : StronglySorted expiry_le (sorted_by_expiry l).
Proof.
  induction l as [|x l IH]; simpl; [constructor|].
  by apply insert_by_expiry_sorted.
Qed.

(** The first phase of the cleanup keeps exactly the live entries. *)
Lemma expired_removed now c :
  NoDup c.*1 → dict_del_all (expired_keys now c) c = live now c.
Proof.
  intros Hc. rewrite dict_del_all_filter by done. unfold live, expired_keys.
  apply filter_ext_in. intros x Hx. split.
  - intros Hnot. destruct (decide (now < expires_at x.2)) as [|Hge]; [done|].
    destruct Hnot. apply list_elem_of_fmap_2, list_elem_of_filter. split; [lia|done].
  - intros Hlt [y [Hk [Hy Hyc]%list_elem_of_filter]]%list_elem_of_fmap.
    assert (x = y) as -> by by eapply keys_unique. lia.
Qed.

(** Deleting the keys of the first [k] sorted items leaves the others. *)
Lemma evicted_perm k (c s : list (string * CacheEntry)) :
  NoDup c.*1 → s ≡ₚ c →
  dict_del_all (take k s).*1 c ≡ₚ drop k s.
Proof.
  intros Hc Hs. rewrite dict_del_all_filter by done.
  assert (NoDup s.*1) as Hsn by by rewrite Hs.
  rewrite <-(take_drop k s), fmap_app in Hsn.
  apply NoDup_app in Hsn as (_ & Hdisj & _).
  set (P := λ kv : string * CacheEntry, kv.1 ∉ (take k s).*1).
  trans (filter P (take k s ++ drop k s)).
  { by rewrite take_drop, Hs. }
  rewrite filter_app, filter_none, filter_all; [done| |]; unfold P.
  - intros x Hx Hin. eapply Hdisj; [exact Hin|]. by apply list_elem_of_fmap_2.
  - intros x Hx Hnot. apply Hnot. by apply list_elem_of_fmap_2.
Qed.

Lemma cleanup_max now cm :
  memory_cache_max_size (_cleanup_memory_cache now cm).2 = memory_cache_max_size cm.
Proof. unfold _cleanup_memory_cache. by repeat case_bool_decide. Qed.

Lemma cleanup_keys_ok now cm : keys_ok cm → keys_ok (_cleanup_memory_cache now cm).2.
Proof.
  unfold keys_ok, _cleanup_memory_cache. intros Hc.
  rewrite expired_removed by done.
  assert (NoDup (live now (memory_cache cm)).*1) by by apply keys_filter_NoDup.
  repeat case_bool_decide; simpl; try done;
    (rewrite dict_del_all_filter by done; by apply keys_filter_NoDup).
Qed.

(** After the cleanup there is room for one more entry, unless the
    configured maximum is so small that the eviction loop ran off the end
    of the sorted items; the cache is then empty. *)
Lemma cleanup_size now cm :
  keys_ok cm →
  match (_cleanup_memory_cache now cm).1 with
  | None => size (_cleanup_memory_cache now cm).2 < memory_cache_max_size cm
  | Some _ => size (_cleanup_memory_cache now cm).2 = 0 ∧ memory_cache_max_size cm < 1
  end.
Proof.
  unfold keys_ok, _cleanup_memory_cache, size. intros Hc.
  rewrite expired_removed by done.
  assert (NoDup (live now (memory_cache cm)).*1) as Hl by by apply keys_filter_NoDup.
  set (c1 := live now (memory_cache cm)) in *.
  pose proof (sorted_by_expiry_perm c1) as Hperm.
  assert (length (sorted_by_expiry c1) = length c1) as Hlen by by rewrite Hperm.
  case_bool_decide as Hfull; simpl; [|lia].
  rewrite Hlen.
  case_bool_decide as Hover; simpl;
    rewrite (evicted_perm _ c1 (sorted_by_expiry c1)), length_drop by done; lia.
Qed.

(** Whatever the cleanup removes expires no later than anything it keeps. *)
Lemma cleanup_removes_soonest now cm x y :
  keys_ok cm →
  x ∈ memory_cache cm →
  x ∉ memory_cache (_cleanup_memory_cache now cm).2 →
  y ∈ memory_cache (_cleanup_memory_cache now cm).2 →
  expiry_le x y.
Proof.
  unfold keys_ok, _cleanup_memory_cache. intros Hc Hx.
  rewrite expired_removed by done.
  assert (NoDup (live now (memory_cache cm)).*1) as Hl by by apply keys_filter_NoDup.
  set (c1 := live now (memory_cache cm)) in *.
  pose proof (sorted_by_expiry_perm c1) as Hperm.
  pose proof (sorted_by_expiry_sorted c1) as Hsorted.
  assert (∀ z, z ∈ c1 ↔ now < expires_at z.2 ∧ z ∈ memory_cache cm) as Hlive
    by (intros z; unfold c1, live; by rewrite list_elem_of_filter).
  set (k := Z.to_nat (Z.of_nat (length (sorted_by_expiry c1)) - memory_cache_max_size cm + 1)).
  assert (∀ z, z ∈ dict_del_all (take k (sorted_by_expiry c1)).*1 c1 ↔
               z ∈ drop k (sorted_by_expiry c1)) as Hkept.
  { intros z. by rewrite (evicted_perm _ c1 (sorted_by_expiry c1)). }
  assert (x ∉ drop k (sorted_by_expiry c1) → y ∈ drop k (sorted_by_expiry c1) →
          expiry_le x y) as Hevict.
  { intros Hnx Hy.
    assert (y ∈ c1) as Hyl.
    { rewrite <-Hperm. eapply elem_of_sublist; [exact Hy|apply sublist_drop]. }
    destruct (decide (now < expires_at x.2)) as [Hxl|Hxe].
    - assert (x ∈ sorted_by_expiry c1) as Hxs by (rewrite Hperm; by apply Hlive).
      rewrite <-(take_drop k (sorted_by_expiry c1)) in Hxs, Hsorted.
      apply elem_of_app in Hxs as [Hxt|?]; [|done].
      by eapply StronglySorted_app_1_elem_of.
    - apply Hlive in Hyl as [? _]. unfold expiry_le. lia. }
  assert (x ∉ c1 → y ∈ c1 → expiry_le x y) as Hexp.
  { intros Hnx [? _]%Hlive. unfold expiry_le.
    destruct (decide (now < expires_at x.2)); [|lia].
    destruct Hnx. by apply Hlive. }
  repeat case_bool_decide; simpl; rewrite ?Hkept; auto.
Qed.

Section sets.
Variable md5_hexdigest : string → string.
Variable settings : Settings.

Lemma set_preserves key v ttl now cm :
  keys_ok cm → 0 ≤ memory_cache_max_size cm → size cm ≤ memory_cache_max_size cm →
  let cm' := (set md5_hexdigest settings key v ttl now cm).2 in
  keys_ok cm' ∧ memory_cache_max_size cm' = memory_cache_max_size cm ∧
  size cm' ≤ memory_cache_max_size cm.
Proof.
  intros Hk Hmax Hsize. unfold set.
  destruct (enable_caching settings); simpl; [|done].
  pose proof (cleanup_size now cm Hk) as Hs.
  pose proof (cleanup_keys_ok now cm Hk) as Hk'.
  pose proof (cleanup_max now cm) as Hm.
  destruct (_cleanup_memory_cache now cm) as [[e|] cm1]; simpl in *.
  - split_and!; [done..|lia].
  - destruct (expiry now (ttl_or_default ttl cm)) as [expires|]; simpl.
    + split_and!; [by apply dict_set_NoDup|done|].
      unfold size in *; simpl.
      pose proof (dict_set_length (_generate_cache_key md5_hexdigest key)
        (mkEntry v expires) (memory_cache cm1)). lia.
    + split_and!; [done..|lia].
Qed.

Lemma set_many_preserves ops cm :
  keys_ok cm → 0 ≤ memory_cache_max_size cm → size cm ≤ memory_cache_max_size cm →
  let cm' := set_many_at md5_hexdigest settings ops cm in
  keys_ok cm' ∧ memory_cache_max_size cm' = memory_cache_max_size cm ∧
  size cm' ≤ memory_cache_max_size cm.
Proof.
  revert cm. induction ops as [|[[[key v] ttl] now] ops IH]; intros cm Hk Hmax Hsize; [done|].
  simpl. destruct (set_preserves key v ttl now cm) as (Hk' & Hm' & Hs'); [done..|].
  destruct (IH (set md5_hexdigest settings key v ttl now cm).2) as (? & ? & ?);
    [done|lia|lia|].
  split_and!; [done|congruence|lia].
Qed.
End sets.

Lemma cleanup_raises_only_without_room now cm e :
  (_cleanup_memory_cache now cm).1 = Some e → memory_cache_max_size cm < 1.
Proof.
  unfold _cleanup_memory_cache. repeat case_bool_decide; simpl; try done. lia.
Qed.

Lemma expiry_Some now ttl :
  timedelta_ok ttl → datetime_ok (now + ttl * usec) →
  expiry now ttl = Some (now + ttl * usec).
Proof. intros Ht Hd. unfold expiry. by rewrite bool_decide_true. Qed.

Lemma expiry_Some_inv now ttl t :
  expiry now ttl = Some t →
  t = now + ttl * usec ∧ timedelta_ok ttl ∧ datetime_ok (now + ttl * usec).
Proof. unfold expiry. case_bool_decide as H; [|done]. intros [= <-]. tauto. Qed.

Lemma expiry_None now ttl :
  expiry now ttl = None ↔ ¬ (timedelta_ok ttl ∧ datetime_ok (now + ttl * usec)).
Proof. unfold expiry. case_bool_decide; split; (done || tauto). Qed.

(** With room for at least one entry and an expiry that a [datetime] can
    hold, [set] stores the value. *)
Lemma set_stores md5_hexdigest settings key v ttl now cm :
  enable_caching settings = true → 1 ≤ memory_cache_max_size cm →
  timedelta_ok (ttl_or_default ttl cm) →
  datetime_ok (now + ttl_or_default ttl cm * usec) →
  let r := set md5_hexdigest settings key v ttl now cm in
  r.1 = inr true ∧
  dict_get (_generate_cache_key md5_hexdigest key) (memory_cache r.2) =
    Some (mkEntry v (now + ttl_or_default ttl cm * usec)).
Proof.
  intros Hen Hmax Ht Hd. unfold set. rewrite Hen. simpl.
  pose proof (cleanup_raises_only_without_room now cm) as Hraise.
  destruct (_cleanup_memory_cache now cm) as [[e|] cm1]; simpl in *.
  - specialize (Hraise e eq_refl). lia.
  - rewrite expiry_Some by done. simpl. split; [done|]. apply dict_get_set.
Qed.

(** A live entry is returned as it is and the cache is left alone. *)
Lemma get_live md5_hexdigest settings key now cm entry :
  enable_caching settings = true →
  dict_get (_generate_cache_key md5_hexdigest key) (memory_cache cm) = Some entry →
  now < expires_at entry →
  get md5_hexdigest settings key now cm = (value entry, cm).
Proof.
  intros Hen Hget Hlive. unfold get. rewrite Hen, Hget. simpl.
  by rewrite bool_decide_true.
Qed.

(** C7. Starting from a cache within its bound (the empty one, say) whose
    configured maximum is not negative, after every [set] of any sequence
    the memory tier holds at most [cache_max_size] entries; and whatever
    the cleanup that precedes an insert removes expires no later than
    every entry it keeps: the soonest to expire go first. *)
Theorem memory_cache_stays_bounded md5_hexdigest settings ops cm :
  keys_ok cm → 0 ≤ memory_cache_max_size cm → size cm ≤ memory_cache_max_size cm →
  (∀ k, size (set_many_at md5_hexdigest settings (take k ops) cm)
          ≤ memory_cache_max_size cm) ∧
  (∀ now x y,
     x ∈ memory_cache cm →
     x ∉ memory_cache (_cleanup_memory_cache now cm).2 →
     y ∈ memory_cache (_cleanup_memory_cache now cm).2 →
     expires_at x.2 ≤ expires_at y.2).
Proof.
  intros Hk Hmax Hsize. split.
  - intros k. by apply set_many_preserves.
  - intros now x y. by apply cleanup_removes_soonest.
Qed.

Lemma memory_cache_stays_bounded_witness :
  let st := mkSettings 10000 3600 2 true in
  let ops := [("a", VInt 1, Some 30, 0); ("b", VInt 2, Some 10, 1); ("c", VInt 3, None, 2)] in
  size (set_many_at Samples.digest st ops (init st)) ≤ 2 ∧
  (memory_cache (set_many_at Samples.digest st ops (init st))).*1 = ["ytce:a"; "ytce:c"].
Proof.
  intros st ops.
  destruct (memory_cache_stays_bounded Samples.digest st ops (init st)) as [H _].
  - constructor.
  - vm_compute. intros [=].
  - vm_compute. intros [=].
  - split; [apply (H 3%nat)|]. vm_compute. reflexivity.
Defined.

End CacheFacts.

(** ** The quota gate and the request pipeline *)

Module PipelineFacts.
Import YouTubeAPI.

#[local] Arguments classify : simpl never.
#[local] Arguments handle : simpl never.
#[local] Arguments cost_of : simpl never.
#[local] Arguments effective_used : simpl never.
#[local] Arguments YouTubeAPI.caching : simpl never.
#[local] Arguments CacheManager.set : simpl never.
#[local] Arguments CacheManager.get : simpl never.
#[local] Arguments RateLimiter.acquire : simpl never.

Section client.
Variable md5_hexdigest : string → string.
Variable settings : Settings.
Variable execute : list Request → Request → Upstream * Z.

#[local] Abbreviation _make_request := (_make_request md5_hexdigest settings execute).
#[local] Abbreviation after_cache := (after_cache md5_hexdigest settings execute).
#[local] Abbreviation cache_hit := (cache_hit md5_hexdigest settings).
#[local] Abbreviation caching := (caching settings).

(** [_check_quota], run. *)
Lemma check_quota_run op w :
  _check_quota op w =
    let s := self w in
    let due := bool_decide (quota_reset_time s < clock w) in
    let w' := if due then with_self (with_quota 0 (clock w + day) s) w else w in
    if bool_decide (quota_limit s < effective_used (clock w) s + cost_of op s)
    then (Raise quota_error, w') else (Return true, w').
Proof.
  unfold _check_quota, effective_used, mbind, M_bind, gets, modify, mret, M_ret, raise.
  simpl. repeat case_bool_decide; simpl in *; try done; lia.
Qed.

Lemma check_quota_frame op w :
  let w' := (_check_quota op w).2 in
  clock w' = clock w ∧ oversleeps w' = oversleeps w ∧ issued w' = issued w ∧
  pipeline_log w' = pipeline_log w ∧
  rate_limiter (self w') = rate_limiter (self w) ∧
  cache_manager (self w') = cache_manager (self w) ∧
  quota_limit (self w') = quota_limit (self w) ∧
  operation_costs (self w') = operation_costs (self w) ∧
  quota_used (self w') = effective_used (clock w) (self w).
Proof.
  rewrite check_quota_run. unfold effective_used. simpl.
  by repeat case_bool_decide.
Qed.

(** Unfolding of the monadic plumbing. *)
Ltac unfold_pipeline :=
  unfold YouTubeAPI._make_request, YouTubeAPI.after_cache, try_except,
    _update_quota, cache_get, cache_set, rate_limiter_acquire, execute_request,
    mbind, M_bind, gets, modify, mret, M_ret, raise.

(** The pipeline past the cache lookup, case by case. *)
Lemma after_cache_run req op key w :
  after_cache req op key w =
    let w1 := (_check_quota op w).2 in
    if bool_decide (quota_limit (self w) < effective_used (clock w) (self w)
                                           + cost_of op (self w))
    then (Raise quota_error, w1)
    else
      let '(st, now, rl, rest) :=
        RateLimiter.acquire (oversleeps w) 1 (clock w) (rate_limiter (self w)) in
      let w2 := mkWorld now rest (with_rate_limiter rl (self w1)) (issued w)
                  (pipeline_log w) in
      match st with
      | RateLimiter.StillWaiting => (Pending, w2)
      | RateLimiter.Acquired =>
          let '(answer, latency) := execute (issued w) req in
          let w3 := mkWorld (now + latency) rest (self w2) (issued w ++ [req])
                      (pipeline_log w) in
          match answer with
          | UpHttpError status content => (Raise (handle (HttpError status content)), w3)
          | UpException msg => (Raise (classify (OtherException msg)), w3)
          | UpOk result =>
              let s4 := with_quota (quota_used (self w3) + cost_of op (self w3))
                          (quota_reset_time (self w3)) (self w3) in
              let w4 := with_self s4 w3 in
              match caching key with
              | None => (Return result, w4)
              | Some k =>
                  let '(r, cm) :=
                    CacheManager.set md5_hexdigest settings k result
                      (Some (cache_ttl_seconds settings)) (clock w4)
                      (cache_manager s4) in
                  let w5 := with_self (with_cache_manager cm s4) w4 in
                  match r with
                  | inl e => (Raise (classify (Py e)), w5)
                  | inr _ => (Return result, w5)
                  end
              end
          end
      end.
Proof.
  unfold_pipeline.
  pose proof (check_quota_frame op w) as (Hc & Ho & Hi & Hl & Hr & _).
  pose proof (check_quota_run op w) as Hrun.
  destruct (_check_quota op w) as [o w1]. simpl in *.
  case_bool_decide; injection Hrun as -> _; [done|].
  rewrite Hc, Ho, Hi, Hl, Hr.
  destruct (RateLimiter.acquire _ _ _ _) as [[[st now] rl] rest].
  destruct st; [|done]. simpl.
  destruct (execute (issued w) req) as [answer latency].
  destruct answer; simpl; try done.
  destruct (caching key); [|done]. simpl.
  destruct (CacheManager.set _ _ _ _ _ _ _) as [[e|b] cm]; done.
Qed.

Lemma make_request_run req op key w :
  _make_request req op key w =
    let w0 := entered req op key w in
    match caching key with
    | Some k =>
        let '(v, cm) := CacheManager.get md5_hexdigest settings k (clock w)
                          (cache_manager (self w)) in
        let w1 := with_self (with_cache_manager cm (self w)) w0 in
        if truthy v then (Return v, w1) else after_cache req op key w1
    | None => after_cache req op key w0
    end.
Proof.
  unfold YouTubeAPI._make_request, cache_get, mbind, M_bind, modify, mret, M_ret.
  simpl. destruct (caching key); [|done].
  destruct (CacheManager.get _ _ _ _ _) as [v cm]. simpl.
  by destruct (truthy v).
Qed.

Lemma check_quota_raises op w :
  (_check_quota op w).1 = Raise quota_error ↔
  quota_limit (self w) < effective_used (clock w) (self w) + cost_of op (self w).
Proof. rewrite check_quota_run. simpl. by case_bool_decide. Qed.

Lemma check_quota_returns op w :
  (_check_quota op w).1 = Return true ↔
  effective_used (clock w) (self w) + cost_of op (self w) ≤ quota_limit (self w).
Proof. rewrite check_quota_run. simpl. case_bool_decide; split; (done || lia). Qed.

Lemma after_cache_quota_exceeded req op key w :
  quota_limit (self w) < effective_used (clock w) (self w) + cost_of op (self w) →
  let r := after_cache req op key w in
  r.1 = Raise quota_error ∧
  rate_limiter (self r.2) = rate_limiter (self w) ∧
  issued r.2 = issued w ∧ clock r.2 = clock w ∧ oversleeps r.2 = oversleeps w.
Proof.
  intros Hover. simpl. rewrite after_cache_run. simpl.
  rewrite bool_decide_true by done. simpl.
  destruct (check_quota_frame op w) as (? & ? & ? & _ & ? & _). done.
Qed.

(** A failed quota check ends the call at once. *)
Lemma make_request_quota_exceeded req op key w :
  cache_hit key w = false →
  quota_limit (self w) < effective_used (clock w) (self w) + cost_of op (self w) →
  let r := _make_request req op key w in
  r.1 = Raise quota_error ∧
  rate_limiter (self r.2) = rate_limiter (self w) ∧
  issued r.2 = issued w ∧ clock r.2 = clock w ∧ oversleeps r.2 = oversleeps w.
Proof.
  intros Hmiss Hover. simpl. rewrite make_request_run. simpl.
  unfold YouTubeAPI.cache_hit in Hmiss.
  destruct (caching key) as [k|].
  - destruct (CacheManager.get _ _ _ _ _) as [v cm]. simpl in Hmiss. rewrite Hmiss.
    exact (after_cache_quota_exceeded req op key
             (with_self (with_cache_manager cm (self w)) (entered req op key w)) Hover).
  - exact (after_cache_quota_exceeded req op key (entered req op key w) Hover).
Qed.

(** C1. Whenever the quota check of a [_make_request] call fails (the
    cache having given no hit), the call raises the quota error with the
    rate limiter exactly as it was (no bucket touched, no wait spent) and
    without the request having been executed upstream. *)
Theorem quota_gate_precedes_limiter_and_upstream req op key w :
  cache_hit key w = false →
  (_check_quota op w).1 = Raise quota_error →
  let r := _make_request req op key w in
  r.1 = Raise quota_error ∧
  RateLimiter.buckets (rate_limiter (self r.2)) =
    RateLimiter.buckets (rate_limiter (self w)) ∧
  rate_limiter (self r.2) = rate_limiter (self w) ∧
  issued r.2 = issued w ∧ clock r.2 = clock w ∧ oversleeps r.2 = oversleeps w.
Proof.
  intros Hmiss Hfail%check_quota_raises.
  destruct (make_request_quota_exceeded req op key w Hmiss Hfail) as (? & Hrl & ? & ? & ?).
  simpl in *. by rewrite Hrl.
Qed.

(** What a [_make_request] call does to the quota counter. *)
Lemma make_request_quota_used req op key w :
  let r := _make_request req op key w in
  let used := effective_used (clock w) (self w) in
  (issued r.2 = issued w ∧
   (quota_used (self r.2) = quota_used (self w) ∨ quota_used (self r.2) = used)) ∨
  (issued r.2 = issued w ++ [req] ∧
   quota_used (self r.2) =
     match (execute (issued w) req).1 with
     | UpOk _ => used + cost_of op (self w)
     | _ => used
     end).
Proof.
  simpl. rewrite make_request_run. simpl.
  assert (∀ w', clock w' = clock w → issued w' = issued w →
                quota_used (self w') = quota_used (self w) →
                quota_reset_time (self w') = quota_reset_time (self w) →
                operation_costs (self w') = operation_costs (self w) →
    let r := after_cache req op key w' in
    let used := effective_used (clock w) (self w) in
    (issued r.2 = issued w ∧
     (quota_used (self r.2) = quota_used (self w) ∨ quota_used (self r.2) = used)) ∨
    (issued r.2 = issued w ++ [req] ∧
     quota_used (self r.2) =
       match (execute (issued w) req).1 with
       | UpOk _ => used + cost_of op (self w)
       | _ => used
       end)) as Hafter.
  { intros w' Hc Hi Hu Hr Ho. simpl. rewrite after_cache_run.
    destruct (check_quota_frame op w') as (_ & _ & Hi1 & _ & _ & _ & _ & Hco & Hused).
    assert (effective_used (clock w') (self w') = effective_used (clock w) (self w)) as He
      by (unfold effective_used; by rewrite Hc, Hu, Hr).
    assert (∀ s, operation_costs s = operation_costs (self w) →
                 cost_of op s = cost_of op (self w)) as Hcost
      by (intros s Hs; unfold cost_of; by rewrite Hs).
    rewrite He in Hused. simpl in *.
    case_bool_decide; simpl; [left; split; [congruence|by right]|].
    destruct (RateLimiter.acquire _ _ _ _) as [[[st now] rl] rest].
    destruct st; simpl; [|left; split; [done|by right]].
    rewrite Hi. destruct (execute (issued w) req) as [answer latency].
    destruct answer; simpl; [|right; split; done..].
    rewrite Hused, Hcost by (simpl; congruence).
    destruct (caching key); simpl; [|by right].
    destruct (CacheManager.set _ _ _ _ _ _ _) as [[e|b] cm]; simpl; by right. }
  destruct (caching key) as [k|]; [|by apply Hafter].
  destruct (CacheManager.get _ _ _ _ _) as [v cm]. simpl.
  destruct (truthy v); simpl; [left; split; [done|by left]|].
  by apply Hafter.
Qed.

(** C2. The quota check raises exactly when the usage (zero once a due
    window reset has been applied) plus the cost of the operation exceeds
    the limit, and passes exactly otherwise; raising or passing, it
    deducts nothing. A [_make_request] call adds the cost to the usage
    only when it has executed the request upstream and the upstream
    answered with a result. With limit 10000, usage 9950 and a cost-100
    operation the check raises and the usage stays 9950. *)
Theorem quota_check_exact_and_no_partial_deduction op w :
  let used := effective_used (clock w) (self w) in
  let cost := cost_of op (self w) in
  ((_check_quota op w).1 = Raise quota_error ↔ quota_limit (self w) < used + cost) ∧
  ((_check_quota op w).1 = Return true ↔ used + cost ≤ quota_limit (self w)) ∧
  quota_used (self (_check_quota op w).2) = used ∧
  (¬ quota_reset_time (self w) < clock w →
   quota_used (self (_check_quota op w).2) = quota_used (self w)) ∧
  (∀ req key,
     let r := _make_request req op key w in
     (issued r.2 = issued w ∧
      (quota_used (self r.2) = quota_used (self w) ∨ quota_used (self r.2) = used)) ∨
     (issued r.2 = issued w ++ [req] ∧
      quota_used (self r.2) =
        match (execute (issued w) req).1 with
        | UpOk _ => used + cost
        | _ => used
        end)) ∧
  (quota_limit (self w) = 10000 → quota_used (self w) = 9950 → cost = 100 →
   ¬ quota_reset_time (self w) < clock w →
   (_check_quota op w).1 = Raise quota_error ∧
   quota_used (self (_check_quota op w).2) = 9950).
Proof.
  simpl. destruct (check_quota_frame op w) as (_ & _ & _ & _ & _ & _ & _ & _ & Hused).
  simpl in Hused.
  assert (¬ quota_reset_time (self w) < clock w →
          effective_used (clock w) (self w) = quota_used (self w)) as Hnodue
    by (intros ?; unfold effective_used; by rewrite bool_decide_false).
  split_and!.
  - apply check_quota_raises.
  - apply check_quota_returns.
  - done.
  - intros Hn. by rewrite Hused, Hnodue.
  - intros req key. apply make_request_quota_used.
  - intros Hl Hu Hc Hn. rewrite Hused, Hnodue by done. split; [|done].
    apply check_quota_raises. rewrite Hnodue by done. lia.
Qed.

(** The window reset of [_check_quota]. *)
Lemma check_quota_reset op w :
  quota_reset_time (self w) < clock w →
  let w' := (_check_quota op w).2 in
  quota_used (self w') = 0 ∧ quota_reset_time (self w') = clock w + day.
Proof.
  intros Hdue. simpl. rewrite check_quota_run. simpl.
  rewrite (bool_decide_true (quota_reset_time (self w) < clock w)) by done.
  by case_bool_decide.
Qed.

(** C4, as the code has it. A quota check made after [quota_reset_time]
    sets the usage to zero and the next reset to one day after the
    instant of the check: the deadline moves by one day plus the time by
    which the old deadline was overshot. *)
Theorem quota_window_restarts_at_check op w :
  quota_reset_time (self w) < clock w →
  let w' := (_check_quota op w).2 in
  quota_used (self w') = 0 ∧
  quota_reset_time (self w') = clock w + day ∧
  quota_reset_time (self w') - quota_reset_time (self w) =
    day + (clock w - quota_reset_time (self w)).
Proof.
  intros Hdue. destruct (check_quota_reset op w Hdue) as [H0 Hr]. simpl in *.
  split_and!; [done..|lia].
Qed.

Lemma caching_Some k : caching (Some k) = Some k → enable_caching settings = true.
Proof.
  unfold YouTubeAPI.caching. destruct (str_truthy k), (enable_caching settings); done.
Qed.

Lemma with_same_cache_manager w req op key :
  with_self (with_cache_manager (cache_manager (self w)) (self w)) (entered req op key w)
  = entered req op key w.
Proof. destruct w as [c o s i l]. by destruct s. Qed.

(** The pipeline past the cache lookup, stage by stage, in terms of what
    the quota check, [RateLimiter.acquire], the upstream and
    [CacheManager.set] do. *)
Lemma after_cache_stages req op key w :
  let r := after_cache req op key w in
  let used := effective_used (clock w) (self w) in
  let cost := cost_of op (self w) in
  let a := RateLimiter.acquire (oversleeps w) 1 (clock w) (rate_limiter (self w)) in
  let answer := execute (issued w) req in
  let cm := cache_manager (self w) in
  (quota_limit (self w) < used + cost →
   r.1 = Raise quota_error ∧ issued r.2 = issued w ∧
   rate_limiter (self r.2) = rate_limiter (self w) ∧ clock r.2 = clock w) ∧
  (used + cost ≤ quota_limit (self w) →
   rate_limiter (self r.2) = a.1.2 ∧ oversleeps r.2 = a.2 ∧
   (a.1.1.1 = RateLimiter.StillWaiting →
    r.1 = Pending ∧ issued r.2 = issued w ∧ clock r.2 = a.1.1.2 ∧
    quota_used (self r.2) = used ∧ cache_manager (self r.2) = cm) ∧
   (a.1.1.1 = RateLimiter.Acquired →
    issued r.2 = issued w ++ [req] ∧
    clock r.2 = a.1.1.2 + answer.2 ∧
    (∀ result, answer.1 = UpOk result →
       quota_used (self r.2) = used + cost ∧
       match caching key with
       | None => r.1 = Return result ∧ cache_manager (self r.2) = cm
       | Some k =>
           let s := CacheManager.set md5_hexdigest settings k result
                      (Some (cache_ttl_seconds settings)) (a.1.1.2 + answer.2) cm in
           cache_manager (self r.2) = s.2 ∧
           r.1 = match s.1 with
                 | inl e => Raise (classify (Py e))
                 | inr _ => Return result
                 end
       end) ∧
    ((∀ result, answer.1 ≠ UpOk result) →
     r.1 = Raise (match answer.1 with
                  | UpHttpError status content => handle (HttpError status content)
                  | UpException msg => classify (OtherException msg)
                  | UpOk _ => quota_error
                  end) ∧
     quota_used (self r.2) = used ∧ cache_manager (self r.2) = cm))).
Proof.
  cbv zeta.
  pose proof (after_cache_run req op key w) as Hrun. cbv zeta in Hrun.
  destruct (check_quota_frame op w) as (Hc & Ho & Hi & Hl & Hr & Hcm & Hql & Hco & Hused).
  simpl in Hc, Ho, Hi, Hl, Hr, Hcm, Hql, Hco, Hused.
  assert (∀ rl, cost_of op (with_rate_limiter rl (self (_check_quota op w).2))
                = cost_of op (self w)) as Hcost
    by (intros rl; unfold cost_of; simpl; by rewrite Hco).
  set (r := after_cache req op key w) in *. clearbody r.
  split.
  { intros Hover. rewrite bool_decide_true in Hrun by done. subst r. simpl. done. }
  intros Hquota. rewrite bool_decide_false in Hrun by lia.
  destruct (RateLimiter.acquire _ _ _ _) as [[[st now] rl] rest]. simpl.
  destruct st; [|subst r; simpl; split_and!; done].
  destruct (execute (issued w) req) as [answer latency]. simpl.
  destruct answer as [result|status content|msg]; simpl in Hrun.
  - rewrite Hcm, Hused, Hcost in Hrun.
    destruct (caching key) as [k|]; simpl in Hrun.
    + destruct (CacheManager.set _ _ _ _ _ _ _) as [[e|b] cm'] eqn:Hset; subst r; simpl;
        (split; [done|]; split; [done|]; split; [done|]; intros _;
         split; [done|]; split; [done|]; split;
         [intros result' [= <-]; by rewrite Hset|intros Hno; by destruct (Hno result)]).
    + subst r; simpl.
      split; [done|]. split; [done|]. split; [done|]. intros _.
      split; [done|]. split; [done|]. split;
        [by intros result' [= <-]|intros Hno; by destruct (Hno result)].
  - subst r; simpl. split_and!; done.
  - subst r; simpl. split_and!; done.
Qed.

(** C10. With caching on and a live entry stored under the key: when
    the stored value is truthy the call returns it at once; when it is
    falsy (None, an empty dict or list, 0, an empty string) the call goes
    on as on a miss. The quota check is made: over the limit, the call
    raises the quota error. Within the limit the rate limiter is asked for
    one token: the limiter, the clock and the sleeps used are afterwards
    those of [acquire], and a caller that is not admitted is still waiting.
    Once admitted the request is executed upstream, the clock moving on by
    the time that takes. A result is counted against the quota, stored
    under the same key in place of the falsy value (the cache having room
    and the expiry being a date) and returned; a failure is raised with the
    quota and the cache as they were. *)
Theorem falsy_cached_value_is_a_miss req op k entry w :
  caching (Some k) = Some k →
  dict_get (CacheManager._generate_cache_key md5_hexdigest k)
    (CacheManager.memory_cache (cache_manager (self w))) = Some entry →
  clock w < CacheManager.expires_at entry →
  let v := CacheManager.value entry in
  let w0 := entered req op (Some k) w in
  let r := _make_request req op (Some k) w in
  let used := effective_used (clock w) (self w) in
  let cost := cost_of op (self w) in
  let a := RateLimiter.acquire (oversleeps w) 1 (clock w) (rate_limiter (self w)) in
  let answer := execute (issued w) req in
  let cm := cache_manager (self w) in
  let ttl := CacheManager.ttl_or_default (Some (cache_ttl_seconds settings)) cm in
  (∀ v', v' ∈ [VNone; VDict []; VList []; VInt 0; VStr ""] → truthy v' = false) ∧
  (truthy v = true → r = (Return v, w0)) ∧
  (truthy v = false →
   r = after_cache req op (Some k) w0 ∧
   (quota_limit (self w) < used + cost →
    r.1 = Raise quota_error ∧ issued r.2 = issued w ∧
    rate_limiter (self r.2) = rate_limiter (self w) ∧ clock r.2 = clock w) ∧
   (used + cost ≤ quota_limit (self w) →
    rate_limiter (self r.2) = a.1.2 ∧ oversleeps r.2 = a.2 ∧
    (a.1.1.1 = RateLimiter.StillWaiting →
     r.1 = Pending ∧ issued r.2 = issued w ∧ clock r.2 = a.1.1.2 ∧
     quota_used (self r.2) = used ∧ cache_manager (self r.2) = cm) ∧
    (a.1.1.1 = RateLimiter.Acquired →
     issued r.2 = issued w ++ [req] ∧
     clock r.2 = a.1.1.2 + answer.2 ∧
     (∀ result, answer.1 = UpOk result →
        quota_used (self r.2) = used + cost ∧
        (1 ≤ CacheManager.memory_cache_max_size cm →
         CacheManager.timedelta_ok ttl →
         CacheManager.datetime_ok (clock r.2 + ttl * usec) →
         r.1 = Return result ∧
         dict_get (CacheManager._generate_cache_key md5_hexdigest k)
           (CacheManager.memory_cache (cache_manager (self r.2)))
         = Some (CacheManager.mkEntry result (clock r.2 + ttl * usec)))) ∧
     ((∀ result, answer.1 ≠ UpOk result) →
      (∃ e, r.1 = Raise e) ∧ quota_used (self r.2) = used ∧
      cache_manager (self r.2) = cm)))).
Proof.
  intros Hcaching Hget Hlive. cbv zeta.
  pose proof (caching_Some k Hcaching) as Hen.
  assert (truthy (CacheManager.value entry) = false →
          _make_request req op (Some k) w
          = after_cache req op (Some k) (entered req op (Some k) w)) as Hmiss.
  { intros Hfalsy. rewrite make_request_run. cbv zeta. rewrite Hcaching.
    rewrite (CacheFacts.get_live _ _ _ _ _ entry) by done.
    by rewrite with_same_cache_manager, Hfalsy. }
  split.
  { intros v' Hv'. repeat (apply elem_of_cons in Hv' as [->|Hv']; [done|]).
    by apply elem_of_nil in Hv'. }
  split.
  { intros Htruthy. rewrite make_request_run. cbv zeta. rewrite Hcaching.
    rewrite (CacheFacts.get_live _ _ _ _ _ entry) by done.
    by rewrite with_same_cache_manager, Htruthy. }
  intros Hfalsy. specialize (Hmiss Hfalsy). split; [done|].
  rewrite Hmiss.
  pose proof (after_cache_stages req op (Some k) (entered req op (Some k) w)) as H.
  cbv zeta in H. rewrite Hcaching in H.
  change (clock (entered req op (Some k) w)) with (clock w) in H.
  change (self (entered req op (Some k) w)) with (self w) in H.
  change (issued (entered req op (Some k) w)) with (issued w) in H.
  change (oversleeps (entered req op (Some k) w)) with (oversleeps w) in H.
  set (r := after_cache req op (Some k) (entered req op (Some k) w)) in *. clearbody r.
  destruct H as [Hover Hwithin]. split; [exact Hover|].
  intros Hquota. destruct (Hwithin Hquota) as (Hrl & Hsl & Hwait & Hadm).
  split; [exact Hrl|]. split; [exact Hsl|]. split; [exact Hwait|].
  intros Hacq. destruct (Hadm Hacq) as (Hissued & Hclock & Hok & Hfail).
  split; [exact Hissued|]. split; [exact Hclock|]. split.
  - intros result Hres. destruct (Hok result Hres) as [Hused [Hcm Hret]].
    split; [exact Hused|]. intros Hroom Httl Hdate. rewrite Hclock in Hdate |- *.
    destruct (CacheFacts.set_stores md5_hexdigest settings k result
                (Some (cache_ttl_seconds settings))
                ((RateLimiter.acquire (oversleeps w) 1 (clock w)
                    (rate_limiter (self w))).1.1.2 + (execute (issued w) req).2)
                (cache_manager (self w)) Hen Hroom Httl Hdate) as [Hset Hstored].
    cbv zeta in Hset, Hstored, Hcm, Hret.
    rewrite Hset in Hret. rewrite Hcm. done.
  - intros Hno. destruct (Hfail Hno) as (Hraise & Hused & Hcm).
    split; [by eexists|done].
Qed.

End client.

Import Samples.

Lemma quota_gate_precedes_limiter_and_upstream_witness :
  let w := world 1000 9950 [] [] in
  let r := _make_request digest default_settings upstream_ok some_request "search"
             (Some "search:1") w in
  r.1 = Raise quota_error ∧ issued r.2 = [] ∧
  RateLimiter.buckets (rate_limiter (self r.2)) = (100, 1000, 10).
Proof.
  intros w r.
  destruct (quota_gate_precedes_limiter_and_upstream digest default_settings upstream_ok
              some_request "search" (Some "search:1") w) as (H1 & H2 & _ & H3 & _).
  - vm_compute. reflexivity.
  - vm_compute. reflexivity.
  - split_and!; [exact H1|exact H3|exact H2].
Defined.

Lemma quota_check_exact_and_no_partial_deduction_witness :
  let w := world 1000 9950 [] [] in
  (_check_quota "search" w).1 = Raise quota_error ∧
  quota_used (self (_check_quota "search" w).2) = 9950.
Proof.
  intros w.
  destruct (quota_check_exact_and_no_partial_deduction digest default_settings upstream_ok
              "search" w) as (_ & _ & _ & _ & _ & H).
  apply H.
  - reflexivity.
  - reflexivity.
  - vm_compute. reflexivity.
  - vm_compute. intros [=].
Defined.

Lemma quota_window_restarts_at_check_witness :
  let w := world (day + 5 * usec) 42 [] [] in
  let w' := (_check_quota "videos" w).2 in
  quota_used (self w') = 0 ∧ quota_reset_time (self w') = 2 * day + 5 * usec.
Proof.
  intros w w'.
  destruct (quota_window_restarts_at_check "videos" w) as (H0 & Hr & _).
  - vm_compute. reflexivity.
  - split; [exact H0|]. etrans; [exact Hr|]. vm_compute. reflexivity.
Defined.

(** C4, as stated, fails: a check made five seconds after the deadline
    moves the deadline by one day and five seconds, not by one day. *)
Lemma quota_window_not_advanced_by_one_day :
  let w := world (day + 5 * usec) 42 [] [] in
  let w' := (_check_quota "videos" w).2 in
  ¬ (quota_used (self w') = 0 ∧
     quota_reset_time (self w') = quota_reset_time (self w) + day).
Proof. vm_compute. intros [_ [=]]. Qed.

Lemma falsy_cached_value_is_a_miss_witness :
  let stale := CacheManager.mkEntry (VDict []) 5000 in
  let w := world 1000 0 [("ytce:captions:abc", stale)] [] in
  let r := _make_request digest default_settings upstream_ok
             (captions_request "abc") "captions" (Some "captions:abc") w in
  r.1 = Return (VDict [("items", VList [VStr "item"])]) ∧
  issued r.2 = [captions_request "abc"] ∧ quota_used (self r.2) = 200 ∧
  RateLimiter.buckets (rate_limiter (self r.2)) = (99, 999, 9) ∧
  clock r.2 = 201000 ∧
  dict_get "ytce:captions:abc" (CacheManager.memory_cache (cache_manager (self r.2)))
  = Some (CacheManager.mkEntry (VDict [("items", VList [VStr "item"])]) 3600201000).
Proof.
  intros stale w r.
  destruct (falsy_cached_value_is_a_miss digest default_settings upstream_ok
              (captions_request "abc") "captions" "captions:abc" stale w) as (_ & _ & H).
  - reflexivity.
  - reflexivity.
  - reflexivity.
  - destruct H as (_ & _ & H); [reflexivity|].
    destruct H as (Hrl & _ & _ & H); [vm_compute; intros [=]|].
    destruct H as (Hissued & Hclock & Hok & _); [vm_compute; reflexivity|].
    destruct (Hok (VDict [("items", VList [VStr "item"])]) eq_refl) as [Hused Hstore].
    destruct Hstore as [Hret Hentry].
    + vm_compute. intros [=].
    + vm_compute. split; intros [=].
    + vm_compute. split; intros [=].
    + split_and!.
      * exact Hret.
      * exact Hissued.
      * etrans; [exact Hused|]. vm_compute. reflexivity.
      * etrans; [exact (f_equal RateLimiter.buckets Hrl)|]. vm_compute. reflexivity.
      * etrans; [exact Hclock|]. vm_compute. reflexivity.
      * etrans; [exact Hentry|]. vm_compute. reflexivity.
Defined.

End PipelineFacts.

(** ** Cache keys *)

Module KeyFacts.
Import YouTubeAPI Samples.

(** C6 on the code: the key of [search_videos] is built from the
    interpreter's string hash, so two processes whose hashes differ on the
    text of one and the same request derive different keys for it. *)
Theorem search_key_follows_interpreter_hash (hash1 hash2 : string → Z)
    (str_datetime : Z → string) (a : SearchArgs) :
  hash1 (search_key_text str_datetime a) ≠ hash2 (search_key_text str_datetime a) →
  search_videos_cache_key hash1 str_datetime a ≠
  search_videos_cache_key hash2 str_datetime a.
Proof.
  intros Hne Heq. apply Hne.
  unfold search_videos_cache_key, str_int in Heq.
  apply (inj (String.app "search:")) in Heq.
  by apply (inj pretty) in Heq.
Qed.

Lemma search_key_follows_interpreter_hash_witness :
  search_videos_cache_key (seeded_hash 1) no_datetime cats ≠
  search_videos_cache_key (seeded_hash 2) no_datetime cats.
Proof.
  apply (search_key_follows_interpreter_hash (seeded_hash 1) (seeded_hash 2)).
  vm_compute. intros [=].
Defined.

(** The same holds for the key of [get_video_details]. *)
Lemma video_details_key_follows_interpreter_hash (hash1 hash2 : string → Z) video_ids :
  hash1 (join "," (take 50 video_ids)) ≠ hash2 (join "," (take 50 video_ids)) →
  video_details_cache_key hash1 video_ids ≠ video_details_cache_key hash2 video_ids.
Proof.
  intros Hne Heq. apply Hne.
  unfold video_details_cache_key, str_int in Heq.
  apply (inj (String.app "video_details:")) in Heq.
  by apply (inj pretty) in Heq.
Qed.

End KeyFacts.

(** ** Comments and captions *)

Module SubResourceFacts.
Import YouTubeAPI Samples.

#[local] Arguments YouTubeAPI.caching : simpl never.
#[local] Arguments CacheManager.set : simpl never.
#[local] Arguments CacheManager.get : simpl never.
#[local] Arguments RateLimiter.acquire : simpl never.
#[local] Arguments classify : simpl never.
#[local] Arguments handle : simpl never.

Section client.
Variable md5_hexdigest : string → string.
Variable settings : Settings.
Variable execute : list Request → Request → Upstream * Z.

#[local] Abbreviation _make_request := (_make_request md5_hexdigest settings execute).
#[local] Abbreviation get_video_captions :=
  (get_video_captions md5_hexdigest settings execute).
#[local] Abbreviation get_video_comments :=
  (get_video_comments md5_hexdigest settings execute).

Lemma classify_is_api_error e : ∃ pe, classify e = Py pe ∧ is_YouTubeAPIError pe = true.
Proof.
  unfold classify. destruct e as [pe|status content|msg]; [by eexists| |by eexists].
  repeat case_bool_decide; try by eexists.
  destruct (contains "quota" _); by eexists.
Qed.

Lemma handle_cases e :
  (∃ pe, handle e = Py pe ∧ is_YouTubeAPIError pe = true) ∨
  (handle e = Py decode_error ∧
   ∃ status content, e = HttpError status content ∧
     str_truthy content = true ∧ utf8_valid content = false).
Proof.
  destruct e as [pe|status content|msg]; simpl; try (left; apply classify_is_api_error).
  unfold handle.
  destruct (str_truthy content) eqn:Ht; simpl; [|left; apply classify_is_api_error].
  destruct (utf8_valid content) eqn:Hv; simpl; [left; apply classify_is_api_error|].
  right. split; [done|]. by exists status, content.
Qed.

(** Whatever escapes [_make_request] is a [YouTubeAPIError], unless the
    upstream raised an [HttpError] whose body does not decode: then it is
    the [UnicodeDecodeError]. *)
Lemma make_request_raises req op key w e :
  (_make_request req op key w).1 = Raise e →
  (∃ pe, e = Py pe ∧ is_YouTubeAPIError pe = true) ∨
  (e = Py decode_error ∧ undecodable (execute (issued w) req).1).
Proof.
  assert (∀ w', issued w' = issued w →
                (after_cache md5_hexdigest settings execute req op key w').1 = Raise e →
                (∃ pe, e = Py pe ∧ is_YouTubeAPIError pe = true) ∨
                (e = Py decode_error ∧ undecodable (execute (issued w) req).1)) as Hafter.
  { intros w' Hi. rewrite PipelineFacts.after_cache_run. simpl.
    case_bool_decide; simpl; [intros [= <-]; left; by eexists|].
    destruct (RateLimiter.acquire _ _ _ _) as [[[st now] rl] rest].
    destruct st; simpl; [|done].
    rewrite Hi. destruct (execute (issued w) req) as [answer latency].
    destruct answer as [result|status content|msg]; simpl.
    - destruct (caching settings key); simpl; [|done].
      destruct (CacheManager.set _ _ _ _ _ _ _) as [[e'|b] cm]; simpl; [|done].
      intros [= <-]. destruct (classify_is_api_error (Py e')) as (pe & -> & ?).
      left. by eexists.
    - intros [= <-].
      destruct (handle_cases (HttpError status content))
        as [(pe & -> & ?)|(-> & status' & content' & [= <- <-] & ? & ?)].
      + left. by eexists.
      + right. split; [done|]. by exists status, content.
    - intros [= <-].
      destruct (classify_is_api_error (OtherException msg)) as (pe & -> & ?).
      left. by eexists. }
  rewrite PipelineFacts.make_request_run. simpl.
  destruct (caching settings key); [|by apply Hafter].
  destruct (CacheManager.get _ _ _ _ _) as [v cm]. simpl.
  destruct (truthy v); [done|by apply Hafter].
Qed.

(** [get_video_captions] turns every [YouTubeAPIError] of its request
    into the empty result. *)
Lemma captions_on_error video_id w pe :
  (_make_request (captions_request video_id) "captions"
     (Some (captions_cache_key video_id)) w).1 = Raise (Py pe) →
  (get_video_captions video_id w).1 =
    if is_YouTubeAPIError pe then Return empty_items else Raise (Py pe).
Proof.
  intros Hraise.
  unfold YouTubeAPI.get_video_captions, try_except.
  destruct (_make_request _ _ _ w) as [o w']. simpl in *. subst o.
  by destruct (is_YouTubeAPIError pe).
Qed.

(** Nothing but the failure to decode an error body leaves
    [get_video_captions]. *)
Lemma captions_raise_only_decode video_id w e :
  (get_video_captions video_id w).1 = Raise e → e = Py decode_error.
Proof.
  unfold YouTubeAPI.get_video_captions, try_except.
  pose proof (make_request_raises (captions_request video_id) "captions"
                (Some (captions_cache_key video_id)) w) as Hr.
  destruct (_make_request _ _ _ w) as [[v|e'|] w']; simpl in *; [done| |done].
  destruct (Hr e' eq_refl) as [(pe & -> & Hpe)|[-> _]].
  - by rewrite Hpe.
  - simpl. by intros [= <-].
Qed.

(** [get_video_comments] turns a [YouTubeAPIError] into the empty result
    exactly when its message contains "disabled" or "not found", and lets
    every other failure through unchanged. *)
Lemma comments_on_error video_id max_results order w pe :
  (_make_request (comment_threads_request video_id max_results order) "comments"
     (Some (comments_cache_key video_id max_results order)) w).1 = Raise (Py pe) →
  (get_video_comments video_id max_results order w).1 =
    if is_YouTubeAPIError pe &&
       (contains "disabled" (lower (exc_str pe)) || contains "not found" (lower (exc_str pe)))
    then Return empty_items else Raise (Py pe).
Proof.
  intros Hraise.
  unfold YouTubeAPI.get_video_comments, try_except.
  destruct (_make_request _ _ _ w) as [o w']. simpl in *. subst o.
  destruct (is_YouTubeAPIError pe); simpl; [|done]. by destruct (_ || _).
Qed.

End client.

(** C8 on the code. With 9900 of 10000 units spent, the quota check for a
    captions listing (cost 200) fails; [get_video_captions] answers with
    the empty result all the same, and nothing is asked upstream. The same
    call for comments lets the error through when, at 10000 units spent, its
    own quota check fails. *)
Theorem captions_hide_quota_exhaustion :
  let w := world 1000 9900 [] [] in
  let r := get_video_captions digest default_settings upstream_ok "abc" w in
  (_make_request digest default_settings upstream_ok (captions_request "abc") "captions"
     (Some (captions_cache_key "abc")) w).1 = Raise quota_error ∧
  r.1 = Return empty_items ∧ issued r.2 = [] ∧
  (get_video_comments digest default_settings upstream_ok "abc" 100 "relevance"
     (world 1000 10000 [] [])).1 = Raise quota_error.
Proof. vm_compute. done. Qed.

(** A refused credential (403 without the word "quota") is hidden by
    [get_video_captions] as well. *)
Lemma captions_hide_forbidden :
  (get_video_captions digest default_settings upstream_forbidden "abc"
     (world 1000 0 [] [])).1 = Return empty_items.
Proof. vm_compute. done. Qed.

(** [get_video_comments] lets the same refusal through. *)
Lemma comments_propagate_forbidden :
  (get_video_comments digest default_settings upstream_forbidden "abc" 100 "relevance"
     (world 1000 0 [] [])).1 =
  Raise (Py (YouTubeAPIError
    "API access forbidden: The request cannot be completed because of insufficient permissions")).
Proof. vm_compute. done. Qed.

(** The substring test of [get_video_comments] also matches a refusal
    that is about the credential, not about the comments. *)
Lemma comments_hide_api_not_enabled :
  (get_video_comments digest default_settings upstream_not_enabled "abc" 100 "relevance"
     (world 1000 0 [] [])).1 = Return empty_items.
Proof. vm_compute. done. Qed.

End SubResourceFacts.

(** ** Batching of identifier lists *)

Module BatchFacts.
Import YouTubeAPI Samples.

Section chunks.
Context {A : Type}.
Implicit Types l : list A.

Lemma chunks_fuel_concat fuel n l :
  (length l ≤ fuel)%nat → (1 ≤ n)%nat → concat (chunks_fuel fuel n l) = l.
Proof.
  revert l. induction fuel as [|fuel IH]; intros l Hlen Hn.
  - destruct l; [done|simpl in Hlen; lia].
  - destruct l as [|x l]; [done|].
    change (chunks_fuel (S fuel) n (x :: l))
      with (take n (x :: l) :: chunks_fuel fuel n (drop n (x :: l))).
    rewrite concat_cons, IH, take_drop; [done| |done].
    rewrite length_drop. simpl in *. lia.
Qed.

Lemma chunks_fuel_Forall fuel n l :
  (1 ≤ n)%nat → Forall (λ c, (1 ≤ length c ≤ n)%nat) (chunks_fuel fuel n l).
Proof.
  intros Hn. revert l. induction fuel as [|fuel IH]; intros l; [constructor|].
  destruct l as [|x l]; [constructor|].
  change (chunks_fuel (S fuel) n (x :: l))
    with (take n (x :: l) :: chunks_fuel fuel n (drop n (x :: l))).
  constructor; [|apply IH]. rewrite length_take. simpl. lia.
Qed.

Lemma chunks_fuel_sizes fuel n l :
  length <$> chunks_fuel fuel n l = chunk_sizes fuel n (length l).
Proof.
  revert l. induction fuel as [|fuel IH]; intros l; [done|].
  destruct l as [|x l]; [done|].
  change (chunks_fuel (S fuel) n (x :: l))
    with (take n (x :: l) :: chunks_fuel fuel n (drop n (x :: l))).
  rewrite fmap_cons, IH, length_take, length_drop. done.
Qed.
End chunks.

Lemma chunk_sizes_count fuel len :
  (len ≤ fuel)%nat →
  Z.of_nat (length (chunk_sizes fuel 50 len)) = (Z.of_nat len + 49) / 50.
Proof.
  revert len. induction fuel as [|fuel IH]; intros len Hlen.
  - assert (len = 0%nat) as -> by lia. done.
  - destruct len as [|len]; [done|].
    change (chunk_sizes (S fuel) 50 (S len))
      with ((50 `min` S len)%nat :: chunk_sizes fuel 50 (S len - 50)).
    rewrite length_cons, Nat2Z.inj_succ, IH by lia.
    destruct (decide (S len ≤ 50)%nat) as [Hle|Hgt].
    + replace (S len - 50)%nat with 0%nat by lia.
      change ((Z.of_nat 0 + 49) / 50) with 0.
      apply Z.div_unique with (r := Z.of_nat (S len) + 49 - 50); lia.
    + rewrite Nat2Z.inj_sub by lia.
      replace (Z.of_nat (S len) + 49) with ((Z.of_nat (S len) - Z.of_nat 50 + 49) + 1 * 50)
        by lia.
      rewrite Z.div_add by lia. lia.
Qed.

#[local] Arguments YouTubeAPI.caching : simpl never.
#[local] Arguments CacheManager.set : simpl never.
#[local] Arguments CacheManager.get : simpl never.
#[local] Arguments RateLimiter.acquire : simpl never.
#[local] Arguments classify : simpl never.
#[local] Arguments handle : simpl never.

Section client.
Variable md5_hexdigest : string → string.
Variable py_hash : string → Z.
Variable settings : Settings.
Variable execute : list Request → Request → Upstream * Z.

#[local] Abbreviation _make_request := (_make_request md5_hexdigest settings execute).
#[local] Abbreviation get_video_details :=
  (get_video_details md5_hexdigest py_hash settings execute).
#[local] Abbreviation batch_loop := (batch_loop md5_hexdigest py_hash settings execute).
#[local] Abbreviation batch_get_video_details :=
  (batch_get_video_details md5_hexdigest py_hash settings execute).
#[local] Abbreviation fetch_chunks := (fetch_chunks md5_hexdigest py_hash settings execute).
#[local] Abbreviation sub_call_of := (sub_call_of py_hash).

(** Every [_make_request] call is recorded once, with its arguments,
    however it ends. *)
Lemma make_request_log req op key w :
  pipeline_log (_make_request req op key w).2 = pipeline_log w ++ [(req, op, key)].
Proof.
  assert (∀ w', pipeline_log
                  (after_cache md5_hexdigest settings execute req op key w').2
                = pipeline_log w') as Hafter.
  { intros w'. rewrite PipelineFacts.after_cache_run. simpl.
    destruct (PipelineFacts.check_quota_frame op w') as (_ & _ & _ & Hl & _).
    simpl in Hl.
    case_bool_decide; simpl; [done|].
    destruct (RateLimiter.acquire _ _ _ _) as [[[st now] rl] rest].
    destruct st; simpl; [|done].
    destruct (execute (issued w') req) as [answer latency].
    destruct answer as [result|status content|msg]; simpl; [|done..].
    destruct (caching settings key); simpl; [|done].
    by destruct (CacheManager.set _ _ _ _ _ _ _) as [[e'|b] cm]. }
  rewrite PipelineFacts.make_request_run. simpl.
  destruct (caching settings key); [|by rewrite Hafter].
  destruct (CacheManager.get _ _ _ _ _) as [v cm]. simpl.
  destruct (truthy v); [done|by rewrite Hafter].
Qed.

(** A [_make_request] call executes its own request upstream, once, or
    nothing. *)
Lemma make_request_issued req op key w :
  issued (_make_request req op key w).2 = issued w ∨
  issued (_make_request req op key w).2 = issued w ++ [req].
Proof.
  destruct (PipelineFacts.make_request_quota_used md5_hexdigest settings execute
              req op key w) as [[H _]|[H _]]; [by left|by right].
Qed.

(** Without a cache, a call that returns has executed its request, and
    returns what the upstream answered. *)
Lemma make_request_uncached req op key w v :
  caching settings key = None →
  (_make_request req op key w).1 = Return v →
  (execute (issued w) req).1 = UpOk v ∧
  issued (_make_request req op key w).2 = issued w ++ [req].
Proof.
  intros Hnone. rewrite PipelineFacts.make_request_run. simpl. rewrite Hnone.
  rewrite PipelineFacts.after_cache_run. simpl. rewrite Hnone.
  case_bool_decide; simpl; [done|].
  destruct (RateLimiter.acquire _ _ _ _) as [[[st now] rl] rest].
  destruct st; simpl; [|done].
  destruct (execute (issued w) req) as [answer latency].
  destruct answer as [result|status content|msg]; simpl; [|done..].
  by intros [= ->].
Qed.

(** On a chunk, [get_video_details] is one orchestrated call. *)
Lemma get_video_details_chunk c :
  c ≠ [] → (length c ≤ 50)%nat →
  get_video_details c =
    _make_request (chunk_request c) "videos" (Some (video_details_cache_key py_hash c)).
Proof.
  intros Hne Hlen. unfold YouTubeAPI.get_video_details.
  rewrite bool_decide_false by done. by rewrite take_ge.
Qed.

Lemma chunks_fuel_nil {A} fuel n : chunks_fuel fuel n (@nil A) = [].
Proof. by destruct fuel. Qed.

(** The index loop of the source visits the chunks of the design. *)
Lemma batch_loop_fetch fuel i video_ids acc w :
  (length video_ids - i ≤ fuel)%nat →
  batch_loop (range_from fuel i (length video_ids) 50) video_ids acc w =
  fetch_chunks (chunks_fuel fuel 50 (drop i video_ids)) acc w.
Proof.
  revert i acc w. induction fuel as [|fuel IH]; intros i acc w Hfuel; [done|].
  simpl range_from. case_bool_decide as Hi.
  - assert (drop i video_ids ≠ []) as Hne.
    { intros Hnil. apply (f_equal length) in Hnil. rewrite length_drop in Hnil.
      simpl in Hnil. lia. }
    destruct (drop i video_ids) as [|x l] eqn:Hdrop; [done|].
    change (chunks_fuel (S fuel) 50 (x :: l))
      with (take 50 (x :: l) :: chunks_fuel fuel 50 (drop 50 (x :: l))).
    rewrite <-Hdrop, drop_drop.
    simpl batch_loop. simpl fetch_chunks. unfold mbind, M_bind.
    rewrite get_video_details_chunk; cycle 1.
    { rewrite Hdrop. done. }
    { rewrite length_take. lia. }
    destruct (_make_request _ _ _ w) as [[result|e|] w1]; [|done..].
    assert (bool_decide (chunks_fuel fuel 50 (drop (i + 50) video_ids) = [])
            = negb (bool_decide (i + 50 < length video_ids)%nat)) as ->.
    { destruct (decide (i + 50 < length video_ids)%nat) as [Hmore|Hlast].
      - rewrite (bool_decide_true (i + 50 < length video_ids)%nat) by done. simpl.
        apply bool_decide_eq_false. destruct fuel as [|fuel']; [lia|].
        destruct (drop (i + 50) video_ids) as [|y l'] eqn:Hd; [|done].
        apply (f_equal length) in Hd. rewrite length_drop in Hd. simpl in Hd. lia.
      - rewrite (bool_decide_false (i + 50 < length video_ids)%nat) by done. simpl.
        apply bool_decide_eq_true. rewrite drop_ge by lia. apply chunks_fuel_nil. }
    destruct (bool_decide (i + 50 < length video_ids)%nat); simpl.
    + destruct (sleep (usec / 10) w1) as [[[]|e|] w2]; [|done..].
      apply IH. lia.
    + unfold mret, M_ret. apply IH. lia.
  - rewrite drop_ge by lia. by rewrite chunks_fuel_nil.
Qed.

Lemma sleep_log d w : pipeline_log (sleep d w).2 = pipeline_log w.
Proof. unfold sleep. by destruct (oversleeps w). Qed.

Lemma sleep_issued d w : issued (sleep d w).2 = issued w.
Proof. unfold sleep. by destruct (oversleeps w). Qed.

(** The calls recorded during a batch are the chunks, in order, up to
    the point where the batch stopped; all of them if it returned. *)
Lemma fetch_chunks_log cs acc w :
  ∃ j, pipeline_log (fetch_chunks cs acc w).2
         = pipeline_log w ++ take j (sub_call_of <$> cs) ∧
       ∀ items, (fetch_chunks cs acc w).1 = Return items → j = length cs.
Proof.
  revert acc w. induction cs as [|c cs IH]; intros acc w.
  - exists 0%nat. simpl. by rewrite app_nil_r.
  - simpl fetch_chunks. unfold mbind, M_bind.
    pose proof (make_request_log (chunk_request c) "videos"
                  (Some (video_details_cache_key py_hash c)) w) as Hlog.
    destruct (_make_request _ _ _ w) as [[result|e|] w1]; simpl in Hlog.
    + pose proof (sleep_log (usec / 10) w1) as Hsl.
      assert (∀ w2, pipeline_log w2 = pipeline_log w1 →
        ∃ j, pipeline_log (fetch_chunks cs (acc ++ items_of result) w2).2
               = pipeline_log w ++ take j (sub_call_of <$> c :: cs) ∧
             ∀ items, (fetch_chunks cs (acc ++ items_of result) w2).1 = Return items →
                      j = length (c :: cs)) as Hnext.
      { intros w2 Hw2. destruct (IH (acc ++ items_of result) w2) as (j & Hj & Hall).
        exists (S j). split.
        - rewrite Hj, Hw2, Hlog, <-app_assoc. done.
        - intros items Hit. simpl. f_equal. by eapply Hall. }
      case_bool_decide; [by apply Hnext|].
      destruct (sleep (usec / 10) w1) as [[[]|e|] w2]; simpl in Hsl.
      * by apply Hnext.
      * exists 1%nat. simpl. rewrite take_0, Hsl, Hlog. done.
      * exists 1%nat. simpl. rewrite take_0, Hsl, Hlog. done.
    + exists 1%nat. simpl. rewrite take_0. split; [done|done].
    + exists 1%nat. simpl. rewrite take_0. split; [done|done].
Qed.

(** What a batch executes upstream are requests of its chunks, in the
    order of the chunks, each at most once. *)
Lemma fetch_chunks_issued cs acc w :
  ∃ executed, issued (fetch_chunks cs acc w).2 = issued w ++ executed ∧
              sublist executed (chunk_request <$> cs).
Proof.
  revert acc w. induction cs as [|c cs IH]; intros acc w.
  - exists []. simpl. by rewrite app_nil_r.
  - simpl fetch_chunks. unfold mbind, M_bind.
    pose proof (make_request_issued (chunk_request c) "videos"
                  (Some (video_details_cache_key py_hash c)) w) as Hi.
    assert (∃ own, issued (_make_request (chunk_request c) "videos"
                             (Some (video_details_cache_key py_hash c)) w).2
                   = issued w ++ own ∧ sublist own [chunk_request c]) as (own & Hown & Hsub).
    { destruct Hi as [Hi|Hi].
      - exists []. rewrite app_nil_r. split; [done|]. apply sublist_nil_l.
      - exists [chunk_request c]. done. }
    clear Hi.
    assert (∀ w2, issued w2 = issued w ++ own →
              ∃ executed, issued w2 = issued w ++ executed ∧
                          sublist executed (chunk_request <$> c :: cs)) as Hstop.
    { intros w2 Hw2. exists own. split; [done|].
      rewrite fmap_cons, <-(app_nil_r own).
      apply (sublist_app own [chunk_request c] [] _ Hsub), sublist_nil_l. }
    assert (∀ acc' w2, issued w2 = issued w ++ own →
              ∃ executed, issued (fetch_chunks cs acc' w2).2 = issued w ++ executed ∧
                          sublist executed (chunk_request <$> c :: cs)) as Hnext.
    { intros acc' w2 Hw2. destruct (IH acc' w2) as (executed & He & Hs).
      exists (own ++ executed). split.
      - by rewrite He, Hw2, <-app_assoc.
      - rewrite fmap_cons. by apply (sublist_app _ [chunk_request c]). }
    destruct (_make_request _ _ _ w) as [[result|e|] w1]; simpl in Hown.
    + pose proof (sleep_issued (usec / 10) w1) as Hsl.
      case_bool_decide; [by apply Hnext|].
      destruct (sleep (usec / 10) w1) as [[[]|e|] w2]; simpl in Hsl.
      * apply Hnext. congruence.
      * apply Hstop. simpl. congruence.
      * apply Hstop. simpl. congruence.
    + by apply Hstop.
    + by apply Hstop.
Qed.

(** With caching off, a batch that returns has asked the upstream for
    every chunk, in order, and returns the items it was given, in that
    order. *)
Lemma fetch_chunks_uncached cs acc w items :
  enable_caching settings = false →
  (fetch_chunks cs acc w).1 = Return items →
  issued (fetch_chunks cs acc w).2 = issued w ++ (chunk_request <$> cs) ∧
  items = acc ++ upstream_items execute (issued w) (chunk_request <$> cs).
Proof.
  intros Hoff. revert acc w. induction cs as [|c cs IH]; intros acc w.
  - simpl. intros [= <-]. by rewrite !app_nil_r.
  - simpl fetch_chunks. unfold mbind, M_bind.
    pose proof (make_request_uncached (chunk_request c) "videos"
                  (Some (video_details_cache_key py_hash c)) w) as Hun.
    destruct (_make_request _ _ _ w) as [[result|e|] w1]; simpl in Hun; [|done..].
    destruct (Hun result) as [Hup Hi]; [|done|].
    { unfold caching. rewrite Hoff. by destruct (str_truthy _). }
    assert (∀ w2, issued w2 = issued w1 →
              (fetch_chunks cs (acc ++ items_of result) w2).1 = Return items →
              issued (fetch_chunks cs (acc ++ items_of result) w2).2
              = issued w ++ (chunk_request <$> c :: cs) ∧
              items = acc ++ upstream_items execute (issued w) (chunk_request <$> c :: cs))
      as Hnext.
    { intros w2 Hw2 Hret. destruct (IH _ _ Hret) as [Hi2 Hitems].
      rewrite Hw2, Hi in Hi2, Hitems. split.
      - rewrite Hi2, <-app_assoc. done.
      - rewrite Hitems, <-app_assoc. simpl. by rewrite Hup. }
    pose proof (sleep_issued (usec / 10) w1) as Hsl.
    case_bool_decide; [by apply Hnext|].
    destruct (sleep (usec / 10) w1) as [[[]|e|] w2]; simpl in Hsl; [|done..].
    by apply Hnext.
Qed.


End client.


End BatchFacts.

(** ** The rate limiter: liveness, bursts, status, adaptive delay *)

Module RateLimiterExtFacts.
Import RateLimiter RateLimiterExt RateLimiterFacts.

#[local] Arguments _refill_tokens : simpl never.
#[local] Arguments wait_time : simpl never.

Lemma refill_window_mono period cap tokens last now :
  0 < period → 0 ≤ cap → last ≤ now → tokens ≤ cap →
  tokens ≤ (refill_window period cap tokens last now).1.
Proof.
  intros Hp Hc Hl Ht. unfold refill_window.
  case_bool_decide; simpl; [lia|].
  assert (0 ≤ ((now - last) * cap) ÷ period) by (apply Z.quot_pos; nia). lia.
Qed.

Lemma refill_window_full period cap tokens last now :
  period ≤ now - last → (refill_window period cap tokens last now).1 = cap.
Proof. intros Hp. unfold refill_window. by rewrite bool_decide_true. Qed.

(** While a caller waits, no bucket loses tokens. *)
Lemma refill_monotone now now' rl :
  good (now, rl) → now ≤ now' →
  minute_tokens rl ≤ minute_tokens (_refill_tokens now' rl) ∧
  hour_tokens rl ≤ hour_tokens (_refill_tokens now' rl) ∧
  burst_tokens rl ≤ burst_tokens (_refill_tokens now' rl).
Proof.
  intros ((Cm & Ch & Cb) & (Rm & Rh & Rb) & (Lm & Lh & Lb)) Hnow. simpl in *.
  destruct (refill_buckets now' rl) as (-> & _ & -> & _ & Hbb).
  pose proof usec_pos.
  split_and!.
  - apply refill_window_mono; lia.
  - apply refill_window_mono; lia.
  - replace (burst_tokens (_refill_tokens now' rl))
      with ((burst_tokens (_refill_tokens now' rl),
             burst_last_refill (_refill_tokens now' rl)).1) by done.
    rewrite Hbb. case_bool_decide; simpl; lia.
Qed.

(** A bucket whose window has run out is full after the refill. *)
Lemma refill_full now rl :
  (60 * usec ≤ now - minute_last_refill rl →
   minute_tokens (_refill_tokens now rl) = calls_per_minute (config rl)) ∧
  (3600 * usec ≤ now - hour_last_refill rl →
   hour_tokens (_refill_tokens now rl) = calls_per_hour (config rl)) ∧
  (1 * usec ≤ now - burst_last_refill rl →
   burst_tokens (_refill_tokens now rl) = burst_limit (config rl)).
Proof.
  destruct (refill_buckets now rl) as (-> & _ & -> & _ & Hbb).
  split_and!; try apply refill_window_full.
  intros Hb. rewrite bool_decide_true in Hbb by done. by injection Hbb.
Qed.

(** The sleep of [acquire] lasts until some bucket that is short has its
    window over. *)
Lemma wait_covers tokens now rl :
  enough tokens rl = false →
  (minute_tokens rl < tokens ∧
   60 * usec - (now - minute_last_refill rl) ≤ wait_time tokens now rl) ∨
  (hour_tokens rl < tokens ∧
   3600 * usec - (now - hour_last_refill rl) ≤ wait_time tokens now rl) ∨
  (burst_tokens rl < tokens ∧
   1 * usec - (now - burst_last_refill rl) ≤ wait_time tokens now rl).
Proof.
  intros Hne. apply not_true_iff_false in Hne. rewrite enough_spec in Hne.
  unfold wait_time, min_inf.
  repeat case_bool_decide; simpl; lia.
Qed.

Lemma shorts_zero tokens rl : shorts tokens rl = 0%nat → enough tokens rl = true.
Proof.
  unfold shorts. intros Hz. apply enough_spec.
  repeat case_bool_decide; simpl in *; lia.
Qed.

Lemma good_later now now' rl : good (now, rl) → now ≤ now' → good (now', rl).
Proof.
  intros (Hc & Hr & (? & ? & ?)) Hnow. split_and!; try done.
  unfold timely in *; simpl in *. lia.
Qed.

Lemma good_refill now rl : good (now, rl) → good (now, _refill_tokens now rl).
Proof.
  intros (Hc & Hr & Hl). destruct (refill_in_range now now rl) as [? ?]; try done.
  split_and!; try done. simpl. by rewrite refill_config.
Qed.

(** One sleep brings at least one more bucket up to the request. *)
Lemma shorts_decrease tokens now now' rl :
  good (now, rl) → fits tokens (config rl) → enough tokens rl = false →
  now + wait_time tokens now rl ≤ now' →
  (shorts tokens (_refill_tokens now' rl) < shorts tokens rl)%nat.
Proof.
  intros Hg (Fm & Fh & Fb) Hne Hnow'.
  pose proof (wait_time_pos tokens now rl) as Hw.
  destruct (refill_monotone now now' rl Hg) as (Mm & Mh & Mb); [lia|].
  destruct (refill_full now' rl) as (Um & Uh & Ub).
  destruct (wait_covers tokens now rl Hne) as [[Hs Hcov]|[[Hs Hcov]|[Hs Hcov]]].
  - specialize (Um ltac:(lia)). unfold shorts.
    repeat case_bool_decide; simpl; lia.
  - specialize (Uh ltac:(lia)). unfold shorts.
    repeat case_bool_decide; simpl; lia.
  - specialize (Ub ltac:(lia)). unfold shorts.
    repeat case_bool_decide; simpl; lia.
Qed.

Lemma acquire_returns oversleep tokens now rl :
  good (now, rl) → fits tokens (config rl) → Forall (λ d, 0 ≤ d) oversleep →
  (shorts tokens (_refill_tokens now rl) ≤ length oversleep)%nat →
  (acquire oversleep tokens now rl).1.1.1 = Acquired.
Proof.
  intros Hg Hfit Hds. revert now rl Hg Hfit.
  induction Hds as [|d rest Hd Hds IH]; intros now rl Hg Hfit Hshort; simpl in *.
  - rewrite shorts_zero by lia. done.
  - destruct (enough tokens (_refill_tokens now rl)) eqn:He; [done|].
    pose proof (good_refill now rl Hg) as Hg1.
    pose proof (wait_time_pos tokens now (_refill_tokens now rl)) as Hw.
    apply IH.
    + eapply good_later; [exact Hg1|lia].
    + by rewrite refill_config.
    + assert (shorts tokens (_refill_tokens
                (now + wait_time tokens now (_refill_tokens now rl) + d)
                (_refill_tokens now rl))
              < shorts tokens (_refill_tokens now rl))%nat.
      { apply (shorts_decrease tokens now); [done|by rewrite refill_config|done|lia]. }
      simpl in Hshort. lia.
Qed.

Lemma shorts_le_3 tokens rl : (shorts tokens rl ≤ 3)%nat.
Proof. unfold shorts. repeat case_bool_decide; simpl; lia. Qed.

(** X1. A request that fits every bucket is always granted, after at
    most three sleeps: each sleep is long enough to fill one of the buckets
    that were short, and a waiting caller loses no tokens. (For clock
    readings of this era and sleeps that overrun by a millisecond or more:
    the source compares floats, and a sleep that ends on the very boundary
    of a window can be read as just short of it.) *)
Theorem acquire_granted_within_three_sleeps oversleep tokens now rl :
  good (now, rl) → dated now rl → fits tokens (config rl) →
  Forall (λ d, margin ≤ d) oversleep → (3 ≤ length oversleep)%nat →
  (acquire oversleep tokens now rl).1.1.1 = Acquired.
Proof.
  intros Hg _ Hfit Hds Hlen. apply acquire_returns; try done.
  - eapply Forall_impl; [exact Hds|]. intros d Hd. simpl in Hd.
    assert (0 ≤ margin) by (by vm_compute). lia.
  - pose proof (shorts_le_3 tokens (_refill_tokens now rl)). lia.
Qed.

Lemma acquire_granted_within_three_sleeps_witness :
  let rl := (try_acquire 10 0 (init default_config 0)).2 in
  (acquire [1000; 1000; 1000] 10 0 rl).1.1.1 = Acquired ∧
  (acquire [1000; 1000; 1000] 10 0 rl).1.1.2 = 1001000 ∧
  (acquire [] 10 0 rl).1.1.1 = StillWaiting.
Proof.
  intros rl. split; [|vm_compute; done].
  apply acquire_granted_within_three_sleeps.
  - destruct (step_good (CallTryAcquire 10) (0, init default_config 0)) as [Hg _].
    + simpl. lia.
    + apply init_good. unfold config_ok; simpl. lia.
    + exact Hg.
  - vm_compute. repeat split; intros [=].
  - unfold fits; simpl. lia.
  - repeat constructor; by vm_compute.
  - simpl. lia.
Defined.

Lemma refill_window_settled period cap tokens last now :
  0 < period → last ≤ now →
  let last' := (refill_window period cap tokens last now).2 in
  (0 ≤ now - last' < period) ∧ Z.quot ((now - last') * cap) period ≤ 0.
Proof.
  intros Hp Hl. unfold refill_window.
  case_bool_decide; simpl.
  - rewrite Z.sub_diag. simpl. split; [lia|]. by rewrite Z.quot_0_l by lia.
  - case_bool_decide; simpl.
    + rewrite Z.sub_diag. simpl. split; [lia|]. by rewrite Z.quot_0_l by lia.
    + split; lia.
Qed.

(** After a refill at [now] a further refill at [now] has nothing to do. *)
Lemma good_refill_settled now rl : good (now, rl) → settled now (_refill_tokens now rl).
Proof.
  intros ((Cm & Ch & Cb) & (Rm & Rh & Rb) & (Lm & Lh & Lb)). simpl in *.
  pose proof usec_pos as Hu.
  unfold settled. rewrite refill_config.
  destruct (refill_buckets now rl) as (_ & Hml & _ & Hhl & Hbb).
  rewrite Hml, Hhl.
  split; [|split; [|split]].
  - apply refill_below_capacity. unfold below_capacity. lia.
  - apply refill_window_settled; lia.
  - apply refill_window_settled; lia.
  - replace (burst_last_refill (_refill_tokens now rl))
      with ((burst_tokens (_refill_tokens now rl),
             burst_last_refill (_refill_tokens now rl)).2) by done.
    rewrite Hbb. case_bool_decide; simpl; lia.
Qed.

Lemma settled_refill now rl :
  config_ok (config rl) → settled now rl →
  buckets (_refill_tokens now rl) = buckets rl ∧ settled now (_refill_tokens now rl).
Proof.
  intros (Cm & Ch & Cb) ((Bm & Bh & Bb) & (Em & Qm) & (Eh & Qh) & Eb).
  pose proof usec_pos as Hu.
  assert (((now - minute_last_refill rl) * calls_per_minute (config rl)) ÷ (60 * usec) = 0)
    as Qm0 by (pose proof (Z.quot_pos ((now - minute_last_refill rl) *
                 calls_per_minute (config rl)) (60 * usec)); nia).
  assert (((now - hour_last_refill rl) * calls_per_hour (config rl)) ÷ (3600 * usec) = 0)
    as Qh0 by (pose proof (Z.quot_pos ((now - hour_last_refill rl) *
                 calls_per_hour (config rl)) (3600 * usec)); nia).
  destruct (refill_buckets now rl) as (Hmt & Hml & Hht & Hhl & Hbb).
  unfold refill_window in *.
  rewrite (bool_decide_false (60 * usec ≤ _)) in Hmt, Hml by lia.
  rewrite (bool_decide_false (3600 * usec ≤ _)) in Hht, Hhl by lia.
  rewrite (bool_decide_false (1 * usec ≤ _)) in Hbb by lia.
  rewrite Qm0 in Hmt, Hml. rewrite Qh0 in Hht, Hhl. simpl in *.
  injection Hbb as Hbt Hbl.
  assert (minute_tokens (_refill_tokens now rl) = minute_tokens rl) as Hm' by lia.
  assert (hour_tokens (_refill_tokens now rl) = hour_tokens rl) as Hh' by lia.
  split.
  - unfold buckets. by rewrite Hm', Hh', Hbt.
  - unfold settled, below_capacity.
    rewrite refill_config, Hm', Hh', Hbt, Hml, Hhl, Hbl. split_and!; lia.
Qed.

Lemma settled_consume tokens stamps now rl :
  0 ≤ tokens → settled now rl → settled now (consume tokens stamps rl).
Proof.
  intros Ht ((Bm & Bh & Bb) & ? & ? & ?).
  unfold settled, below_capacity; simpl. split_and!; try done; lia.
Qed.

(** At a settled instant the grants of a run of [try_acquire] calls come
    out of what the buckets hold. *)
Lemma try_acquire_all_settled requests now rl :
  config_ok (config rl) → in_range rl → settled now rl → Forall (λ t, 0 ≤ t) requests →
  let granted := (try_acquire_all requests now rl).1 in
  0 ≤ granted ∧ granted ≤ minute_tokens rl ∧ granted ≤ hour_tokens rl ∧
  granted ≤ burst_tokens rl.
Proof.
  intros Hc Hr Hs Hreqs. revert rl Hc Hr Hs.
  induction Hreqs as [|t rest Ht Hrest IH]; intros rl Hc Hr Hs; simpl.
  { destruct Hr as (? & ? & ?). lia. }
  destruct (settled_refill now rl Hc Hs) as [Hb Hs1].
  injection Hb as Hbm Hbh Hbb.
  assert (in_range (_refill_tokens now rl)) as Hr1.
  { unfold in_range. rewrite refill_config, Hbm, Hbh, Hbb. exact Hr. }
  unfold try_acquire.
  destruct (enough t (_refill_tokens now rl)) eqn:He.
  - specialize (IH (consume t (request_timestamps (_refill_tokens now rl) ++ [now])
                      (_refill_tokens now rl))).
    destruct (try_acquire_all rest now _) as [granted rl2]. simpl in *.
    destruct IH as (? & ? & ? & ?).
    + by rewrite refill_config.
    + by apply consume_in_range.
    + by apply settled_consume.
    + simpl in *. lia.
  - specialize (IH (_refill_tokens now rl)).
    destruct (try_acquire_all rest now _) as [granted rl2]. simpl in *.
    destruct IH as (? & ? & ? & ?); [by rewrite refill_config|done..|].
    lia.
Qed.

(** X2. However many [try_acquire] calls arrive at one instant, the tokens
    granted in total stay within the burst limit, and within the minute and
    hour limits. *)
Theorem grants_at_one_instant_within_limits requests now rl :
  good (now, rl) → Forall (λ t, 0 ≤ t) requests →
  let granted := (try_acquire_all requests now rl).1 in
  0 ≤ granted ∧
  granted ≤ burst_limit (config rl) ∧
  granted ≤ calls_per_minute (config rl) ∧
  granted ≤ calls_per_hour (config rl).
Proof.
  intros Hg Hreqs. simpl.
  destruct Hreqs as [|t rest Ht Hrest]; simpl.
  { destruct Hg as ((? & ? & ?) & _). simpl in *. lia. }
  pose proof (good_refill now rl Hg) as (Hc1 & Hr1 & _). simpl in *.
  pose proof (good_refill_settled now rl Hg) as Hs1.
  pose proof (refill_config now rl) as Hcfg.
  destruct Hr1 as (Rm & Rh & Rb). rewrite Hcfg in *.
  unfold try_acquire.
  destruct (enough t (_refill_tokens now rl)) eqn:He.
  - pose proof (try_acquire_all_settled rest now
        (consume t (request_timestamps (_refill_tokens now rl) ++ [now])
           (_refill_tokens now rl))) as H.
    destruct (try_acquire_all rest now _) as [granted rl2]. simpl in *.
    destruct H as (? & ? & ? & ?).
    + by rewrite Hcfg.
    + apply consume_in_range; [done..|]. unfold in_range. by rewrite Hcfg.
    + by apply settled_consume.
    + done.
    + lia.
  - pose proof (try_acquire_all_settled rest now (_refill_tokens now rl)) as H.
    destruct (try_acquire_all rest now _) as [granted rl2]. simpl in *.
    destruct H as (? & ? & ? & ?); [by rewrite Hcfg| |done..|lia].
    unfold in_range. by rewrite Hcfg.
Qed.

Lemma grants_at_one_instant_within_limits_witness :
  (try_acquire_all [4; 4; 4; 2; 1] 5000000 (init default_config 0)).1 = 10 ∧
  (try_acquire_all [4; 4; 4; 2; 1] 5000000 (init default_config 0)).1 ≤ 10.
Proof.
  split; [vm_compute; reflexivity|].
  apply (grants_at_one_instant_within_limits [4; 4; 4; 2; 1] 5000000 (init default_config 0)).
  - eapply good_later; [apply init_good|lia]. unfold config_ok; simpl. lia.
  - repeat constructor; lia.
Defined.

(** X3. After [reset], whatever happened before, a request that fits every
    bucket is granted at once, at any later instant. *)
Theorem reset_readmits tokens now now' rl :
  config_ok (config rl) → fits tokens (config rl) → now ≤ now' →
  (try_acquire tokens now' (reset now rl)).1 = true ∧
  buckets (reset now rl) =
    (calls_per_minute (config rl), calls_per_hour (config rl), burst_limit (config rl)) ∧
  request_timestamps (reset now rl) = [].
Proof.
  intros Hc (Fm & Fh & Fb) Hnow. split; [|done].
  assert (good (now, reset now rl)) as Hg by by apply init_good.
  destruct (refill_monotone now now' (reset now rl) Hg Hnow) as (Mm & Mh & Mb).
  unfold try_acquire.
  assert (enough tokens (_refill_tokens now' (reset now rl)) = true) as ->; [|done].
  apply enough_spec. simpl in *. lia.
Qed.

Lemma reset_readmits_witness :
  let spent := (try_acquire 10 0 (init default_config 0)).2 in
  (try_acquire 10 0 spent).1 = false ∧ (try_acquire 10 7 (reset 7 spent)).1 = true.
Proof.
  intros spent. split; [vm_compute; reflexivity|].
  apply (reset_readmits 10 7 7 spent).
  - unfold config_ok; simpl. lia.
  - unfold fits; simpl. lia.
  - lia.
Defined.

Lemma length_filter_impl {A} (P Q : A → Prop) `{!∀ x, Decision (P x), !∀ x, Decision (Q x)}
    (l : list A) :
  (∀ x, P x → Q x) → (length (filter P l) ≤ length (filter Q l))%nat.
Proof.
  intros Himp. induction l as [|a l IH]; [done|].
  rewrite !filter_cons. destruct (decide (P a)) as [Hp|Hp].
  - rewrite decide_True by auto. simpl. lia.
  - destruct (decide (Q a)); simpl; lia.
Qed.

Lemma acquire_stamps oversleep tokens now rl :
  let r := acquire oversleep tokens now rl in
  r.1.1.1 = Acquired →
  Forall (λ ts, r.1.1.2 - 3600 * usec < ts) (request_timestamps r.1.2) ∧
  r.1.1.2 ∈ request_timestamps r.1.2.
Proof.
  simpl. revert now rl. induction oversleep as [|d rest IH]; intros now rl; simpl;
    destruct (enough tokens (_refill_tokens now rl)) eqn:He; simpl; try done.
  - intros _. split.
    + apply Forall_forall. by intros x [? _]%list_elem_of_filter.
    + pose proof usec_pos. apply list_elem_of_filter. split; [lia|].
      apply elem_of_app. right. by left.
  - intros _. split.
    + apply Forall_forall. by intros x [? _]%list_elem_of_filter.
    + pose proof usec_pos. apply list_elem_of_filter. split; [lia|].
      apply elem_of_app. right. by left.
  - apply IH.
Qed.

(** X4. [get_status] never counts more requests for the last minute than
    for the last hour, nor more for the last hour than are recorded; and
    read at the instant of a grant by [acquire] it counts every recorded
    request, the one just granted included, in the last hour. *)
Theorem status_counts oversleep tokens now current_time rl :
  (requests_last_minute (get_status current_time rl)
     ≤ requests_last_hour (get_status current_time rl))%nat ∧
  (requests_last_hour (get_status current_time rl) ≤ length (request_timestamps rl))%nat ∧
  (let r := acquire oversleep tokens now rl in
   r.1.1.1 = Acquired →
   requests_last_hour (get_status r.1.1.2 r.1.2) = length (request_timestamps r.1.2) ∧
   (1 ≤ requests_last_hour (get_status r.1.1.2 r.1.2))%nat).
Proof.
  pose proof usec_pos. split_and!.
  - simpl. apply length_filter_impl. intros x. lia.
  - simpl. apply length_filter.
  - intros r Hacq. destruct (acquire_stamps oversleep tokens now rl Hacq) as [Hall Hin].
    fold r in Hall, Hin. simpl.
    rewrite CacheFacts.filter_all by (by apply Forall_forall).
    split; [done|]. destruct (request_timestamps r.1.2); [by apply elem_of_nil in Hin|].
    simpl. lia.
Qed.

Lemma status_counts_witness :
  let r := acquire [] 1 5 (init default_config 0) in
  requests_last_hour (get_status r.1.1.2 r.1.2) = 1%nat.
Proof.
  intros r.
  destruct (status_counts [] 1 5 0 (init default_config 0)) as (_ & _ & H).
  destruct H as [H _]; [vm_compute; reflexivity|].
  etrans; [exact H|]. vm_compute. reflexivity.
Defined.

End RateLimiterExtFacts.

(** ** The adaptive limiter *)

Module AdaptiveFacts.
Import AdaptiveRateLimiter.

#[local] Arguments RateLimiter._refill_tokens : simpl never.
#[local] Arguments RateLimiter.wait_time : simpl never.

Lemma usec_tenth : usec / 10 = 100000.
Proof. reflexivity. Qed.

Lemma ceiling_range error_type : 10 * usec ≤ ceiling error_type ≤ 60 * usec.
Proof.
  unfold ceiling. pose proof RateLimiterFacts.usec_pos.
  destruct (contains "quota" _); [lia|]. destruct (contains "rate" _); lia.
Qed.

Lemma record_error_delay error_type now a :
  adaptive_delay (record_error error_type now a) ≤ ceiling error_type ∧
  (0 ≤ adaptive_delay a → 0 ≤ adaptive_delay (record_error error_type now a)) ∧
  (adaptive_delay a < ceiling error_type →
   adaptive_delay a < adaptive_delay (record_error error_type now a)) ∧
  (ceiling error_type < adaptive_delay a →
   adaptive_delay (record_error error_type now a) = ceiling error_type).
Proof.
  unfold record_error, ceiling. simpl. pose proof RateLimiterFacts.usec_pos.
  destruct (contains "quota" _); [lia|]. destruct (contains "rate" _); lia.
Qed.

Lemma record_success_delay a :
  0 ≤ adaptive_delay a →
  0 ≤ adaptive_delay (record_success a) ≤ adaptive_delay a ∧
  (0 < adaptive_delay a → adaptive_delay (record_success a) < adaptive_delay a).
Proof.
  unfold record_success. simpl. rewrite usec_tenth.
  case_bool_decide; lia.
Qed.

(** X5. Whatever successes and errors are reported, in whatever order, the
    adaptive delay stays between zero and sixty seconds. *)
Theorem adaptive_delay_bounded feedbacks a :
  0 ≤ adaptive_delay a ≤ 60 * usec →
  0 ≤ adaptive_delay (foldl (λ a f, record f a) a feedbacks) ≤ 60 * usec.
Proof.
  revert a. induction feedbacks as [|f fs IH]; intros a Ha; [done|].
  simpl. apply IH. destruct f as [|error_type now]; unfold record.
  - destruct (record_success_delay a) as [? _]; lia.
  - destruct (record_error_delay error_type now a) as (? & ? & _).
    pose proof (ceiling_range error_type). lia.
Qed.

Lemma adaptive_delay_bounded_witness :
  let a := foldl (λ a f, record f a) (init RateLimiter.default_config 0)
             [Error "quotaExceeded" 1; Error "quotaExceeded" 2; Success; Error "timeout" 3] in
  0 ≤ adaptive_delay a ≤ 60 * usec.
Proof.
  intros a. apply adaptive_delay_bounded. vm_compute. split; intros [=].
Defined.

(** X6. [record_error] leaves the delay at or below the ceiling of the
    reported error type (60 s for quota, 30 s for rate, 10 s otherwise): it
    lengthens a delay that is below that ceiling and cuts one that is above
    it down to the ceiling, so an error of a lesser type shortens the delay
    that quota errors have built up. *)
Theorem record_error_moves_delay_to_ceiling error_type now a :
  0 ≤ adaptive_delay a →
  let a' := record_error error_type now a in
  0 ≤ adaptive_delay a' ≤ ceiling error_type ∧
  (adaptive_delay a < ceiling error_type → adaptive_delay a < adaptive_delay a') ∧
  (ceiling error_type < adaptive_delay a →
   adaptive_delay a' = ceiling error_type ∧ adaptive_delay a' < adaptive_delay a) ∧
  error_count a' = error_count a + 1 ∧ success_count a' = success_count a ∧
  last_error_time a' = now.
Proof.
  intros Ha. destruct (record_error_delay error_type now a) as (H1 & H2 & H3 & H4).
  cbv zeta. split_and!; try done; try (by apply H2).
  intros Hgt. split; [by apply H4|]. by rewrite H4.
Qed.

Lemma record_error_moves_delay_to_ceiling_witness :
  let a := foldl (λ a f, record f a) (init RateLimiter.default_config 0)
             (replicate 6 (Error "quota" 1)) in
  adaptive_delay a = 60 * usec ∧
  adaptive_delay (record_error "connection reset" 2 a) = 10 * usec.
Proof.
  intros a. split; [vm_compute; reflexivity|].
  destruct (record_error_moves_delay_to_ceiling "connection reset" 2 a) as (_ & _ & H & _).
  - vm_compute. intros [=].
  - destruct H as [H _]; [vm_compute; reflexivity|]. etrans; [exact H|].
    vm_compute. reflexivity.
Defined.

(** X7. [record_success] never lengthens the delay and never takes it
    below zero; a positive delay gets strictly shorter; the error count and
    the limiter itself are left alone. *)
Theorem record_success_shortens_delay a :
  0 ≤ adaptive_delay a →
  let a' := record_success a in
  0 ≤ adaptive_delay a' ≤ adaptive_delay a ∧
  (0 < adaptive_delay a → adaptive_delay a' < adaptive_delay a) ∧
  success_count a' = success_count a + 1 ∧ error_count a' = error_count a ∧
  base a' = base a.
Proof.
  intros Ha. destruct (record_success_delay a Ha) as [H1 H2]. cbv zeta.
  split_and!; try done; lia.
Qed.

Lemma record_success_shortens_delay_witness :
  let a := record_error "rate limit" 1 (init RateLimiter.default_config 0) in
  adaptive_delay (record_success a) < adaptive_delay a.
Proof.
  intros a. destruct (record_success_shortens_delay a) as (_ & H & _).
  - vm_compute. intros [=].
  - apply H. vm_compute. reflexivity.
Defined.

Lemma base_acquire_not_before oversleep tokens now rl :
  Forall (λ d, 0 ≤ d) oversleep →
  now ≤ (RateLimiter.acquire oversleep tokens now rl).1.1.2.
Proof.
  intros Hds. revert now rl. induction Hds as [|d rest Hd Hds IH]; intros now rl; simpl;
    destruct (RateLimiter.enough tokens (RateLimiter._refill_tokens now rl)); simpl; try lia.
  pose proof (RateLimiterFacts.wait_time_pos tokens now (RateLimiter._refill_tokens now rl)).
  etrans; [|apply IH]. lia.
Qed.

(** X8. The adaptive [acquire] sleeps the whole adaptive delay before it
    asks for admission: a grant is never earlier than the call plus the
    delay, what happens after that sleep is the plain [acquire] started
    then, and the delay and the counters are not touched. *)
Theorem adaptive_acquire_after_delay oversleep tokens now a :
  Forall (λ d, 0 ≤ d) oversleep → 0 ≤ adaptive_delay a →
  let r := acquire oversleep tokens now a in
  (r.1.1.1 = RateLimiter.Acquired → now + adaptive_delay a ≤ r.1.1.2) ∧
  (∀ d rest, 0 < adaptive_delay a → oversleep = d :: rest →
     (r.1.1.1, r.1.1.2, base r.1.2, r.2)
       = RateLimiter.acquire rest tokens (now + adaptive_delay a + d) (base a)) ∧
  adaptive_delay r.1.2 = adaptive_delay a ∧ error_count r.1.2 = error_count a ∧
  success_count r.1.2 = success_count a.
Proof.
  intros Hds Ha. simpl. unfold acquire.
  case_bool_decide as Hpos.
  - destruct Hds as [|d rest Hd Hds]; [done|].
    pose proof (base_acquire_not_before rest tokens (now + adaptive_delay a + d) (base a) Hds).
    destruct (RateLimiter.acquire rest tokens _ (base a)) as [[[st now'] rl] rest'] eqn:E.
    simpl in *. split_and!; try done; [lia|].
    intros d' rest'' _ [= <- <-]. by rewrite E.
  - pose proof (base_acquire_not_before oversleep tokens now (base a) Hds).
    destruct (RateLimiter.acquire oversleep tokens now (base a)) as [[[st now'] rl] rest'].
    simpl in *. split_and!; try done; lia.
Qed.

Lemma adaptive_acquire_after_delay_witness :
  let a := record_error "quota" 1 (init RateLimiter.default_config 0) in
  let r := acquire [0] 1 5 a in
  r.1.1.1 = RateLimiter.Acquired ∧ 5 + 10 * usec ≤ r.1.1.2.
Proof.
  intros a r. split; [vm_compute; reflexivity|].
  destruct (adaptive_acquire_after_delay [0] 1 5 a) as (H & _).
  - repeat constructor; lia.
  - vm_compute. intros [=].
  - etrans; [|apply H; vm_compute; reflexivity]. vm_compute. intros [=].
Defined.

End AdaptiveFacts.

(** ** The cache: lookups, deletions, patterns *)

Module CacheOpsFacts.
Import CacheManager CacheOps DictFacts CacheFacts.

Section dict.
Context {V : Type}.
Implicit Types (d : list (string * V)) (k : string) (v : V).

Lemma dict_get_None k d : dict_get k d = None ↔ k ∉ d.*1.
Proof.
  induction d as [|[k' v'] d IH]; simpl.
  - split; [intros _; apply not_elem_of_nil|done].
  - csimpl. rewrite not_elem_of_cons. destruct (decide (k = k')) as [->|Hne].
    + split; [done|]. intros [? _]. done.
    + rewrite IH. tauto.
Qed.

Lemma dict_get_Some_key k v d : dict_get k d = Some v → k ∈ d.*1.
Proof.
  intros Hget. destruct (decide (k ∈ d.*1)) as [|Hn]; [done|].
  apply dict_get_None in Hn. congruence.
Qed.

Lemma dict_get_filter (P : string → Prop) `{!∀ x, Decision (P x)} k d :
  dict_get k (filter (λ kv, P kv.1) d) = if decide (P k) then dict_get k d else None.
Proof.
  induction d as [|[k' v'] d IH]; simpl.
  - by destruct (decide (P k)).
  - rewrite filter_cons. simpl. destruct (decide (P k')) as [Hk'|Hk']; simpl.
    + destruct (decide (k = k')) as [->|Hne]; [|done]. by destruct (decide (P k')).
    + rewrite IH. destruct (decide (k = k')) as [->|Hne]; [|done]. by destruct (decide (P k')).
Qed.

Lemma dict_get_del_all ks k d :
  NoDup d.*1 → dict_get k (dict_del_all ks d) = if decide (k ∈ ks) then None else dict_get k d.
Proof.
  intros Hd. rewrite dict_del_all_filter by done.
  pose proof (dict_get_filter (λ k, k ∉ ks) k d) as Hf. simpl in Hf. rewrite Hf.
  destruct (decide (k ∈ ks)), (decide (k ∉ ks)); done.
Qed.

Lemma dict_get_del k k' d :
  NoDup d.*1 → dict_get k (dict_del k' d) = if decide (k = k') then None else dict_get k d.
Proof.
  intros Hd. rewrite dict_del_filter by done.
  pose proof (dict_get_filter (λ k, k ≠ k') k d) as Hf. simpl in Hf. rewrite Hf.
  destruct (decide (k = k')), (decide (k ≠ k')); done.
Qed.

Lemma dict_get_set_ne k k' v d : k ≠ k' → dict_get k (dict_set k' v d) = dict_get k d.
Proof.
  intros Hne. induction d as [|[k'' v''] d IH]; simpl.
  - by rewrite decide_False.
  - destruct (decide (k' = k'')) as [->|Hne']; simpl.
    + by rewrite !decide_False.
    + destruct (decide (k = k'')); done.
Qed.

Lemma dict_del_length k d :
  length (dict_del k d) = if decide (k ∈ d.*1) then pred (length d) else length d.
Proof.
  induction d as [|[k' v'] d IH].
  - destruct (decide (k ∈ ([] : list (string * V)).*1)) as [H|]; [|done].
    by apply elem_of_nil in H.
  - change (((k', v') :: d).*1) with (k' :: d.*1). simpl.
    destruct (decide (k = k')) as [->|Hne].
    + destruct (decide (k' ∈ k' :: d.*1)) as [|Hn]; [done|]. destruct Hn. left.
    + simpl. rewrite IH. destruct (decide (k ∈ d.*1)) as [Hin|Hnin].
      * destruct (decide (k ∈ k' :: d.*1)) as [|Hn]; [|destruct Hn; by right].
        destruct d; [by apply elem_of_nil in Hin|done].
      * destruct (decide (k ∈ k' :: d.*1)) as [Hin|]; [|done].
        apply elem_of_cons in Hin as [?|?]; done.
Qed.
End dict.

Lemma cleanup_sub now cm x :
  keys_ok cm → x ∈ memory_cache (_cleanup_memory_cache now cm).2 →
  x ∈ memory_cache cm ∧ now < expires_at x.2.
Proof.
  unfold keys_ok, _cleanup_memory_cache. intros Hc.
  rewrite expired_removed by done.
  assert (NoDup (live now (memory_cache cm)).*1) as Hl by by apply keys_filter_NoDup.
  assert (∀ z, z ∈ live now (memory_cache cm) →
               z ∈ memory_cache cm ∧ now < expires_at z.2) as Hlive.
  { intros z. unfold live. rewrite list_elem_of_filter. tauto. }
  repeat case_bool_decide; simpl; try apply Hlive;
    rewrite dict_del_all_filter by done; intros [_ ?]%list_elem_of_filter; by apply Hlive.
Qed.

(** X16. The cleanup that precedes every insert leaves only entries that
    were stored and are still live; while the live entries number less than
    the maximum it removes nothing but expired entries, and when they
    reach the maximum it evicts just enough to leave room for one. *)
Theorem cleanup_keeps_live_entries now cm :
  keys_ok cm →
  let c' := memory_cache (_cleanup_memory_cache now cm).2 in
  let alive := live now (memory_cache cm) in
  (∀ x, x ∈ c' → x ∈ memory_cache cm ∧ now < expires_at x.2) ∧
  (Z.of_nat (length alive) < memory_cache_max_size cm → c' = alive) ∧
  (1 ≤ memory_cache_max_size cm ≤ Z.of_nat (length alive) →
   Z.of_nat (length c') = memory_cache_max_size cm - 1).
Proof.
  intros Hk. cbv zeta. split_and!.
  - intros x. by apply cleanup_sub.
  - intros Hroom. unfold _cleanup_memory_cache. rewrite expired_removed by done.
    by rewrite bool_decide_false by lia.
  - intros Hfull. unfold _cleanup_memory_cache. rewrite expired_removed by done.
    assert (NoDup (live now (memory_cache cm)).*1) as Hl by by apply keys_filter_NoDup.
    pose proof (sorted_by_expiry_perm (live now (memory_cache cm))) as Hperm.
    assert (length (sorted_by_expiry (live now (memory_cache cm)))
            = length (live now (memory_cache cm))) as Hlen by by rewrite Hperm.
    rewrite bool_decide_true by lia. rewrite Hlen.
    rewrite bool_decide_false by lia. simpl.
    rewrite (evicted_perm _ _ (sorted_by_expiry (live now (memory_cache cm)))) by done.
    rewrite length_drop. lia.
Qed.

Section ops.
Variable md5_hexdigest : string → string.
Variable settings : Settings.

#[local] Abbreviation key_of := (_generate_cache_key md5_hexdigest).
#[local] Abbreviation get := (get md5_hexdigest settings).
#[local] Abbreviation set := (set md5_hexdigest settings).
#[local] Abbreviation delete := (delete md5_hexdigest).
#[local] Abbreviation exists_ := (exists_ md5_hexdigest).

Lemma set_keys_ok key v ttl now cm : keys_ok cm → keys_ok (set key v ttl now cm).2.
Proof.
  intros Hk. unfold CacheManager.set.
  destruct (enable_caching settings); simpl; [|done].
  pose proof (cleanup_keys_ok now cm Hk) as Hk'.
  destruct (_cleanup_memory_cache now cm) as [[e|] cm1]; simpl in *; [done|].
  destruct (expiry now (ttl_or_default ttl cm)); simpl; [|done].
  by apply dict_set_NoDup.
Qed.

(** X9. With caching on and room for at least one entry: what [set]
    stores, [get] returns under the same key until the entry expires, and
    from the expiry instant on [get] returns [None] and the entry is gone
    from the cache. That is when the expiry, [ttl] seconds from now, is a
    date that a [datetime] can hold; when it is not, [set] raises
    [OverflowError] once the cleanup is done, and stores nothing. *)
Theorem set_get_round_trip key v ttl now now' cm :
  enable_caching settings = true → 1 ≤ memory_cache_max_size cm → keys_ok cm →
  let r := set key v ttl now cm in
  let seconds := ttl_or_default ttl cm in
  let expires := now + seconds * usec in
  (timedelta_ok seconds ∧ datetime_ok expires →
   r.1 = inr true ∧
   (now' < expires → get key now' r.2 = (v, r.2)) ∧
   (expires ≤ now' →
    (get key now' r.2).1 = VNone ∧
    dict_get (key_of key) (memory_cache (get key now' r.2).2) = None)) ∧
  (¬ (timedelta_ok seconds ∧ datetime_ok expires) →
   r = (inl (OverflowError "date value out of range"), (_cleanup_memory_cache now cm).2)).
Proof.
  intros Hen Hroom Hk. cbv zeta. split.
  - intros [Ht Hd].
    destruct (set_stores md5_hexdigest settings key v ttl now cm Hen Hroom Ht Hd)
      as [Hok Hstored].
    pose proof (set_keys_ok key v ttl now cm Hk) as Hk1.
    split; [done|]. split.
    + intros Hlive.
      by apply (get_live _ _ _ _ _ (mkEntry v (now + ttl_or_default ttl cm * usec))).
    + intros Hdead. unfold CacheManager.get. rewrite Hen, Hstored. simpl.
      rewrite bool_decide_false by lia. simpl. split; [done|].
      rewrite dict_get_del by done. by rewrite decide_True.
  - intros Hno%expiry_None. unfold CacheManager.set. rewrite Hen. simpl.
    pose proof (cleanup_raises_only_without_room now cm) as Hraise.
    destruct (_cleanup_memory_cache now cm) as [[e|] cm1]; simpl in *.
    + specialize (Hraise e eq_refl). lia.
    + by rewrite Hno.
Qed.

(** X10. With caching on, [exists] and [get] agree: [exists] answers
    [True] exactly when a live entry is stored under the key, [get] then
    returns its value, and when [exists] answers [False] [get] returns
    [None]; both leave the cache in the same state, deleting an entry they
    find expired. *)
Theorem exists_agrees_with_get key now cm :
  enable_caching settings = true →
  (exists_ key now cm).2 = (get key now cm).2 ∧
  ((exists_ key now cm).1 = true ↔
   ∃ entry, dict_get (key_of key) (memory_cache cm) = Some entry ∧ now < expires_at entry) ∧
  (∀ entry, dict_get (key_of key) (memory_cache cm) = Some entry → now < expires_at entry →
     get key now cm = (value entry, cm) ∧ exists_ key now cm = (true, cm)) ∧
  ((exists_ key now cm).1 = false → (get key now cm).1 = VNone).
Proof.
  intros Hen. unfold CacheOps.exists_, CacheManager.get. rewrite Hen. simpl.
  destruct (dict_get (key_of key) (memory_cache cm)) as [entry|] eqn:Hget.
  - case_bool_decide as Hlive; simpl.
    + split_and!; try done.
      * split; [|done]. intros _. by exists entry.
      * intros entry' [= <-] _. done.
    + split_and!; try done.
      * split; [done|]. intros (entry' & [= <-] & ?). done.
      * intros entry' [= <-] ?. done.
  - split_and!; try done. split; [done|]. by intros (entry' & [=] & _).
Qed.

(** X11. After [delete] the key is gone: [exists] answers [False] and
    [get] returns [None] at every instant, the other keys are untouched and
    the cache is one entry smaller; [delete] answers [True] exactly when an
    entry was stored under the key, expired or not. *)
Theorem delete_removes_entry key now cm :
  keys_ok cm →
  let r := delete key cm in
  (r.1 = true ↔ key_of key ∈ (memory_cache cm).*1) ∧
  exists_ key now r.2 = (false, r.2) ∧
  get key now r.2 = (VNone, r.2) ∧
  (∀ k, k ≠ key_of key → dict_get k (memory_cache r.2) = dict_get k (memory_cache cm)) ∧
  size r.2 = size cm - (if r.1 then 1 else 0).
Proof.
  intros Hk. cbv zeta. unfold CacheOps.delete.
  destruct (dict_get (key_of key) (memory_cache cm)) as [entry|] eqn:Hget; simpl.
  - pose proof (dict_get_Some_key _ _ _ Hget) as Hin.
    assert (dict_get (key_of key) (dict_del (key_of key) (memory_cache cm)) = None) as Hgone.
    { rewrite dict_get_del by done. by rewrite decide_True. }
    split_and!.
    + done.
    + unfold CacheOps.exists_. simpl. by rewrite Hgone.
    + unfold CacheManager.get. simpl. rewrite Hgone. by destruct (enable_caching settings).
    + intros k Hne. rewrite dict_get_del by done. by rewrite decide_False.
    + unfold size. simpl. rewrite dict_del_length.
      destruct (decide (key_of key ∈ (memory_cache cm).*1)); [|done].
      destruct (memory_cache cm); [by apply elem_of_nil in Hin|]. simpl. lia.
  - pose proof (proj1 (dict_get_None _ _) Hget) as Hnin.
    split_and!.
    + split; [done|]. intros Hin. done.
    + unfold CacheOps.exists_. by rewrite Hget.
    + unfold CacheManager.get. rewrite Hget. by destruct (enable_caching settings).
    + done.
    + lia.
Qed.

Lemma length_filter_keys (P : string → Prop) `{!∀ x, Decision (P x)}
    (c : list (string * CacheEntry)) :
  length (filter P c.*1) = length (filter (λ kv, P kv.1) c).
Proof.
  induction c as [|[k e] c IH]; [done|].
  csimpl. rewrite !filter_cons. simpl. destruct (decide (P k)); simpl; by rewrite IH.
Qed.

Lemma key_of_star : remove_stars (key_of "*") = "ytce:" ∧ remove_stars (key_of "") = "ytce:".
Proof. done. Qed.

(** X12. [clear_pattern] removes exactly the entries whose key starts with
    the namespaced pattern with its stars taken out, and returns their
    number; on a cache all of whose keys carry the namespace prefix (as
    every key stored by [set] does) the pattern "*" empties the cache. *)
Theorem clear_pattern_removes_matching pattern cm :
  keys_ok cm →
  let p := remove_stars (key_of pattern) in
  let r := clear_pattern md5_hexdigest pattern cm in
  memory_cache r.2 = filter (λ kv, String.prefix p kv.1 ≠ true) (memory_cache cm) ∧
  r.1 = size cm - size r.2 ∧
  (prefixed cm → pattern = "*" ∨ pattern = "" → memory_cache r.2 = [] ∧ r.1 = size cm).
Proof.
  intros Hk. cbv zeta. unfold CacheOps.clear_pattern.
  set (p := remove_stars (key_of pattern)). simpl.
  assert (dict_del_all (filter (λ key, String.prefix p key = true) (memory_cache cm).*1)
            (memory_cache cm)
          = filter (λ kv, String.prefix p kv.1 ≠ true) (memory_cache cm)) as Hkept.
  { rewrite dict_del_all_filter by done. apply filter_ext_in. intros x Hx.
    rewrite list_elem_of_filter. split.
    - intros Hn Hp. apply Hn. split; [done|]. by apply list_elem_of_fmap_2.
    - intros Hn [Hp _]. done. }
  rewrite Hkept.
  assert (Z.of_nat (length (filter (λ key, String.prefix p key = true) (memory_cache cm).*1))
          = size cm - Z.of_nat (length (filter (λ kv, String.prefix p kv.1 ≠ true)
                                          (memory_cache cm)))) as Hcount.
  { rewrite (length_filter_keys (λ key, String.prefix p key = true)). unfold size.
    pose proof (filter_app_complement (λ kv : string * CacheEntry, String.prefix p kv.1 = true)
                  (memory_cache cm)) as Hperm.
    apply Permutation_length in Hperm. rewrite length_app in Hperm. lia. }
  split_and!; [done|exact Hcount|].
  intros Hpre Hstar.
  assert (p = "ytce:") as Hp by (unfold p; destruct Hstar as [-> | ->]; apply key_of_star).
  assert (filter (λ kv, String.prefix p kv.1 ≠ true) (memory_cache cm) = []) as Hnil.
  { apply filter_none. intros x Hx Hn. apply Hn. rewrite Hp.
    unfold prefixed in Hpre. rewrite Forall_forall in Hpre.
    apply Hpre. by apply list_elem_of_fmap_2. }
  rewrite Hnil in *. split; [done|]. rewrite Hcount. simpl. lia.
Qed.

Lemma key_of_prefixed key : String.prefix "ytce:" (key_of key) = true.
Proof. unfold _generate_cache_key. simpl. by destruct (if bool_decide _ then _ else _). Qed.

Lemma dict_set_keys_in {V} k v (d : list (string * V)) x :
  x ∈ (dict_set k v d).*1 → x = k ∨ x ∈ d.*1.
Proof.
  rewrite dict_set_keys. destruct (decide (k ∈ d.*1)); [by right|].
  rewrite elem_of_app, list_elem_of_singleton. tauto.
Qed.

(** Every key that [set] puts into the memory tier has the prefix. *)
Lemma set_prefixed key v ttl now cm :
  keys_ok cm → prefixed cm → prefixed (set key v ttl now cm).2.
Proof.
  intros Hk Hpre. unfold prefixed in *. rewrite Forall_forall in Hpre.
  apply Forall_forall. intros x Hx. unfold CacheManager.set in Hx.
  destruct (enable_caching settings); simpl in Hx; [|by apply Hpre].
  pose proof (cleanup_sub now cm) as Hsub.
  destruct (_cleanup_memory_cache now cm) as [[e|] cm1]; simpl in *.
  - apply list_elem_of_fmap in Hx as (y & -> & Hy). apply Hpre.
    apply list_elem_of_fmap_2. by apply Hsub.
  - destruct (expiry now (ttl_or_default ttl cm)); simpl in Hx.
    + apply dict_set_keys_in in Hx as [->|Hx]; [apply key_of_prefixed|].
      apply list_elem_of_fmap in Hx as (y & -> & Hy). apply Hpre.
      apply list_elem_of_fmap_2. by apply Hsub.
    + apply list_elem_of_fmap in Hx as (y & -> & Hy). apply Hpre.
      apply list_elem_of_fmap_2. by apply Hsub.
Qed.

Lemma reaped_refl now cm : keys_ok cm → reaped now cm cm.
Proof. intros Hk. split; [done|]. intros ck. by left. Qed.

Lemma get_reaped key now cm cm' :
  reaped now cm cm' →
  (get key now cm').1 = (get key now cm).1 ∧ reaped now cm (get key now cm').2.
Proof.
  intros [Hk Hsame]. unfold CacheManager.get.
  destruct (enable_caching settings); simpl; [|done].
  destruct (Hsame (key_of key)) as [Heq|(Hnone & e & He & Hdead)].
  - rewrite Heq. destruct (dict_get (key_of key) (memory_cache cm)) as [e|] eqn:He;
      [|done].
    case_bool_decide as Hlive; simpl; [done|]. split; [done|]. split.
    + unfold keys_ok in *. simpl. rewrite dict_del_filter by done.
      by apply keys_filter_NoDup.
    + intros ck. simpl. rewrite dict_get_del by done.
      destruct (decide (ck = key_of key)) as [->|Hne]; [|apply Hsame].
      right. split; [done|]. exists e. split; [done|lia].
  - rewrite Hnone, He. simpl. rewrite bool_decide_false by lia. done.
Qed.

(** What [get_many] has under a key when it is done: the value that
    [get] gives for the key, if the key was asked for and that value is not
    [None]; else what was there before. *)
Lemma get_many_from_lookup keys now cm cm' result k :
  reaped now cm cm' →
  dict_get k (get_many_from md5_hexdigest settings keys now cm' result).1 =
    if bool_decide (k ∈ keys) && negb (is_None (get k now cm).1)
    then Some (get k now cm).1 else dict_get k result.
Proof.
  revert cm' result. induction keys as [|key keys IH]; intros cm' result Hr; simpl.
  { done. }
  destruct (get_reaped key now cm cm' Hr) as [Hval Hr1].
  destruct (CacheManager.get md5_hexdigest settings key now cm') as [v cm1] eqn:Hg.
  simpl in Hval, Hr1. rewrite (IH cm1 _ Hr1). subst v.
  destruct (decide (k = key)) as [->|Hne].
  - rewrite (bool_decide_true (key ∈ key :: keys)) by left. simpl.
    destruct (is_None (get key now cm).1) eqn:Hn; simpl.
    + by rewrite andb_false_r.
    + rewrite andb_true_r. case_bool_decide; [done|]. by rewrite dict_get_set.
  - assert (bool_decide (k ∈ key :: keys) = bool_decide (k ∈ keys)) as ->.
    { apply bool_decide_ext. rewrite elem_of_cons. tauto. }
    destruct (bool_decide (k ∈ keys) && negb (is_None (get k now cm).1)); [done|].
    destruct (is_None (get key now cm).1); [done|]. by rewrite dict_get_set_ne.
Qed.

Lemma get_many_from_NoDup keys now cm result :
  NoDup result.*1 →
  NoDup (get_many_from md5_hexdigest settings keys now cm result).1.*1.
Proof.
  revert cm result. induction keys as [|key keys IH]; intros cm result Hnd; simpl; [done|].
  destruct (CacheManager.get md5_hexdigest settings key now cm) as [v cm1].
  apply IH. destruct (is_None v); [done|by apply dict_set_NoDup].
Qed.

(** X13. [get_many] reports exactly the keys that were asked for and for
    which [get] gives a value other than [None], each once and with that
    value: a key with no entry, with an expired entry or with a stored
    [None] is left out; with caching off the result is empty. *)
Theorem get_many_reports_only_values keys now cm :
  keys_ok cm →
  let r := get_many md5_hexdigest settings keys now cm in
  NoDup r.1.*1 ∧
  (∀ k v, dict_get k r.1 = Some v ↔ k ∈ keys ∧ v ≠ VNone ∧ (get k now cm).1 = v) ∧
  (∀ k, k ∈ keys →
        (dict_get (key_of k) (memory_cache cm) = None ∨
         (∃ e, dict_get (key_of k) (memory_cache cm) = Some e ∧
               (expires_at e ≤ now ∨ value e = VNone))) →
        dict_get k r.1 = None) ∧
  (enable_caching settings = false → r = ([], cm)).
Proof.
  intros Hk. cbv zeta. unfold get_many.
  pose proof (λ k, get_many_from_lookup keys now cm cm [] k (reaped_refl now cm Hk))
    as Hlookup.
  split_and!.
  - apply get_many_from_NoDup. constructor.
  - intros k v. rewrite Hlookup. simpl.
    destruct (decide (k ∈ keys)) as [Hin|Hout].
    + rewrite bool_decide_true by done. simpl.
      destruct (get k now cm).1 as [| | | | |] eqn:Hv; simpl;
        (split; [intros [= <-]; done|intros (_ & Hne & Heq); congruence]).
    + rewrite bool_decide_false by done. simpl. split; [done|]. by intros [? _].
  - intros k Hin Hcase. rewrite Hlookup. rewrite bool_decide_true by done. simpl.
    assert ((get k now cm).1 = VNone) as ->; [|done].
    unfold CacheManager.get. destruct (enable_caching settings); simpl; [|done].
    destruct Hcase as [->|(e & -> & [Hdead|Hnone])]; [done| |].
    + by rewrite bool_decide_false by lia.
    + case_bool_decide; [|done]. done.
  - intros Hoff. generalize (@nil (string * PyVal)).
    clear Hlookup. induction keys as [|key keys IH]; intros result; simpl; [done|].
    unfold CacheManager.get. rewrite Hoff. simpl. apply IH.
Qed.

Lemma set_max key v ttl now cm :
  memory_cache_max_size (set key v ttl now cm).2 = memory_cache_max_size cm ∧
  default_ttl (set key v ttl now cm).2 = default_ttl cm.
Proof.
  unfold CacheManager.set. destruct (enable_caching settings); simpl; [|done].
  assert (memory_cache_max_size (_cleanup_memory_cache now cm).2 = memory_cache_max_size cm ∧
          default_ttl (_cleanup_memory_cache now cm).2 = default_ttl cm) as Hc.
  { unfold _cleanup_memory_cache. by repeat case_bool_decide. }
  destruct (_cleanup_memory_cache now cm) as [[e|] cm1]; [done|].
  by destruct (expiry now (ttl_or_default ttl cm)).
Qed.

Lemma ttl_or_default_ext ttl cm cm' :
  default_ttl cm' = default_ttl cm → ttl_or_default ttl cm' = ttl_or_default ttl cm.
Proof. unfold ttl_or_default. by intros ->. Qed.

Lemma set_many_from_on items ttl now cm successful :
  enable_caching settings = true → 1 ≤ memory_cache_max_size cm →
  timedelta_ok (ttl_or_default ttl cm) →
  datetime_ok (now + ttl_or_default ttl cm * usec) →
  (set_many_from md5_hexdigest settings items ttl now cm successful).1
    = inr (successful + Z.of_nat (length items)).
Proof.
  intros Hen. revert cm successful.
  induction items as [|[key v] items IH]; intros cm successful Hroom Ht Hd; simpl.
  { f_equal. lia. }
  destruct (set_stores md5_hexdigest settings key v ttl now cm Hen Hroom Ht Hd) as [Hok _].
  destruct (set_max key v ttl now cm) as [Hmax Hdef].
  destruct (CacheManager.set md5_hexdigest settings key v ttl now cm) as [[e|ok] cm1];
    simpl in *; [done|].
  injection Hok as ->.
  rewrite IH; [f_equal; lia|lia|..]; by rewrite (ttl_or_default_ext ttl cm cm1).
Qed.

Lemma set_many_from_bounded items ttl now cm successful :
  keys_ok cm → 0 ≤ memory_cache_max_size cm → size cm ≤ memory_cache_max_size cm →
  size (set_many_from md5_hexdigest settings items ttl now cm successful).2
    ≤ memory_cache_max_size cm.
Proof.
  revert cm successful.
  induction items as [|[key v] items IH]; intros cm successful Hk Hmax Hsize; simpl; [done|].
  destruct (set_preserves md5_hexdigest settings key v ttl now cm Hk Hmax Hsize)
    as (Hk1 & Hm1 & Hs1).
  destruct (CacheManager.set md5_hexdigest settings key v ttl now cm) as [[e|ok] cm1];
    simpl in *; [done|].
  etrans; [apply IH|]; lia || done.
Qed.

(** X14. [set_many] returns the number of entries it stored: every one of
    them when caching is on, the cache may hold at least one entry and the
    expiry is a date that a [datetime] can hold; none (with the cache
    untouched) when caching is off. When the expiry is no such date, the
    first [set] raises [OverflowError] and [set_many] with it. The memory
    tier stays within its bound throughout. *)
Theorem set_many_counts items ttl now cm :
  let seconds := ttl_or_default ttl cm in
  (enable_caching settings = true → 1 ≤ memory_cache_max_size cm →
   timedelta_ok seconds → datetime_ok (now + seconds * usec) →
   (set_many md5_hexdigest settings items ttl now cm).1 = inr (Z.of_nat (length items))) ∧
  (enable_caching settings = true → 1 ≤ memory_cache_max_size cm →
   ¬ (timedelta_ok seconds ∧ datetime_ok (now + seconds * usec)) → items ≠ [] →
   (set_many md5_hexdigest settings items ttl now cm).1
   = inl (OverflowError "date value out of range")) ∧
  (enable_caching settings = false →
   set_many md5_hexdigest settings items ttl now cm = (inr 0, cm)) ∧
  (keys_ok cm → 0 ≤ memory_cache_max_size cm → size cm ≤ memory_cache_max_size cm →
   size (set_many md5_hexdigest settings items ttl now cm).2 ≤ memory_cache_max_size cm).
Proof.
  cbv zeta. unfold set_many. split_and!.
  - intros Hen Hroom Ht Hd. by rewrite set_many_from_on.
  - intros Hen Hroom Hno%expiry_None Hne.
    destruct items as [|[key v] items]; [done|]. simpl.
    unfold CacheManager.set. rewrite Hen. simpl.
    pose proof (cleanup_raises_only_without_room now cm) as Hraise.
    destruct (_cleanup_memory_cache now cm) as [[e|] cm1]; simpl in *.
    + specialize (Hraise e eq_refl). lia.
    + by rewrite Hno.
  - intros Hoff. generalize 0. induction items as [|[key v] items IH]; intros n;
      simpl; [done|].
    unfold CacheManager.set. rewrite Hoff. simpl. apply IH.
  - apply set_many_from_bounded.
Qed.

End ops.

Lemma exists_agrees_with_get_witness :
  let st := default_settings in
  let cm := (CacheManager.set Samples.digest st "a" VNone (Some 30) 0 (init st)).2 in
  (exists_ Samples.digest "a" 5 cm).1 = true ∧
  (CacheManager.get Samples.digest st "a" 5 cm).1 = VNone ∧
  (exists_ Samples.digest "a" 30000000 cm).2 = (CacheManager.get Samples.digest st "a" 30000000 cm).2.
Proof.
  intros st cm.
  destruct (exists_agrees_with_get Samples.digest st "a" 30000000 cm) as (H & _);
    [reflexivity|].
  split_and!; [vm_compute; reflexivity..|exact H].
Defined.

Lemma delete_removes_entry_witness :
  let st := default_settings in
  let cm := (CacheManager.set Samples.digest st "a" (VInt 1) (Some 30) 0 (init st)).2 in
  (delete Samples.digest "a" cm).1 = true ∧
  CacheManager.get Samples.digest st "a" 5 (delete Samples.digest "a" cm).2
    = (VNone, (delete Samples.digest "a" cm).2).
Proof.
  intros st cm.
  destruct (delete_removes_entry Samples.digest st "a" 5 cm) as (_ & _ & H & _).
  - vm_compute. repeat constructor. intros Hin. by apply elem_of_nil in Hin.
  - split; [vm_compute; reflexivity|exact H].
Defined.

Lemma clear_pattern_removes_matching_witness :
  let st := default_settings in
  let cm := set_many_at Samples.digest st
              [("search:1", VInt 1, None, 0); ("comments:x", VInt 2, None, 0);
               ("search:2", VInt 3, None, 0)] (init st) in
  (memory_cache (clear_pattern Samples.digest "search:*" cm).2).*1 = ["ytce:comments:x"] ∧
  (clear_pattern Samples.digest "search:*" cm).1 = size cm - 1.
Proof.
  intros st cm.
  destruct (clear_pattern_removes_matching Samples.digest "search:*" cm) as (_ & H & _).
  - destruct (set_many_preserves Samples.digest st
                [("search:1", VInt 1, None, 0); ("comments:x", VInt 2, None, 0);
                 ("search:2", VInt 3, None, 0)] (init st)) as (Hk & _).
    + constructor.
    + vm_compute. intros [=].
    + vm_compute. intros [=].
    + exact Hk.
  - split; [vm_compute; reflexivity|]. etrans; [exact H|]. vm_compute. reflexivity.
Defined.

Lemma set_get_round_trip_witness :
  let st := default_settings in
  let cm := (CacheManager.set Samples.digest st "a" (VInt 1) (Some 30) 0 (init st)).2 in
  CacheManager.get Samples.digest st "a" 29999999 cm = (VInt 1, cm) ∧
  (CacheManager.get Samples.digest st "a" 30000000 cm).1 = VNone ∧
  (CacheManager.set Samples.digest st "a" (VInt 1) (Some (10 ^ 12)) 0 (init st))
  = (inl (OverflowError "date value out of range"), init st).
Proof.
  intros st cm.
  destruct (set_get_round_trip Samples.digest st "a" (VInt 1) (Some 30) 0 29999999 (init st))
    as [H _]; [reflexivity|vm_compute; intros [=]|constructor|].
  destruct (set_get_round_trip Samples.digest st "a" (VInt 1) (Some 30) 0 30000000 (init st))
    as [H' _]; [reflexivity|vm_compute; intros [=]|constructor|].
  destruct (set_get_round_trip Samples.digest st "a" (VInt 1) (Some (10 ^ 12)) 0 0 (init st))
    as [_ H'']; [reflexivity|vm_compute; intros [=]|constructor|].
  assert (timedelta_ok 30 ∧ datetime_ok (0 + 30 * usec)) as Hok
    by (vm_compute; repeat split; intros [=]).
  split_and!.
  - destruct (H Hok) as (_ & Hget & _). apply Hget. vm_compute. reflexivity.
  - destruct (H' Hok) as (_ & _ & Hget). apply Hget. vm_compute. intros [=].
  - etrans; [apply H''|reflexivity].
    vm_compute. intros [_ [_ Hle]]. by apply Hle.
Defined.

Lemma set_many_counts_witness :
  (set_many Samples.digest default_settings [("a", VInt 1); ("b", VInt 2)] None 0
     (init default_settings)).1 = inr 2 ∧
  (set_many Samples.digest default_settings [("a", VInt 1); ("b", VInt 2)] (Some (10 ^ 12)) 0
     (init default_settings)).1 = inl (OverflowError "date value out of range").
Proof.
  split.
  - destruct (set_many_counts Samples.digest default_settings [("a", VInt 1); ("b", VInt 2)]
                None 0 (init default_settings)) as (H & _).
    apply H; [reflexivity|vm_compute; intros [=]|vm_compute; split; intros [=]..].
  - destruct (set_many_counts Samples.digest default_settings [("a", VInt 1); ("b", VInt 2)]
                (Some (10 ^ 12)) 0 (init default_settings)) as (_ & H & _).
    apply H; [reflexivity|vm_compute; intros [=]| |done].
    vm_compute. intros [_ [_ Hle]]. by apply Hle.
Defined.

Lemma get_many_reports_only_values_witness :
  let st := default_settings in
  let cm := set_many_at Samples.digest st
              [("a", VInt 1, None, 0); ("b", VNone, None, 0); ("d", VInt 4, Some 1, 0)]
              (init st) in
  let r := get_many Samples.digest st ["a"; "b"; "c"; "d"] 5000000 cm in
  dict_get "a" r.1 = Some (VInt 1) ∧ dict_get "b" r.1 = None ∧
  dict_get "c" r.1 = None ∧ dict_get "d" r.1 = None ∧
  r.1 = [("a", VInt 1)].
Proof.
  intros st cm r.
  destruct (get_many_reports_only_values Samples.digest st ["a"; "b"; "c"; "d"] 5000000 cm)
    as (_ & Hiff & Hout & _).
  - destruct (set_many_preserves Samples.digest st
                [("a", VInt 1, None, 0); ("b", VNone, None, 0); ("d", VInt 4, Some 1, 0)]
                (init st)) as (Hk & _).
    + constructor.
    + vm_compute. intros [=].
    + vm_compute. intros [=].
    + exact Hk.
  - split_and!.
    + apply Hiff. split_and!; [by repeat constructor|done|vm_compute; reflexivity].
    + apply Hout; [by repeat constructor|]. right. eexists.
      split; [vm_compute; reflexivity|by right].
    + apply Hout; [by repeat constructor|]. left. vm_compute. reflexivity.
    + apply Hout; [by repeat constructor|]. right. eexists.
      split; [vm_compute; reflexivity|]. left. vm_compute. intros [=].
    + vm_compute. reflexivity.
Defined.

Lemma cleanup_keeps_live_entries_witness :
  let st := mkSettings 10000 3600 2 true in
  let cm := set_many_at Samples.digest st
              [("a", VInt 1, Some 30, 0); ("b", VInt 2, Some 10, 0)] (init st) in
  Z.of_nat (length (memory_cache (_cleanup_memory_cache 5000000 cm).2)) = 1.
Proof.
  intros st cm.
  destruct (cleanup_keeps_live_entries 5000000 cm) as (_ & _ & H).
  - destruct (set_many_preserves Samples.digest st
                [("a", VInt 1, Some 30, 0); ("b", VInt 2, Some 10, 0)] (init st)) as (Hk & _).
    + constructor.
    + vm_compute. intros [=].
    + vm_compute. intros [=].
    + exact Hk.
  - etrans; [apply H|]; vm_compute; [split; intros [=]|reflexivity].
Defined.

End CacheOpsFacts.

(** ** The client: quota bound, failures, identifier lists *)

Module ClientExtFacts.
Import YouTubeAPI YouTubeAPIExt Samples.

#[local] Arguments YouTubeAPI.caching : simpl never.
#[local] Arguments CacheManager.set : simpl never.
#[local] Arguments CacheManager.get : simpl never.
#[local] Arguments RateLimiter.acquire : simpl never.
#[local] Arguments classify : simpl never.
#[local] Arguments handle : simpl never.

Section client.
Variable md5_hexdigest : string → string.
Variable py_hash : string → Z.
Variable settings : Settings.
Variable execute : list Request → Request → Upstream * Z.

#[local] Abbreviation _make_request := (_make_request md5_hexdigest settings execute).
#[local] Abbreviation after_cache := (after_cache md5_hexdigest settings execute).
#[local] Abbreviation make_requests := (make_requests md5_hexdigest settings execute).

Lemma effective_used_le now s :
  0 ≤ quota_limit s → quota_used s ≤ quota_limit s → effective_used now s ≤ quota_limit s.
Proof. unfold effective_used. case_bool_decide; lia. Qed.

Lemma after_cache_quota_bound req op key w :
  0 ≤ quota_limit (self w) → quota_used (self w) ≤ quota_limit (self w) →
  quota_used (self (after_cache req op key w).2) ≤ quota_limit (self w) ∧
  quota_limit (self (after_cache req op key w).2) = quota_limit (self w).
Proof.
  intros Hlim Hused. rewrite PipelineFacts.after_cache_run.
  destruct (PipelineFacts.check_quota_frame op w)
    as (_ & _ & _ & _ & _ & _ & Hl & Hco & Hu).
  pose proof (effective_used_le (clock w) (self w) Hlim Hused) as He.
  simpl in *.
  case_bool_decide as Hover; simpl; [by rewrite Hu, Hl|].
  destruct (RateLimiter.acquire _ _ _ _) as [[[st now] rl] rest].
  destruct st; simpl; [|by rewrite Hu, Hl].
  destruct (execute (issued w) req) as [answer latency].
  destruct answer as [result|status content|msg]; simpl; try (by rewrite Hu, Hl).
  assert (cost_of op (with_rate_limiter rl (self (_check_quota op w).2))
          = cost_of op (self w)) as Hcost by (unfold cost_of; simpl; by rewrite Hco).
  destruct (caching settings key); simpl.
  - destruct (CacheManager.set _ _ _ _ _ _ _) as [[e|b] cm]; simpl;
      rewrite Hu, Hl, Hcost; split; (lia || done).
  - rewrite Hu, Hl, Hcost. split; (lia || done).
Qed.

Lemma make_request_quota_bound req op key w :
  0 ≤ quota_limit (self w) → quota_used (self w) ≤ quota_limit (self w) →
  quota_used (self (_make_request req op key w).2) ≤ quota_limit (self w) ∧
  quota_limit (self (_make_request req op key w).2) = quota_limit (self w).
Proof.
  intros Hlim Hused. rewrite PipelineFacts.make_request_run. simpl.
  destruct (caching settings key) as [k|].
  - destruct (CacheManager.get _ _ _ _ _) as [v cm]. simpl.
    destruct (truthy v); simpl; [done|].
    exact (after_cache_quota_bound req op key
             (with_self (with_cache_manager cm (self w)) (entered req op key w)) Hlim Hused).
  - exact (after_cache_quota_bound req op key (entered req op key w) Hlim Hused).
Qed.

(** X17. The locally tracked usage never passes the limit: over any
    series of [_make_request] calls, whatever they ask for, however they end
    and however much time passes between them, [quota_used] stays at or
    below [quota_limit] (a limit that is not negative). *)
Theorem quota_never_overspent calls w :
  0 ≤ quota_limit (self w) → quota_used (self w) ≤ quota_limit (self w) →
  quota_used (self (make_requests calls w)) ≤ quota_limit (self w) ∧
  quota_limit (self (make_requests calls w)) = quota_limit (self w).
Proof.
  revert w. induction calls as [|[[[req op] key] pause] calls IH]; intros w Hlim Hused;
    [done|].
  simpl. destruct (make_request_quota_bound req op key w Hlim Hused) as [Hu Hl].
  destruct (IH (mkWorld (clock (_make_request req op key w).2 + pause)
                  (oversleeps (_make_request req op key w).2)
                  (self (_make_request req op key w).2)
                  (issued (_make_request req op key w).2)
                  (pipeline_log (_make_request req op key w).2))) as [Hu' Hl'].
  - simpl. lia.
  - simpl. lia.
  - simpl in *. split; [lia|congruence].
Qed.


(** X19. A request that the upstream refuses or that fails on the way
    uses up its admission by the rate limiter but is not counted against the
    quota and leaves nothing in the cache; the caller gets the classified
    error or, for an [HttpError] whose body does not decode, the
    [UnicodeDecodeError]. *)
Theorem failed_request_costs_no_quota req op key w status_or_msg :
  cache_hit md5_hexdigest settings key w = false →
  effective_used (clock w) (self w) + cost_of op (self w) ≤ quota_limit (self w) →
  (RateLimiter.acquire (oversleeps w) 1 (clock w) (rate_limiter (self w))).1.1.1
    = RateLimiter.Acquired →
  (execute (issued w) req).1 = match status_or_msg with
                               | inl (status, content) => UpHttpError status content
                               | inr msg => UpException msg
                               end →
  let r := _make_request req op key w in
  let w1 := match caching settings key with
            | Some k => (cache_get md5_hexdigest settings k w).2
            | None => w
            end in
  r.1 = Raise match status_or_msg with
              | inl (status, content) =>
                  if str_truthy content && negb (utf8_valid content) then Py decode_error
                  else classify (HttpError status content)
              | inr msg => classify (OtherException msg)
              end ∧
  quota_used (self r.2) = effective_used (clock w) (self w) ∧
  cache_manager (self r.2) = cache_manager (self w1) ∧
  rate_limiter (self r.2)
    = (RateLimiter.acquire (oversleeps w) 1 (clock w) (rate_limiter (self w))).1.2 ∧
  issued r.2 = issued w ++ [req].
Proof.
  intros Hmiss Hquota Hacq Hexec. cbv zeta.
  assert (∀ w', clock w' = clock w → oversleeps w' = oversleeps w → issued w' = issued w →
                quota_used (self w') = quota_used (self w) →
                quota_reset_time (self w') = quota_reset_time (self w) →
                quota_limit (self w') = quota_limit (self w) →
                operation_costs (self w') = operation_costs (self w) →
                rate_limiter (self w') = rate_limiter (self w) →
    (after_cache req op key w').1
      = Raise match status_or_msg with
              | inl (status, content) =>
                  if str_truthy content && negb (utf8_valid content) then Py decode_error
                  else classify (HttpError status content)
              | inr msg => classify (OtherException msg)
              end ∧
    quota_used (self (after_cache req op key w').2) = effective_used (clock w) (self w) ∧
    cache_manager (self (after_cache req op key w').2) = cache_manager (self w') ∧
    rate_limiter (self (after_cache req op key w').2)
      = (RateLimiter.acquire (oversleeps w) 1 (clock w) (rate_limiter (self w))).1.2 ∧
    issued (after_cache req op key w').2 = issued w ++ [req]) as Hafter.
  { intros w' Hc Ho Hi Hu Hr Hl Hco Hrl. rewrite PipelineFacts.after_cache_run.
    destruct (PipelineFacts.check_quota_frame op w')
      as (_ & _ & _ & _ & _ & Hcm & _ & _ & Hused).
    assert (effective_used (clock w') (self w') = effective_used (clock w) (self w)) as He
      by (unfold effective_used; by rewrite Hc, Hu, Hr).
    assert (cost_of op (self w') = cost_of op (self w)) as Hcost
      by (unfold cost_of; by rewrite Hco).
    simpl in *. rewrite He, Hcost, Hl, Ho, Hc, Hrl, Hi in *.
    rewrite bool_decide_false by lia.
    destruct (RateLimiter.acquire _ _ _ _) as [[[st now] rl] rest]. simpl in Hacq.
    subst st. destruct (execute (issued w) req) as [answer latency]. simpl in Hexec.
    subst answer. destruct status_or_msg as [[status content]|msg]; simpl; by rewrite Hcm. }
  rewrite PipelineFacts.make_request_run. simpl.
  unfold YouTubeAPI.cache_hit in Hmiss. unfold cache_get.
  destruct (caching settings key) as [k|].
  - destruct (CacheManager.get _ _ _ _ _) as [v cm]. simpl in *. rewrite Hmiss.
    by apply (Hafter (with_self (with_cache_manager cm (self w)) (entered req op key w))).
  - by apply (Hafter (entered req op key w)).
Qed.

(** X20. [get_video_details] looks at the first fifty identifiers only: a
    longer list gives the same call, the same cache key and the same result
    as its first fifty; the empty list gives the empty result without any
    call. *)
Theorem video_details_first_fifty_only ids w :
  get_video_details md5_hexdigest py_hash settings execute ids w
    = get_video_details md5_hexdigest py_hash settings execute (take 50 ids) w ∧
  video_details_cache_key py_hash ids = video_details_cache_key py_hash (take 50 ids) ∧
  get_video_details md5_hexdigest py_hash settings execute [] w = (Return empty_items, w) ∧
  get_channel_details md5_hexdigest py_hash settings execute ids w
    = get_channel_details md5_hexdigest py_hash settings execute (take 50 ids) w ∧
  get_channel_details md5_hexdigest py_hash settings execute [] w = (Return empty_items, w).
Proof.
  unfold get_video_details, video_details_cache_key, get_channel_details,
    channel_details_cache_key.
  rewrite take_take, Nat.min_id.
  split_and!; try done; (destruct ids as [|x l]; [done|]; by rewrite !bool_decide_false).
Qed.

End client.


Lemma quota_never_overspent_witness :
  let w := world 1000 9850 [] [] in
  let calls := [(some_request, "search", None, 5); (some_request, "search", None, 5);
                (some_request, "videos", None, 5)] in
  quota_used (self (make_requests digest default_settings upstream_ok calls w)) = 9951.
Proof.
  intros w calls.
  destruct (quota_never_overspent digest default_settings upstream_ok calls w) as [H _].
  - vm_compute. intros [=].
  - vm_compute. intros [=].
  - assert (quota_used (self (make_requests digest default_settings upstream_ok calls w))
            ≤ 10000) as _ by exact H.
    vm_compute. reflexivity.
Defined.

Lemma failed_request_costs_no_quota_witness :
  let w := world 1000 0 [] [] in
  let r := _make_request digest default_settings upstream_forbidden some_request "search"
             (Some "search:1") w in
  quota_used (self r.2) = 0 ∧
  RateLimiter.burst_tokens (rate_limiter (self r.2)) = 9 ∧
  CacheManager.memory_cache (cache_manager (self r.2)) = [].
Proof.
  intros w r.
  destruct (failed_request_costs_no_quota digest default_settings upstream_forbidden
              some_request "search" (Some "search:1") w
              (inl (403, "The request cannot be completed because of insufficient permissions")))
    as (_ & H1 & H2 & H3 & _).
  - vm_compute. reflexivity.
  - vm_compute. intros [=].
  - vm_compute. reflexivity.
  - reflexivity.
  - split_and!.
    + etrans; [exact H1|]. vm_compute. reflexivity.
    + fold r in H3. rewrite H3. vm_compute. reflexivity.
    + fold r in H2. rewrite H2. vm_compute. reflexivity.
Defined.

End ClientExtFacts.

(** ** Transcripts *)

Module TranscriptFacts.
Import YouTubeAPI YouTubeAPIExt Samples TranscriptSamples.

#[local] Arguments truthy : simpl never.

(** X21. The caption loop takes the first caption whose language starts
    with "en", whatever came before it; when no caption is English it keeps
    the first one (captions being non-empty dictionaries). *)
Theorem best_caption_prefers_english before c after best :
  Forall (λ x, ∃ l, caption_language x = Some l ∧ String.prefix "en" l = false) before →
  ((∃ l, caption_language c = Some l ∧ String.prefix "en" l = true) →
   find_best_caption (before ++ c :: after) best = Some (Some c)) ∧
  (Forall (λ x, ∃ l, caption_language x = Some l ∧ String.prefix "en" l = false)
     (c :: after) →
   truthy c = true → before = [] →
   find_best_caption (before ++ c :: after) None = Some (Some c)).
Proof.
  intros Hbefore. split.
  - intros (l & Hl & Hen). revert best.
    induction Hbefore as [|x before (lx & Hlx & Hnx) _ IH]; intros best; simpl.
    + by rewrite Hl, Hen.
    + rewrite Hlx, Hnx. apply IH.
  - intros Hall Htruthy ->. simpl.
    apply Forall_cons in Hall as [(l & Hl & Hn) Hafter]. rewrite Hl, Hn. simpl.
    clear Hl Hn. induction Hafter as [|x after (lx & Hlx & Hnx) _ IH]; simpl; [done|].
    rewrite Hlx, Hnx, Htruthy. simpl. exact IH.
Qed.

Lemma best_caption_prefers_english_witness :
  let caption lang id := VDict [("id", VStr id); ("snippet", VDict [("language", VStr lang)])] in
  find_best_caption [caption "de" "1"; caption "en-GB" "2"; caption "en" "3"] None
    = Some (Some (caption "en-GB" "2")) ∧
  find_best_caption [caption "de" "1"; caption "fr" "2"] None = Some (Some (caption "de" "1")).
Proof.
  intros caption. split.
  - destruct (best_caption_prefers_english [caption "de" "1"] (caption "en-GB" "2")
                [caption "en" "3"] None) as [H _].
    + apply Forall_cons. split; [simpl; by exists "de"|constructor].
    + apply H. by exists "en-GB".
  - destruct (best_caption_prefers_english [] (caption "de" "1") [caption "fr" "2"] None)
      as [_ H].
    + constructor.
    + apply H; [|reflexivity..].
      apply Forall_cons. split; [simpl; by exists "de"|].
      apply Forall_cons. split; [simpl; by exists "fr"|constructor].
Defined.

Section client.
Variable md5_hexdigest : string → string.
Variable settings : Settings.
Variable execute : list Request → Request → Upstream * Z.
Variable download : list Request → Request → Download * Z.
Variable py_str : PyVal → string.
Variable _clean_transcript : string → string.

#[local] Abbreviation get_video_captions := (get_video_captions md5_hexdigest settings execute).
#[local] Abbreviation get_video_transcript :=
  (get_video_transcript md5_hexdigest settings execute download py_str _clean_transcript).
#[local] Abbreviation download_caption := (download_caption download py_str).

Lemma download_caption_frame caption_id w :
  ∃ text, (download_caption caption_id w).1 = Return text ∧
    self (download_caption caption_id w).2 = self w ∧
    pipeline_log (download_caption caption_id w).2 = pipeline_log w ∧
    oversleeps (download_caption caption_id w).2 = oversleeps w ∧
    issued (download_caption caption_id w).2 = issued w ++ [caption_download_request caption_id].
Proof.
  unfold YouTubeAPIExt.download_caption.
  destruct (download (issued w) (caption_download_request caption_id)) as [answer latency].
  destruct answer as [[[text|]|v]|msg]; try (by eexists).
  destruct v; by eexists.
Qed.


Ltac unchanged :=
  solve [repeat split; simpl; try done; try (left; done); try (intros; discriminate)].


End client.



End TranscriptFacts.

(** ** The API key validator *)

Module ValidatorFacts.
Import YouTubeAPI APIKeyValidator ValidatorSamples.

#[local] Arguments utf8_width : simpl never.

Lemma take_bytes_nonempty n c r : take_bytes (S n) (String c r) ≠ "".
Proof. done. Qed.

Lemma utf8_chars_fuel_nonempty fuel s : Forall (λ c, c ≠ "") (utf8_chars_fuel fuel s).
Proof.
  revert s. induction fuel as [|fuel IH]; intros s.
  - destruct s; constructor.
  - destruct s as [|c r]; [constructor|]. simpl utf8_chars_fuel.
    constructor; [|apply IH].
    by destruct (utf8_width (String c r)) as [|n].
Qed.

Lemma join_empty l : Forall (λ c : string, c ≠ "") l → join "" l = "" → l = [].
Proof.
  intros Hl. destruct Hl as [|c l Hc Hl]; [done|]. simpl.
  destruct l as [|c' l']; [done|].
  destruct c as [|a c]; [done|]. done.
Qed.

Lemma lstrip_nil chars : lstrip chars = [] ↔ forallb is_space chars = true.
Proof.
  induction chars as [|c r IH]; simpl; [done|].
  destruct (is_space c); simpl; [done|]. split; done.
Qed.

Lemma lstrip_Forall (P : string → Prop) chars : Forall P chars → Forall P (lstrip chars).
Proof.
  induction 1 as [|c r Hc Hr IH]; simpl; [done|].
  destruct (is_space c); [done|by constructor].
Qed.

Lemma lstrip_head chars c r : lstrip chars = c :: r → is_space c = false.
Proof.
  induction chars as [|c' r' IH]; simpl; [done|].
  destruct (is_space c') eqn:Hc; [done|]. by intros [= <- _].
Qed.

(** [strip] leaves nothing exactly of a text that is all white space. *)
Lemma strip_empty s : strip s = "" ↔ blank s = true.
Proof.
  unfold strip, blank. rewrite <-lstrip_nil. split.
  - intros Hj. apply join_empty in Hj.
    + apply (f_equal reverse) in Hj. rewrite reverse_involutive in Hj.
      change (reverse []) with (@nil string) in Hj.
      destruct (lstrip (utf8_chars s)) as [|c r] eqn:Hl; [done|].
      apply lstrip_nil in Hj. rewrite reverse_cons, forallb_app in Hj.
      apply andb_true_iff in Hj as [_ Hc]. simpl in Hc.
      by rewrite (lstrip_head _ _ _ Hl) in Hc.
    + apply Forall_reverse, lstrip_Forall, Forall_reverse, lstrip_Forall.
      apply utf8_chars_fuel_nonempty.
  - by intros ->.
Qed.

Lemma blank_spec api_key :
  negb (str_truthy api_key) || negb (str_truthy (strip api_key)) = blank api_key.
Proof.
  destruct (blank api_key) eqn:Hb.
  - apply strip_empty in Hb. rewrite Hb. apply orb_true_r.
  - assert (strip api_key ≠ "") as Hne by (rewrite strip_empty; congruence).
    unfold str_truthy. rewrite (bool_decide_false (strip api_key = "")) by done.
    rewrite bool_decide_false; [done|]. by intros ->.
Qed.

(** X24. [validate_api_key] turns a key that is empty or all white space
    (of any script) down without asking upstream; for any other key it
    builds the service and, if that succeeds, makes exactly one test
    request (if it does not, none). When the request fails with an
    [HttpError] whose body does not decode, the [UnicodeDecodeError] leaves
    the function; otherwise there is a verdict, which is "valid" exactly
    when the request succeeded or was refused with status 403 and
    "quotaExceeded" in the body; an invalid verdict always carries an error
    text and an error code. *)
Theorem validate_api_key_verdict build_service execute api_key :
  let r := validate_api_key build_service execute api_key in
  let answer := (execute [] (test_request api_key)).1 in
  (blank api_key = true → r = (inr (invalid "API key is empty" "EMPTY_KEY"), [])) ∧
  (blank api_key = false → build_service (strip api_key) = None →
   r.2 = [test_request api_key] ∧
   (undecodable answer → r.1 = inl decode_error) ∧
   (¬ undecodable answer →
    ∃ verdict, r.1 = inr verdict ∧
      (valid verdict = true ↔
       (∃ v, answer = UpOk v) ∨
       (∃ content, answer = UpHttpError 403 content ∧
          contains "quotaExceeded"
            (if str_truthy content then content else "No error content") = true)))) ∧
  (blank api_key = false → ∀ e, build_service (strip api_key) = Some e →
   r = (on_exception e, [])) ∧
  (∀ verdict, r.1 = inr verdict → valid verdict = false →
     ∃ msg code, error verdict = Some msg ∧ error_code verdict = Some code).
Proof.
  cbv zeta. unfold validate_api_key. rewrite blank_spec.
  assert (∀ e verdict, on_exception e = inr verdict → valid verdict = false →
            ∃ msg code, error verdict = Some msg ∧ error_code verdict = Some code)
    as Hinvalid.
  { intros e verdict. destruct e as [pe|status content|msg]; simpl;
      try (intros [= <-] _; by eexists _, _).
    destruct (str_truthy content && negb (utf8_valid content)); [done|].
    intros [= <-]. unfold http_verdict.
    repeat case_bool_decide; repeat destruct (contains _ _); simpl; try done;
      intros _; by eexists _, _. }
  destruct (blank api_key) eqn:Hsp; simpl.
  { split_and!; [done|done|done|]. intros verdict [= <-] _. by eexists _, _. }
  split_and!; [done| | |].
  - intros _ ->. split; [done|].
    destruct (execute [] (test_request api_key)).1 as [v|status content|msg]; simpl.
    + split; [by intros (st & c & [=] & _)|]. intros _. eexists. split; [done|].
      simpl. split; [|done]. intros _. left. by exists v.
    + destruct (str_truthy content && negb (utf8_valid content)) eqn:Hdec.
      * split; [done|]. intros Hno. destruct Hno. exists status, content.
        apply andb_true_iff in Hdec as [Ht Hv%negb_true_iff]. done.
      * split.
        { intros (st & c & [= <- <-] & Ht & Hv). by rewrite Ht, Hv in Hdec. }
        intros _. eexists. split; [done|]. unfold http_verdict.
        repeat case_bool_decide; subst; simpl.
        -- destruct (contains "API_KEY_INVALID" _); simpl;
             (split; [done|intros [[v [=]]|(c & [=] & _)]]).
        -- destruct (contains "quotaExceeded" _) eqn:Hq; simpl.
           ++ split; [|done]. intros _. right. by exists content.
           ++ split; [by repeat destruct (contains _ _)|].
              intros [[v [=]]|(c & [= <-] & Hc)]. congruence.
        -- split; [done|]. intros [[v [=]]|(c & [= -> _] & _)]. done.
    + split; [by intros (st & c & [=] & _)|]. intros _. eexists. split; [done|].
      simpl. split; [done|]. intros [[v [=]]|(c & [=] & _)].
  - intros _ e ->. done.
  - intros verdict. destruct (build_service (strip api_key)) as [e|]; simpl.
    { apply Hinvalid. }
    destruct (execute [] (test_request api_key)).1 as [v|status content|msg].
    + by intros [= <-].
    + apply (Hinvalid (HttpError status content)).
    + apply (Hinvalid (OtherException msg)).
Qed.

Lemma validate_api_key_verdict_witness :
  validate_api_key builds Samples.upstream_ok "   "
  = (inr (invalid "API key is empty" "EMPTY_KEY"), []) ∧
  validate_api_key builds Samples.upstream_ok nbsp_emspace
  = (inr (invalid "API key is empty" "EMPTY_KEY"), []) ∧
  (∃ verdict, (validate_api_key builds Samples.upstream_ok " key ").1 = inr verdict ∧
              valid verdict = true) ∧
  (validate_api_key builds Samples.upstream_garbled " key ").1 = inl decode_error ∧
  (validate_api_key build_fails Samples.upstream_ok " key ").2 = [].
Proof.
  destruct (validate_api_key_verdict builds Samples.upstream_ok "   ") as (H1 & _).
  destruct (validate_api_key_verdict builds Samples.upstream_ok nbsp_emspace) as (H2 & _).
  destruct (validate_api_key_verdict builds Samples.upstream_ok " key ") as (_ & H3 & _).
  destruct (validate_api_key_verdict builds Samples.upstream_garbled " key ")
    as (_ & H4 & _).
  destruct (validate_api_key_verdict build_fails Samples.upstream_ok " key ")
    as (_ & _ & H5 & _).
  split_and!.
  - apply H1. reflexivity.
  - apply H2. vm_compute. reflexivity.
  - destruct H3 as (_ & _ & H3); [reflexivity..|].
    destruct H3 as (verdict & Hv & Hiff); [by intros (st & c & [=] & _)|].
    exists verdict. split; [done|]. apply Hiff. left. by eexists.
  - destruct H4 as (_ & H4 & _); [reflexivity..|]. apply H4.
    eexists _, _. split; [reflexivity|]. by vm_compute.
  - by rewrite (H5 eq_refl _ eq_refl).
Defined.

End ValidatorFacts.

(** ** Paged search *)

Module SearchFacts.
Import YouTubeAPI Search Samples SearchSamples.

#[local] Arguments YouTubeAPI._make_request : simpl never.
#[local] Arguments YouTubeAPI.caching : simpl never.
#[local] Arguments CacheManager.set : simpl never.
#[local] Arguments CacheManager.get : simpl never.
#[local] Arguments RateLimiter.acquire : simpl never.
#[local] Arguments classify : simpl never.
#[local] Arguments handle : simpl never.
#[local] Arguments truthy : simpl never.
#[local] Arguments alias_write : simpl never.
#[local] Arguments py_getitem : simpl never.
#[local] Arguments py_iter : simpl never.

Lemma dict_set_same {V} k (v : V) d : dict_get k d = Some v → dict_set k v d = d.
Proof.
  induction d as [|[k' v'] d IH]; simpl; [done|].
  destruct (decide (k = k')) as [->|Hne].
  - by intros [= ->].
  - intros Hget. by rewrite IH.
Qed.

Section client.
Variable md5_hexdigest : string → string.
Variable py_hash : string → Z.
Variable str_datetime : Z → string.
Variable isoformat : Z → string.
Variable settings : Settings.
Variable execute : list Request → Request → Upstream * Z.
Variable accepts : Request → bool.

#[local] Abbreviation _make_request := (_make_request md5_hexdigest settings execute).
#[local] Abbreviation alias_write := (alias_write md5_hexdigest settings).
#[local] Abbreviation search_pages := (search_pages md5_hexdigest settings execute accepts).
#[local] Abbreviation search_videos :=
  (search_videos md5_hexdigest py_hash str_datetime isoformat settings execute accepts).
#[local] Abbreviation key_of := (CacheManager._generate_cache_key md5_hexdigest).
#[local] Abbreviation cached_as := (cached_as md5_hexdigest).
#[local] Abbreviation page_ok := (page_ok accepts).
#[local] Abbreviation build := (build accepts).

Lemma alias_write_frame cache_key v w :
  (alias_write cache_key v w).1 = Return tt ∧
  pipeline_log (alias_write cache_key v w).2 = pipeline_log w ∧
  issued (alias_write cache_key v w).2 = issued w.
Proof.
  unfold Search.alias_write, modify, mret, M_ret.
  destruct (caching settings (Some cache_key)); [|done]. simpl.
  by destruct (dict_get _ _).
Qed.

Lemma build_run req w :
  build req w = if accepts req then (Return req, w) else (Raise TypeError, w).
Proof. unfold Search.build. by destruct (accepts req). Qed.

(** A page request as the loop builds it. *)
Lemma page_request_ok params token remaining :
  truthy token = true →
  accepts (search_request (dict_set "maxResults" (VInt (Z.min remaining 50))
                             (dict_set "pageToken" token params))) = true →
  page_ok (search_request (dict_set "maxResults" (VInt (Z.min remaining 50))
                             (dict_set "pageToken" token params))).
Proof.
  intros Ht Hacc. split; [done|]. split; [done|]. simpl. split.
  - exists token. split; [|done].
    rewrite CacheOpsFacts.dict_get_set_ne by done. apply DictFacts.dict_get_set.
  - exists (Z.min remaining 50). split; [apply DictFacts.dict_get_set|lia].
Qed.

Lemma search_pages_log fuel cache_key params result all_items token remaining w :
  ∃ pages,
    pipeline_log (search_pages fuel cache_key params result all_items token remaining w).2
    = pipeline_log w ++ ((λ req, (req, "search", None)) <$> pages) ∧
    Forall page_ok pages.
Proof.
  revert params all_items token remaining w.
  induction fuel as [|fuel IH]; intros params all_items token remaining w; simpl.
  - exists []. simpl. rewrite app_nil_r. split; [|constructor].
    by destruct (truthy token && bool_decide (0 < remaining)).
  - destruct (truthy token) eqn:Ht; simpl;
      [|exists []; simpl; rewrite app_nil_r; by split].
    destruct (bool_decide (0 < remaining)); simpl;
      [|exists []; simpl; rewrite app_nil_r; by split].
    unfold mbind, M_bind. rewrite build_run.
    set (params' := dict_set "maxResults" _ _).
    destruct (accepts (search_request params')) eqn:Hacc;
      [|exists []; simpl; rewrite app_nil_r; by split].
    pose proof (page_request_ok params token remaining Ht Hacc) as Hpage.
    fold params' in Hpage.
    pose proof (BatchFacts.make_request_log md5_hexdigest settings execute
                  (search_request params') "search" None w) as Hlog.
    assert (∃ pages, pipeline_log w ++ [(search_request params', "search", None)]
                     = pipeline_log w ++ ((λ req, (req, "search", None)) <$> pages) ∧
                     Forall page_ok pages) as Hone.
    { exists [search_request params']. split; [done|]. by constructor. }
    destruct (_make_request (search_request params') "search" None w)
      as [[page_result|e|] w1]; simpl in Hlog; [|simpl; by rewrite Hlog..].
    destruct (py_getitem "items" page_result) as [e|page_items]; simpl;
      [by rewrite Hlog|].
    destruct (py_iter page_items) as [more|]; simpl; [|by rewrite Hlog].
    destruct (alias_write_frame cache_key
                (VDict (dict_set "items" (VList (all_items ++ more)) result)) w1)
      as (Hok & Hl & _).
    destruct (alias_write cache_key _ w1) as [o w2]. simpl in *. subst o.
    destruct (IH params' (all_items ++ more)
                match page_result with
                | VDict d => default VNone (dict_get "nextPageToken" d)
                | _ => VNone
                end (remaining - Z.of_nat (length more)) w2) as (pages & Hn & Hall).
    exists (search_request params' :: pages). split; [|by constructor].
    rewrite Hn, Hl, Hlog, <-app_assoc. done.
Qed.

Lemma search_params_max_results a :
  dict_get "maxResults" (search_params isoformat a) = Some (VInt (Z.min (max_results a) 50)).
Proof.
  unfold search_params.
  destruct (published_after a), (published_before a), (region_code a) as [r|],
    (language a) as [l|], (content_type a) as [c|];
    repeat match goal with
           | |- context [str_truthy ?x] => destruct (str_truthy x)
           | |- context [bool_decide ?P] => destruct (bool_decide P)
           end;
    rewrite ?CacheOpsFacts.dict_get_set_ne by done; done.
Qed.

(** X25. [search_videos] builds its first request for at most fifty
    results. When the client library does not accept the request (an
    [order] that the API does not know, say), the [TypeError] of the library
    leaves [search_videos] before any call is made. Otherwise there is one
    orchestrated call with that request under the search key, and after it
    only calls for further pages that go without a cache key: each a
    "search" (checked and counted against the quota like the first) whose
    request the library accepted, names its page and asks for at most fifty
    results. A search for at most fifty results is the one call and nothing
    else. *)
Theorem search_calls fuel a w :
  let key := search_videos_cache_key py_hash str_datetime a in
  let first := search_request (search_params isoformat a) in
  let r := search_videos fuel a w in
  dict_get "maxResults" first.2 = Some (VInt (Z.min (max_results a) 50)) ∧
  (accepts first = false → r = (Raise TypeError, w)) ∧
  (accepts first = true →
   (∃ pages,
      pipeline_log r.2
      = pipeline_log w ++
          (first, "search", Some key) :: ((λ req, (req, "search", None)) <$> pages) ∧
      Forall page_ok pages) ∧
   (max_results a ≤ 50 → r = _make_request first "search" (Some key) w)).
Proof.
  cbv zeta. split; [apply search_params_max_results|].
  unfold Search.search_videos, mbind, M_bind, mret, M_ret. rewrite build_run.
  set (key := search_videos_cache_key py_hash str_datetime a).
  set (first := search_request (search_params isoformat a)).
  destruct (accepts first) eqn:Hacc; [|by split]. split; [done|]. intros _.
  pose proof (BatchFacts.make_request_log md5_hexdigest settings execute first "search"
                (Some key) w) as Hlog.
  assert (∀ w', pipeline_log w' = pipeline_log w ++ [(first, "search", Some key)] →
            ∃ pages,
              pipeline_log w'
              = pipeline_log w ++
                  (first, "search", Some key) :: ((λ req, (req, "search", None)) <$> pages) ∧
              Forall page_ok pages) as Hnone.
  { intros w' Hw'. exists []. split; [done|constructor]. }
  destruct (_make_request first "search" (Some key) w) as [[result|e|] w1]; simpl in Hlog;
    [|split; [by apply Hnone|done]..].
  case_bool_decide as Hmax; [|split; [by apply Hnone|done]].
  split; [|lia].
  destruct (py_in "nextPageToken" result) as [[|]|]; simpl; [|by apply Hnone..].
  destruct (py_getitem "items" result) as [e|all_items]; simpl; [by apply Hnone|].
  destruct (py_getitem "nextPageToken" result) as [e|token]; simpl; [by apply Hnone|].
  destruct result as [| | | |l|d]; try (by apply Hnone).
  destruct all_items as [| | | |l|d'];
    try (destruct (truthy token) eqn:Ht; [|by apply Hnone];
         rewrite build_run;
         match goal with
         | |- context [accepts ?req] =>
             destruct (accepts req) eqn:Hacc'; [|by apply Hnone];
             pose proof (page_request_ok (search_params isoformat a) token
                           (max_results a - 50) Ht Hacc') as Hpage;
             pose proof (BatchFacts.make_request_log md5_hexdigest settings execute
                           req "search" None w1) as Hlog';
             exists [req]; split; [|by constructor];
             destruct (_make_request req "search" None w1) as [[page|e|] w2]
         end; simpl in *; by rewrite Hlog', Hlog, <-app_assoc).
  destruct (search_pages_log fuel key (search_params isoformat a) d l token
              (max_results a - 50) w1) as (pages & Hn & Hall).
  exists pages. split; [|done]. by rewrite Hn, Hlog, <-app_assoc.
Qed.

Lemma get_hit k now cm v cm' :
  CacheManager.get md5_hexdigest settings k now cm = (v, cm') → truthy v = true →
  ∃ e, dict_get (key_of k) (CacheManager.memory_cache cm') = Some e ∧ CacheManager.value e = v.
Proof.
  unfold CacheManager.get. destruct (enable_caching settings); simpl; [|by intros [= <- <-]].
  destruct (dict_get (key_of k) (CacheManager.memory_cache cm)) as [e|] eqn:Hget;
    [|by intros [= <- <-]].
  case_bool_decide; [|by intros [= <- <-]].
  intros [= <- <-] _. by exists e.
Qed.

Lemma set_inr k v ttl now cm b cm' :
  enable_caching settings = true →
  CacheManager.set md5_hexdigest settings k v ttl now cm = (inr b, cm') →
  ∃ e, dict_get (key_of k) (CacheManager.memory_cache cm') = Some e ∧ CacheManager.value e = v.
Proof.
  intros Hen. unfold CacheManager.set. rewrite Hen. simpl.
  destruct (CacheManager._cleanup_memory_cache now cm) as [[e|] cm1]; [done|].
  destruct (CacheManager.expiry now (CacheManager.ttl_or_default ttl cm)); [|done].
  intros [= <- <-]. simpl. rewrite DictFacts.dict_get_set. by eexists.
Qed.

Lemma first_call_cached req op cache_key w v w' :
  caching settings (Some cache_key) = Some cache_key →
  _make_request req op (Some cache_key) w = (Return v, w') → cached_as cache_key v w'.
Proof.
  intros Hcaching. pose proof (PipelineFacts.caching_Some settings cache_key Hcaching) as Hen.
  rewrite PipelineFacts.make_request_run. simpl. rewrite Hcaching.
  destruct (CacheManager.get _ _ _ _ _) as [c cm] eqn:Hget. simpl.
  destruct (truthy c) eqn:Htruthy.
  - intros [= <- <-]. unfold cached_as. simpl. by eapply get_hit.
  - rewrite PipelineFacts.after_cache_run. simpl.
    case_bool_decide; [done|].
    destruct (RateLimiter.acquire _ _ _ _) as [[[st now] rl] rest].
    destruct st; [|done]. simpl.
    destruct (execute (issued w) req) as [answer latency].
    destruct answer as [result|status content|msg]; simpl; [|done..].
    rewrite Hcaching.
    destruct (CacheManager.set _ _ _ _ _ _ _) as [[e|b] cm1] eqn:Hset; [done|].
    intros [= <- <-]. unfold cached_as. simpl. by eapply set_inr.
Qed.

Lemma page_call_cache_frame req op w :
  cache_manager (self (_make_request req op None w).2) = cache_manager (self w).
Proof.
  rewrite PipelineFacts.make_request_run. simpl.
  change (caching settings None) with (@None string).
  rewrite PipelineFacts.after_cache_run. simpl.
  destruct (PipelineFacts.check_quota_frame op (entered req op None w))
    as (_ & _ & _ & _ & _ & Hcm & _). simpl in Hcm.
  case_bool_decide; simpl; [done|].
  destruct (RateLimiter.acquire _ _ _ _) as [[[st now] rl] rest].
  destruct st; simpl; [|done].
  destruct (execute (issued w) req) as [answer latency].
  by destruct answer as [result|status content|msg].
Qed.

Lemma alias_write_stores cache_key v v0 w :
  caching settings (Some cache_key) = Some cache_key → cached_as cache_key v0 w →
  cached_as cache_key v (alias_write cache_key v w).2.
Proof.
  intros Hcaching (e & Hget & _). unfold Search.alias_write, modify, cached_as.
  rewrite Hcaching. simpl. rewrite Hget. simpl. rewrite DictFacts.dict_get_set. by eexists.
Qed.

Lemma search_pages_cached fuel cache_key params result all_items token remaining w v w' :
  caching settings (Some cache_key) = Some cache_key →
  cached_as cache_key (VDict (dict_set "items" (VList all_items) result)) w →
  search_pages fuel cache_key params result all_items token remaining w = (Return v, w') →
  cached_as cache_key v w'.
Proof.
  intros Hcaching. revert params all_items token remaining w.
  induction fuel as [|fuel IH]; intros params all_items token remaining w Hc; simpl.
  - destruct (truthy token && bool_decide (0 < remaining)); [done|].
    by intros [= <- <-].
  - destruct (truthy token && bool_decide (0 < remaining)); [|by intros [= <- <-]].
    unfold mbind, M_bind. rewrite build_run.
    set (params' := dict_set "maxResults" _ _).
    destruct (accepts (search_request params')); [|done].
    pose proof (page_call_cache_frame (search_request params') "search" w) as Hframe.
    destruct (_make_request (search_request params') "search" None w)
      as [[page_result|e|] w1]; simpl in Hframe; [|done..].
    destruct (py_getitem "items" page_result) as [e|page_items]; simpl; [done|].
    destruct (py_iter page_items) as [more|]; simpl; [|done].
    assert (cached_as cache_key (VDict (dict_set "items" (VList all_items) result)) w1)
      as Hc1 by (unfold Search.cached_as in *; by rewrite Hframe).
    pose proof (alias_write_stores cache_key
                  (VDict (dict_set "items" (VList (all_items ++ more)) result)) _ w1
                  Hcaching Hc1) as Hc2.
    destruct (alias_write_frame cache_key
                (VDict (dict_set "items" (VList (all_items ++ more)) result)) w1)
      as (Hok & _).
    destruct (alias_write cache_key _ w1) as [o w2]. simpl in *. subst o.
    by apply IH.
Qed.

(** X15. With caching on, the value that [search_videos] returns is the
    value held in the cache under the search key when it returns: the entry
    of the first page has taken up the items of all the pages appended to
    it. (So a repeat of a paged search, served from the cache, starts from
    the full list and appends the further pages once more.) *)
Theorem search_result_is_the_cached_object fuel a w v w' :
  let key := search_videos_cache_key py_hash str_datetime a in
  caching settings (Some key) = Some key →
  search_videos fuel a w = (Return v, w') →
  cached_as key v w'.
Proof.
  cbv zeta. intros Hcaching.
  unfold Search.search_videos, mbind, M_bind, mret, M_ret. rewrite build_run.
  set (key := search_videos_cache_key py_hash str_datetime a) in *.
  set (first := search_request (search_params isoformat a)).
  destruct (accepts first); [|done].
  pose proof (first_call_cached first "search" key w) as Hfirst.
  destruct (_make_request first "search" (Some key) w) as [[result|e|] w1]; [|done..].
  specialize (Hfirst result w1 Hcaching eq_refl).
  case_bool_decide as Hmax; [|by intros [= <- <-]].
  destruct (py_in "nextPageToken" result) as [[|]|]; simpl;
    [|by intros [= <- <-]|done].
  destruct (py_getitem "items" result) as [e|all_items] eqn:Hitems; simpl; [done|].
  destruct (py_getitem "nextPageToken" result) as [e|token]; simpl; [done|].
  destruct result as [| | | |l|d]; try done.
  destruct all_items as [| | | |l|d'];
    try (destruct (truthy token); [|by intros [= <- <-]];
         rewrite build_run;
         match goal with
         | |- context [accepts ?req] => destruct (accepts req); [|done]
         end;
         by destruct (_make_request _ "search" None w1) as [[page|e|] w2]).
  apply search_pages_cached; [done|].
  unfold py_getitem in Hitems.
  destruct (dict_get "items" d) as [x|] eqn:Hget; [|done]. injection Hitems as ->.
  by rewrite dict_set_same.
Qed.

End client.

Lemma search_calls_witness :
  let w := world 1000 0 [] [] in
  let key a := search_videos_cache_key (seeded_hash 1) no_datetime a in
  let search := Search.search_videos digest (seeded_hash 1) no_datetime no_datetime
                  default_settings upstream_paged checks_order 5 in
  search cats w
  = YouTubeAPI._make_request digest default_settings upstream_paged
      (search_request (search_params no_datetime cats)) "search" (Some (key cats)) w ∧
  search newest w = (Raise TypeError, w) ∧
  (pipeline_log (search wide_search w).2).*1.*2 = ["search"; "search"; "search"] ∧
  (pipeline_log (search wide_search w).2).*2
  = [Some (key wide_search); None; None].
Proof.
  intros w key search.
  destruct (search_calls digest (seeded_hash 1) no_datetime no_datetime default_settings
              upstream_paged checks_order 5 cats w) as (_ & _ & H).
  destruct (search_calls digest (seeded_hash 1) no_datetime no_datetime default_settings
              upstream_paged checks_order 5 newest w) as (_ & H' & _).
  destruct (search_calls digest (seeded_hash 1) no_datetime no_datetime default_settings
              upstream_paged checks_order 5 wide_search w) as (_ & _ & H'').
  split_and!.
  - destruct H as [_ H]; [reflexivity|]. apply H. vm_compute. intros [=].
  - apply H'. reflexivity.
  - destruct H'' as [(pages & Hlog & _) _]; [reflexivity|].
    vm_compute. reflexivity.
  - vm_compute. reflexivity.
Defined.

Lemma search_result_is_the_cached_object_witness :
  let key := search_videos_cache_key (seeded_hash 1) no_datetime wide_search in
  let search := Search.search_videos digest (seeded_hash 1) no_datetime no_datetime
                  default_settings upstream_paged checks_order 5 wide_search in
  let w := world 1000 0 [] [] in
  caching default_settings (Some key) = Some key ∧
  (∃ v w', search w = (Return v, w') ∧ Search.cached_as digest key v w') ∧
  item_count (search w).1 = 3%nat ∧
  item_count (search (search w).2).1 = 5%nat ∧
  length (issued (search (search w).2).2) = 5%nat.
Proof.
  intros key search w. split; [reflexivity|]. split; [|vm_compute; done].
  destruct (search w) as [[v|e|] w'] eqn:Hs; try (vm_compute in Hs; discriminate).
  exists v, w'. split; [done|].
  apply (search_result_is_the_cached_object digest (seeded_hash 1) no_datetime
           no_datetime default_settings upstream_paged checks_order 5 wide_search w);
    [reflexivity|exact Hs].
Defined.

End SearchFacts.
